(** * rconn: the reliable OpenFlow connection of lib/rconn.c

    A shallow embedding of [lib/rconn.c] and the properties of its
    connection state machine, backoff policy, send path and admission
    heuristic.

    Conventions of the embedding.
    - C integers are [Z] with the conversion to the destination type written
      at every assignment: [to_uint] for [unsigned int], [to_int] for [int],
      [to_time] for [time_t] and [to_ulong] for [unsigned long].  The target
      is LP64: [int] has 32 bits, [time_t] and [long] have 64.  ISO C leaves
      a signed overflow undefined.  The one signed operation that the state
      machine itself drives out of range, the doubling of the backoff in
      [disconnect], has no result where [int] does not hold the product: it
      is the fault [SignedOverflow].  The other signed operations (packet
      counts, sums and differences of [time_t]) are embedded as
      two's-complement wrap-around, and a statement that is phrased with the
      mathematical operation says where it needs the result to be
      representable.
    - [struct rconn] is the record [rconn].  Everything else the functions
      touch lives in [world]: the heap of packet counters, the clock read by
      [time_now], the answers of the transport and the log of the calls made
      to the collaborators (vconn, ofpbuf, poll loop).
    - Functions with effects are written in the monad [M]: a state monad on
      [world] whose second outcome, [Crash], is a failed assertion, an
      invalid pointer dereference or an undefined signed overflow. *)

From Stdlib Require Import ZArith Lia Bool List String.
From Stdlib.Strings Require Import Byte.
From stdpp Require Import base option list gmap strings relations.

Local Open Scope Z_scope.

(** ** Machine integers *)

Definition INT_MAX : Z := 2 ^ 31 - 1.
Definition INT_MIN : Z := - 2 ^ 31.
Definition UINT_MAX : Z := 2 ^ 32 - 1.
Definition TIME_MAX : Z := 2 ^ 63 - 1.
Definition TIME_MIN : Z := - 2 ^ 63.

Definition wrap_signed (bits z : Z) : Z :=
  (z + 2 ^ (bits - 1)) mod 2 ^ bits - 2 ^ (bits - 1).

Definition to_int (z : Z) : Z := wrap_signed 32 z.
Definition to_uint (z : Z) : Z := z mod 2 ^ 32.
Definition to_time (z : Z) : Z := wrap_signed 64 z.
Definition to_ulong (z : Z) : Z := z mod 2 ^ 64.

Definition int_ok (z : Z) : Prop := INT_MIN <= z <= INT_MAX.
Definition uint_ok (z : Z) : Prop := 0 <= z <= UINT_MAX.
Definition time_ok (z : Z) : Prop := TIME_MIN <= z <= TIME_MAX.

(** [MIN] and [MAX] are the macros of util.h. *)
Definition MIN (x y : Z) : Z := if x <? y then x else y.
Definition MAX (x y : Z) : Z := if x >? y then x else y.

Definition b2z (b : bool) : Z := if b then 1 else 0.

(** Modelled from the spec: [sat_add] of sat-math.h, which is not part of the
    sources at hand; unsigned addition that saturates at the representable
    maximum instead of wrapping. *)
Definition sat_add (x y : Z) : Z :=
  if to_uint (x + y) >=? x then to_uint (x + y) else UINT_MAX.

(** Modelled from the spec: [sat_sub] and [sat_mul] of sat-math.h, which is
    not part of the sources at hand; unsigned subtraction that saturates at
    0 and unsigned multiplication that saturates at the representable
    maximum. *)
Definition sat_sub (x y : Z) : Z := if x >=? y then x - y else 0.
Definition sat_mul (x y : Z) : Z := if x <=? UINT_MAX / y then x * y else UINT_MAX.

(** Values of errno.h and stdio.h on the target. *)
Definition EAGAIN : Z := 11.
Definition ENOTCONN : Z := 107.
Definition EOF : Z := -1.

(** ** Data *)

(** [enum state]; every state is one bit so that a set of states is a mask. *)
Inductive rstate : Type := S_VOID | S_BACKOFF | S_CONNECTING | S_ACTIVE | S_IDLE.

Definition state_value (s : rstate) : Z :=
  match s with
  | S_VOID => Z.shiftl 1 0
  | S_BACKOFF => Z.shiftl 1 1
  | S_CONNECTING => Z.shiftl 1 2
  | S_ACTIVE => Z.shiftl 1 3
  | S_IDLE => Z.shiftl 1 4
  end.

#[global] Instance rstate_eq_dec : EqDecision rstate.
Proof. solve_decision. Defined.

Definition state_eqb (a b : rstate) : bool := bool_decide (a = b).

Definition state_name (s : rstate) : string :=
  match s with
  | S_VOID => "VOID"
  | S_BACKOFF => "BACKOFF"
  | S_CONNECTING => "CONNECTING"
  | S_ACTIVE => "ACTIVE"
  | S_IDLE => "IDLE"
  end.

(** [state & mask] as a truth value. *)
Definition state_in (s : rstate) (mask : Z) : bool :=
  negb (Z.land (state_value s) mask =? 0).

(** A transport handle, with what the accessors of vconn.h return for it. *)
Record vconn_t : Type := {
  v_id : nat;
  v_local_ip : Z;
  v_remote_ip : Z;
  v_remote_port : Z
}.

(** [struct ofpbuf]: the bytes and the [private_p] field, which rconn uses for
    the address of the packet counter the buffer is charged to. *)
Record ofpbuf : Type := {
  data : list byte;
  private_p : option nat
}.

(** Modelled from the spec: [struct rconn_packet_counter] is declared in
    rconn.h, which is not part of the sources at hand; a count of packets in
    flight and a count of owners. *)
Record rconn_packet_counter : Type := {
  n : Z;
  ref_cnt : Z
}.

Record rconn : Type := {
  state : rstate;
  state_entered : Z;
  vconn : option vconn_t;
  name : string;
  reliable : bool;
  txq : list ofpbuf;
  backoff : Z;
  max_backoff : Z;
  backoff_deadline : Z;
  last_received : Z;
  last_connected : Z;
  packets_sent : Z;
  seqno : Z;
  probably_admitted : bool;
  last_admitted : Z;
  packets_received : Z;
  n_attempted_connections : Z;
  n_successful_connections : Z;
  creation_time : Z;
  total_time_connected : Z;
  questionable_connectivity : bool;
  last_questioned : Z;
  probe_interval : Z;
  local_ip : Z;
  remote_ip : Z;
  remote_port : Z;
  monitors : list vconn_t
}.

Definition MAX_MONITORS : nat := 8.

(** Field assignment [r->f = v].  The setter of a field is obtained from the
    eta-expansion of the record by abstracting that field. *)
Definition rconn_eta (r : rconn) : rconn :=
  Build_rconn (state r) (state_entered r) (vconn r) (name r) (reliable r)
    (txq r) (backoff r) (max_backoff r) (backoff_deadline r) (last_received r)
    (last_connected r) (packets_sent r) (seqno r) (probably_admitted r)
    (last_admitted r) (packets_received r) (n_attempted_connections r)
    (n_successful_connections r) (creation_time r) (total_time_connected r)
    (questionable_connectivity r) (last_questioned r) (probe_interval r)
    (local_ip r) (remote_ip r) (remote_port r) (monitors r).

Ltac assign proj :=
  let v := fresh "v" in
  let r := fresh "r" in
  intros v r;
  let t := eval cbv [rconn_eta] in (rconn_eta r) in
  match eval pattern (proj r) in t with
  | ?f _ => let g := eval cbv beta in (f v) in exact g
  end.

Definition set_state : rstate -> rconn -> rconn := ltac:(assign state).
Definition set_state_entered : Z -> rconn -> rconn := ltac:(assign state_entered).
Definition set_vconn : option vconn_t -> rconn -> rconn := ltac:(assign vconn).
Definition set_name : string -> rconn -> rconn := ltac:(assign name).
Definition set_reliable : bool -> rconn -> rconn := ltac:(assign reliable).
Definition set_txq : list ofpbuf -> rconn -> rconn := ltac:(assign txq).
Definition set_backoff : Z -> rconn -> rconn := ltac:(assign backoff).
Definition set_max_backoff : Z -> rconn -> rconn := ltac:(assign max_backoff).
Definition set_backoff_deadline : Z -> rconn -> rconn := ltac:(assign backoff_deadline).
Definition set_last_received : Z -> rconn -> rconn := ltac:(assign last_received).
Definition set_last_connected : Z -> rconn -> rconn := ltac:(assign last_connected).
Definition set_packets_sent : Z -> rconn -> rconn := ltac:(assign packets_sent).
Definition set_seqno : Z -> rconn -> rconn := ltac:(assign seqno).
Definition set_probably_admitted : bool -> rconn -> rconn := ltac:(assign probably_admitted).
Definition set_last_admitted : Z -> rconn -> rconn := ltac:(assign last_admitted).
Definition set_packets_received : Z -> rconn -> rconn := ltac:(assign packets_received).
Definition set_n_attempted_connections : Z -> rconn -> rconn :=
  ltac:(assign n_attempted_connections).
Definition set_n_successful_connections : Z -> rconn -> rconn :=
  ltac:(assign n_successful_connections).
Definition set_total_time_connected : Z -> rconn -> rconn :=
  ltac:(assign total_time_connected).
Definition set_questionable_connectivity : bool -> rconn -> rconn :=
  ltac:(assign questionable_connectivity).
Definition set_last_questioned : Z -> rconn -> rconn := ltac:(assign last_questioned).
Definition set_probe_interval : Z -> rconn -> rconn := ltac:(assign probe_interval).
Definition set_local_ip : Z -> rconn -> rconn := ltac:(assign local_ip).
Definition set_remote_ip : Z -> rconn -> rconn := ltac:(assign remote_ip).
Definition set_remote_port : Z -> rconn -> rconn := ltac:(assign remote_port).
Definition set_monitors : list vconn_t -> rconn -> rconn := ltac:(assign monitors).

(** ** The world around an rconn *)

(** What a collaborator hands back: a return value, and the object an
    out-parameter receives when the return value is 0. *)
Record answer : Type := {
  a_retval : Z;
  a_vconn : vconn_t;
  a_buf : ofpbuf
}.

(** Calls made to the collaborators, most recent first. *)
Inductive event : Type :=
  | EvOpen (nm : string) (retval : Z) (vc : option vconn_t)
  | EvConnect (v : vconn_t) (retval : Z)
  | EvSend (v : vconn_t) (b : ofpbuf) (retval : Z)
  | EvRecv (v : vconn_t) (retval : Z)
  | EvClose (v : vconn_t)
  | EvClone (b : ofpbuf)
  | EvDelete (b : ofpbuf)
  | EvWake.

Record world : Type := {
  rc : rconn;
  counters : gmap nat rconn_packet_counter;
  clock : Z;
  peer : nat -> answer;
  calls : nat;
  log : list event
}.

Definition with_rc (r : rconn) (w : world) : world :=
  {| rc := r; counters := counters w; clock := clock w; peer := peer w;
     calls := calls w; log := log w |}.
Definition with_counters (cs : gmap nat rconn_packet_counter) (w : world) : world :=
  {| rc := rc w; counters := cs; clock := clock w; peer := peer w;
     calls := calls w; log := log w |}.
Definition with_clock (t : Z) (w : world) : world :=
  {| rc := rc w; counters := counters w; clock := t; peer := peer w;
     calls := calls w; log := log w |}.
Definition with_calls (k : nat) (w : world) : world :=
  {| rc := rc w; counters := counters w; clock := clock w; peer := peer w;
     calls := k; log := log w |}.
Definition with_log (l : list event) (w : world) : world :=
  {| rc := rc w; counters := counters w; clock := clock w; peer := peer w;
     calls := calls w; log := l |}.

(** ** The monad *)

Inductive fault : Type :=
  | NullCounter       (* read through a null packet counter pointer *)
  | DanglingCounter   (* read through a pointer to a freed packet counter *)
  | NullVconn         (* transport call on a null vconn *)
  | NullBuffer        (* read of the head of an empty queue *)
  | ShortMessage      (* read past the end of a message buffer *)
  | AssertionFailed
  | SignedOverflow    (* an int operation whose result int cannot hold: undefined in C *)
  | OutOfFuel.        (* a loop of the embedding ran past its bound *)

Inductive outcome (A : Type) : Type :=
  | Ok (a : A) (w : world)
  | Crash (f : fault).
Arguments Ok {A} a w.
Arguments Crash {A} f.

Definition M (A : Type) : Type := world -> outcome A.

Definition ret {A : Type} (a : A) : M A := fun w => Ok a w.
Definition bind {A B : Type} (m : M A) (k : A -> M B) : M B :=
  fun w => match m w with Ok a w' => k a w' | Crash f => Crash f end.

Declare Scope rconn_scope.
Delimit Scope rconn_scope with rconn.
Notation "x <- m ;; k" := (bind m (fun x => k))
  (at level 100, m at next level, right associativity) : rconn_scope.
Notation "m ;; k" := (bind m (fun _ => k))
  (at level 100, right associativity) : rconn_scope.
Local Open Scope rconn_scope.

Definition get : M rconn := fun w => Ok (rc w) w.
Definition modify (f : rconn -> rconn) : M unit := fun w => Ok tt (with_rc (f (rc w)) w).
Definition emit (e : event) : M unit := fun w => Ok tt (with_log (e :: log w) w).
Definition crash {A : Type} (f : fault) : M A := fun _ => Crash f.
Definition time_now : M Z := fun w => Ok (clock w) w.
Definition ask : M answer := fun w => Ok (peer w (calls w)) (with_calls (S (calls w)) w).
Definition when (c : bool) (m : M unit) : M unit := if c then m else ret tt.

(** ** Collaborators: transport, buffers, poll loop *)

(** Modelled from the spec: the transport contract of vconn.h, which is not
    part of the sources at hand.  [open] yields a handle exactly when it
    returns 0; [connect], [send] and [recv] return 0, a try-again value or an
    error; every answer is read from [peer].  A call other than [close] on a
    null handle is an invalid dereference. *)
Definition vconn_open (nm : string) : M (Z * option vconn_t) :=
  a <- ask;;
  let vc := if a_retval a =? 0 then Some (a_vconn a) else None in
  emit (EvOpen nm (a_retval a) vc);;
  ret (a_retval a, vc).

Definition vconn_connect (vc : option vconn_t) : M Z :=
  match vc with
  | None => crash NullVconn
  | Some v => a <- ask;; emit (EvConnect v (a_retval a));; ret (a_retval a)
  end.

Definition vconn_send (vc : option vconn_t) (b : ofpbuf) : M Z :=
  match vc with
  | None => crash NullVconn
  | Some v => a <- ask;; emit (EvSend v b (a_retval a));; ret (a_retval a)
  end.

Definition vconn_recv (vc : option vconn_t) : M (Z * ofpbuf) :=
  match vc with
  | None => crash NullVconn
  | Some v => a <- ask;; emit (EvRecv v (a_retval a));; ret (a_retval a, a_buf a)
  end.

Definition vconn_close (vc : option vconn_t) : M unit :=
  match vc with
  | None => ret tt
  | Some v => emit (EvClose v)
  end.

(** Modelled from the spec: clone and delete of ofpbuf.h, which is not part of
    the sources at hand.  A clone has the bytes of the original and no counter
    attached; deleting a null buffer does nothing. *)
Definition ofpbuf_clone (b : ofpbuf) : M ofpbuf :=
  emit (EvClone b);; ret {| data := data b; private_p := None |}.

Definition ofpbuf_delete (b : option ofpbuf) : M unit :=
  match b with
  | None => ret tt
  | Some b => emit (EvDelete b)
  end.

Definition poll_immediate_wake : M unit := emit EvWake.

(** Modelled from the spec: [make_echo_request] builds an echo request, a bare
    OpenFlow header (version, type, length 8, xid 0). *)
Definition OFP_VERSION : Z := 1.
Definition OFPT_HELLO : Z := 0.
Definition OFPT_ERROR : Z := 1.
Definition OFPT_ECHO_REQUEST : Z := 2.
Definition OFPT_ECHO_REPLY : Z := 3.
Definition OFPT_VENDOR : Z := 4.
Definition OFPT_FEATURES_REQUEST : Z := 5.
Definition OFPT_FEATURES_REPLY : Z := 6.
Definition OFPT_GET_CONFIG_REQUEST : Z := 7.
Definition OFPT_GET_CONFIG_REPLY : Z := 8.
Definition OFPT_SET_CONFIG : Z := 9.

Definition make_echo_request : ofpbuf :=
  {| data := [x01; x02; x00; x08; x00; x00; x00; x00]%byte; private_p := None |}.

(** ** Packet counters *)

Definition counter_load (c : nat) : M rconn_packet_counter :=
  fun w => match counters w !! c with
           | Some pc => Ok pc w
           | None => Crash DanglingCounter
           end.
Definition counter_store (c : nat) (pc : rconn_packet_counter) : M unit :=
  fun w => Ok tt (with_counters (<[c := pc]> (counters w)) w).
Definition counter_free (c : nat) : M unit :=
  fun w => Ok tt (with_counters (delete c (counters w)) w).

Definition rconn_packet_counter_create : M nat :=
  fun w => let c := fresh (dom (counters w)) in
           Ok c (with_counters (<[c := {| n := 0; ref_cnt := 1 |}]> (counters w)) w).

Definition rconn_packet_counter_destroy (counter : option nat) : M unit :=
  match counter with
  | None => ret tt
  | Some c =>
      pc <- counter_load c;;
      if ref_cnt pc >? 0 then
        let r := to_int (ref_cnt pc - 1) in
        counter_store c {| n := n pc; ref_cnt := r |};;
        when ((r =? 0) && (n pc =? 0)) (counter_free c)
      else crash AssertionFailed
  end.

Definition rconn_packet_counter_inc (c : nat) : M unit :=
  pc <- counter_load c;;
  counter_store c {| n := to_int (n pc + 1); ref_cnt := ref_cnt pc |}.

Definition rconn_packet_counter_dec (c : nat) : M unit :=
  pc <- counter_load c;;
  if n pc >? 0 then
    let k := to_int (n pc - 1) in
    counter_store c {| n := k; ref_cnt := ref_cnt pc |};;
    when ((k =? 0) && (ref_cnt pc =? 0)) (counter_free c)
  else crash AssertionFailed.

(** [if (counter) rconn_packet_counter_dec(counter)] *)
Definition counter_dec_opt (counter : option nat) : M unit :=
  match counter with
  | Some c => rconn_packet_counter_dec c
  | None => ret tt
  end.

(** ** The state machine: pure parts *)

Definition connected_mask : Z := Z.lor (state_value S_ACTIVE) (state_value S_IDLE).
Definition open_mask : Z :=
  Z.lor (state_value S_CONNECTING) (Z.lor (state_value S_ACTIVE) (state_value S_IDLE)).

Definition is_connected_state (s : rstate) : bool := state_in s connected_mask.

Definition rconn_is_connected (r : rconn) : bool := is_connected_state (state r).

Definition rconn_is_alive (r : rconn) : bool := negb (state_eqb (state r) S_VOID).

Definition rconn_is_admitted (r : rconn) : bool :=
  rconn_is_connected r && (last_admitted r >=? last_connected r).

Definition elapsed_in_this_state (now : Z) (r : rconn) : Z :=
  to_uint (to_time (now - state_entered r)).

Definition timeout_VOID (r : rconn) : Z := UINT_MAX.
Definition timeout_BACKOFF (r : rconn) : Z := to_uint (backoff r).
Definition timeout_CONNECTING (r : rconn) : Z := to_uint (MAX 1 (backoff r)).
Definition timeout_ACTIVE (r : rconn) : Z :=
  if negb (probe_interval r =? 0) then
    let base := to_uint (MAX (last_received r) (state_entered r)) in
    let arg :=
      to_uint (to_time (to_uint (base + to_uint (probe_interval r)) - state_entered r)) in
    arg
  else UINT_MAX.
Definition timeout_IDLE (r : rconn) : Z := to_uint (probe_interval r).

Definition timeout (r : rconn) : Z :=
  match state r with
  | S_VOID => timeout_VOID r
  | S_BACKOFF => timeout_BACKOFF r
  | S_CONNECTING => timeout_CONNECTING r
  | S_ACTIVE => timeout_ACTIVE r
  | S_IDLE => timeout_IDLE r
  end.

Definition timed_out (now : Z) (r : rconn) : bool :=
  now >=? sat_add (to_uint (state_entered r)) (timeout r).

Definition state_transition (now : Z) (s : rstate) (r : rconn) : rconn :=
  let r1 :=
    set_seqno
      (to_uint (seqno r + b2z (xorb (state_eqb (state r) S_ACTIVE) (state_eqb s S_ACTIVE))))
      r in
  let r2 :=
    if is_connected_state s && negb (is_connected_state (state r1))
    then set_probably_admitted false r1 else r1 in
  let r3 :=
    if rconn_is_connected r2
    then set_total_time_connected
           (to_ulong (total_time_connected r2 + elapsed_in_this_state now r2)) r2
    else r2 in
  set_state_entered now (set_state s r3).

Definition question_connectivity (now : Z) (r : rconn) : rconn :=
  if to_time (now - last_questioned r) >? 60
  then set_last_questioned now (set_questionable_connectivity true r)
  else r.

Definition set_vconn_name (nm : string) (r : rconn) : rconn :=
  set_remote_port 0 (set_remote_ip 0 (set_local_ip 0 (set_name nm r))).

Definition rconn_set_max_backoff (now max_backoff : Z) (r : rconn) : rconn :=
  let r1 := set_max_backoff (MAX 1 max_backoff) r in
  if state_eqb (state r1) S_BACKOFF && (backoff r1 >? max_backoff) then
    let r2 := set_backoff max_backoff r1 in
    if backoff_deadline r2 >? to_time (now + max_backoff)
    then set_backoff_deadline (to_time (now + max_backoff)) r2
    else r2
  else r1.

Definition rconn_get_max_backoff (r : rconn) : Z := max_backoff r.

Definition rconn_set_probe_interval (probe_interval : Z) (r : rconn) : rconn :=
  set_probe_interval (if negb (probe_interval =? 0) then MAX 5 probe_interval else 0) r.

Definition rconn_get_probe_interval (r : rconn) : Z := probe_interval r.

Definition rconn_create (now probe_interval max_backoff : Z) : rconn :=
  rconn_set_probe_interval probe_interval
    {| state := S_VOID; state_entered := now;
       vconn := None; name := "void"; reliable := false;
       txq := [];
       backoff := 0;
       max_backoff := if negb (max_backoff =? 0) then max_backoff else 8;
       backoff_deadline := TIME_MIN;
       last_received := now; last_connected := now; packets_sent := 0; seqno := 0;
       probably_admitted := false; last_admitted := now;
       packets_received := 0;
       n_attempted_connections := 0; n_successful_connections := 0;
       creation_time := now; total_time_connected := 0;
       questionable_connectivity := false; last_questioned := now;
       probe_interval := 0;
       local_ip := 0; remote_ip := 0; remote_port := 0;
       monitors := [] |}.

Definition ofp_type (b : ofpbuf) : option Z :=
  (fun x => Z.of_N (Byte.to_N x)) <$> data b !! 1%nat.

Definition pre_admission_mask : Z :=
  Z.lor (Z.shiftl 1 OFPT_HELLO)
 (Z.lor (Z.shiftl 1 OFPT_ERROR)
 (Z.lor (Z.shiftl 1 OFPT_ECHO_REQUEST)
 (Z.lor (Z.shiftl 1 OFPT_ECHO_REPLY)
 (Z.lor (Z.shiftl 1 OFPT_VENDOR)
 (Z.lor (Z.shiftl 1 OFPT_FEATURES_REQUEST)
 (Z.lor (Z.shiftl 1 OFPT_FEATURES_REPLY)
 (Z.lor (Z.shiftl 1 OFPT_GET_CONFIG_REQUEST)
 (Z.lor (Z.shiftl 1 OFPT_GET_CONFIG_REPLY)
        (Z.shiftl 1 OFPT_SET_CONFIG))))))))).

Definition admitted_type (type : Z) : bool :=
  negb ((type <? 32) && negb (Z.land (Z.shiftl 1 type) pre_admission_mask =? 0)).

Definition is_admitted_msg (b : ofpbuf) : M bool :=
  match ofp_type b with
  | Some type => ret (admitted_type type)
  | None => crash ShortMessage
  end.

(** ** The state machine: effectful parts *)

Definition txq_n (r : rconn) : Z := Z.of_nat (length (txq r)).
Definition n_monitors (r : rconn) : nat := length (monitors r).

(** [report_error] only writes to the log file. *)
Definition report_error (error : Z) : M unit := ret tt.

(** The body of the [while (rc->txq.n > 0)] loop of [flush_queue]; the loop
    runs once per queued buffer, which bounds [fuel]. *)
Fixpoint flush_loop (fuel : nat) : M unit :=
  r <- get;;
  match txq r with
  | [] => ret tt
  | b :: rest =>
      match fuel with
      | O => crash OutOfFuel
      | S fuel' =>
          modify (set_txq rest);;
          counter_dec_opt (private_p b);;
          ofpbuf_delete (Some b);;
          flush_loop fuel'
      end
  end.

Definition flush_queue : M unit :=
  r <- get;;
  if txq_n r =? 0 then ret tt
  else flush_loop (length (txq r));; poll_immediate_wake.

Definition rconn_disconnect : M unit :=
  r <- get;;
  if negb (state_eqb (state r) S_VOID) then
    match vconn r with
    | Some v => vconn_close (Some v);; modify (set_vconn None)
    | None => ret tt
    end;;
    modify (set_vconn_name "void");;
    modify (set_reliable false);;
    modify (set_backoff 0);;
    modify (set_backoff_deadline TIME_MIN);;
    now <- time_now;;
    modify (state_transition now S_VOID)
  else ret tt.

(** [x * y] on [int].  The product of two [int]s that [int] cannot hold is
    undefined behaviour in C: no result is modelled for it. *)
Definition int_mul (x y : Z) : M Z :=
  if (INT_MIN <=? x * y) && (x * y <=? INT_MAX) then ret (x * y)
  else crash SignedOverflow.

Definition disconnect (error : Z) : M unit :=
  r <- get;;
  if reliable r then
    now <- time_now;;
    when (state_in (state r) open_mask)
      (vconn_close (vconn r);; modify (set_vconn None);; flush_queue);;
    r <- get;;
    (if now >=? backoff_deadline r then modify (set_backoff 1)
     else
       doubled <- int_mul 2 (backoff r);;
       modify (set_backoff (MIN (max_backoff r) (MAX 1 doubled))));;
    modify (fun r => set_backoff_deadline (to_time (now + backoff r)) r);;
    modify (state_transition now S_BACKOFF);;
    r' <- get;;
    when (to_time (now - last_connected r') >? 60) (modify (question_connectivity now))
  else rconn_disconnect.

Definition try_send : M Z :=
  r <- get;;
  match txq r with
  | [] => crash NullBuffer
  | head :: next =>
      let counter := private_p head in
      retval <- vconn_send (vconn r) head;;
      if negb (retval =? 0) then
        when (negb (retval =? EAGAIN)) (report_error retval;; disconnect retval);;
        ret retval
      else
        modify (fun r => set_packets_sent (to_uint (packets_sent r + 1)) r);;
        counter_dec_opt counter;;
        modify (set_txq next);;
        ret 0
  end.

(** The [while (rc->txq.n > 0)] loop of [do_tx_work]; every iteration that
    does not leave the loop takes one buffer off the queue. *)
Fixpoint tx_loop (fuel : nat) : M unit :=
  r <- get;;
  if txq_n r >? 0 then
    match fuel with
    | O => crash OutOfFuel
    | S fuel' =>
        error <- try_send;;
        if negb (error =? 0) then ret tt else tx_loop fuel'
    end
  else ret tt.

Definition do_tx_work : M unit :=
  r <- get;;
  if txq_n r =? 0 then ret tt
  else
    tx_loop (length (txq r));;
    r' <- get;;
    when (txq_n r' =? 0) poll_immediate_wake.

(** [rc->monitors[i] = rc->monitors[--rc->n_monitors]] *)
Definition drop_monitor (i : nat) (ms : list vconn_t) : list vconn_t :=
  let last := (length ms - 1)%nat in
  match ms !! last with
  | Some v => take last (<[i := v]> ms)
  | None => ms
  end.

(** The [for] loop of [copy_to_monitor]; an iteration either advances [i] or
    removes a monitor. *)
Fixpoint monitor_loop (fuel : nat) (b : ofpbuf) (i : nat) (clone : option ofpbuf)
  : M (option ofpbuf) :=
  r <- get;;
  match monitors r !! i with
  | None => ret clone
  | Some v =>
      match fuel with
      | O => crash OutOfFuel
      | S fuel' =>
          c <- match clone with
               | Some c => ret c
               | None => ofpbuf_clone b
               end;;
          retval <- vconn_send (Some v) c;;
          if retval =? 0 then monitor_loop fuel' b (S i) None
          else if negb (retval =? EAGAIN) then
            modify (fun r => set_monitors (drop_monitor i (monitors r)) r);;
            monitor_loop fuel' b i (Some c)
          else monitor_loop fuel' b (S i) (Some c)
      end
  end.

Definition copy_to_monitor (b : ofpbuf) : M unit :=
  r <- get;;
  clone <- monitor_loop (n_monitors r) b 0%nat None;;
  ofpbuf_delete clone.

Definition rconn_send (b : ofpbuf) (counter : option nat) : M Z :=
  r <- get;;
  if rconn_is_connected r then
    copy_to_monitor b;;
    let b' := {| data := data b; private_p := counter |} in
    match counter with
    | Some c => rconn_packet_counter_inc c
    | None => ret tt
    end;;
    modify (fun r => set_txq (txq r ++ [b']) r);;
    r' <- get;;
    when (txq_n r' =? 1) (_ <- try_send;; ret tt);;
    ret 0
  else ret ENOTCONN.

Definition rconn_send_with_limit (b : ofpbuf) (counter : option nat) (queue_limit : Z)
  : M Z :=
  match counter with
  | None => crash NullCounter
  | Some c =>
      pc <- counter_load c;;
      retval <- (if n pc >=? queue_limit then ret EAGAIN else rconn_send b counter);;
      when (negb (retval =? 0)) (ofpbuf_delete (Some b));;
      ret retval
  end.

Definition rconn_recv : M (option ofpbuf) :=
  r <- get;;
  if state_in (state r) connected_mask then
    res <- vconn_recv (vconn r);;
    let error := fst res in
    let buffer := snd res in
    if error =? 0 then
      copy_to_monitor buffer;;
      now <- time_now;;
      r1 <- get;;
      admitted <-
        (if probably_admitted r1 then ret true
         else a <- is_admitted_msg buffer;;
              if a then ret true else ret (to_time (now - last_connected r1) >=? 30));;
      when admitted (modify (fun r => set_last_admitted now (set_probably_admitted true r)));;
      modify (set_last_received now);;
      modify (fun r => set_packets_received (to_uint (packets_received r + 1)) r);;
      r2 <- get;;
      when (state_eqb (state r2) S_IDLE) (modify (state_transition now S_ACTIVE));;
      ret (Some buffer)
    else
      when (negb (error =? EAGAIN)) (report_error error;; disconnect error);;
      ret None
  else ret None.

Definition reconnect : M Z :=
  modify (fun r => set_n_attempted_connections (to_uint (n_attempted_connections r + 1)) r);;
  r <- get;;
  res <- vconn_open (name r);;
  let retval := fst res in
  modify (set_vconn (snd res));;
  if retval =? 0 then
    match snd res with
    | None => crash NullVconn
    | Some v =>
        modify (set_remote_ip (v_remote_ip v));;
        modify (set_local_ip (v_local_ip v));;
        modify (set_remote_port (v_remote_port v));;
        now <- time_now;;
        modify (fun r => set_backoff_deadline (to_time (now + backoff r)) r);;
        modify (state_transition now S_CONNECTING);;
        ret retval
    end
  else
    modify (set_backoff_deadline TIME_MAX);;
    disconnect 0;;
    ret retval.

Definition run_VOID : M unit := ret tt.

Definition run_BACKOFF : M unit :=
  now <- time_now;;
  r <- get;;
  when (timed_out now r) (_ <- reconnect;; ret tt).

Definition run_CONNECTING : M unit :=
  r <- get;;
  retval <- vconn_connect (vconn r);;
  now <- time_now;;
  if retval =? 0 then
    modify (fun r =>
      set_n_successful_connections (to_uint (n_successful_connections r + 1)) r);;
    modify (state_transition now S_ACTIVE);;
    modify (fun r => set_last_connected (state_entered r) r)
  else if negb (retval =? EAGAIN) then disconnect retval
  else
    r' <- get;;
    when (timed_out now r')
      (modify (set_backoff_deadline TIME_MAX);; disconnect 0).

Definition run_ACTIVE : M unit :=
  now <- time_now;;
  r <- get;;
  if timed_out now r then
    modify (state_transition now S_IDLE);;
    _ <- rconn_send make_echo_request None;;
    ret tt
  else do_tx_work.

Definition run_IDLE : M unit :=
  now <- time_now;;
  r <- get;;
  if timed_out now r then
    modify (question_connectivity now);;
    disconnect 0
  else do_tx_work.

Definition run_state (s : rstate) : M unit :=
  match s with
  | S_VOID => run_VOID
  | S_BACKOFF => run_BACKOFF
  | S_CONNECTING => run_CONNECTING
  | S_ACTIVE => run_ACTIVE
  | S_IDLE => run_IDLE
  end.

(** [rconn_run]: the [do ... while (rc->state != old_state)] loop, with a
    bound on the number of iterations. *)
Fixpoint rconn_run (fuel : nat) : M unit :=
  match fuel with
  | O => crash OutOfFuel
  | S fuel' =>
      r <- get;;
      let old_state := state r in
      run_state old_state;;
      r' <- get;;
      if negb (state_eqb (state r') old_state) then rconn_run fuel' else ret tt
  end.

Definition rconn_connect (nm : string) : M Z :=
  rconn_disconnect;;
  modify (set_vconn_name nm);;
  modify (set_reliable true);;
  reconnect.

Definition rconn_connect_unreliably (nm : string) (v : vconn_t) : M unit :=
  rconn_disconnect;;
  modify (set_vconn_name nm);;
  modify (set_reliable false);;
  modify (set_vconn (Some v));;
  now <- time_now;;
  modify (set_last_connected now);;
  modify (state_transition now S_ACTIVE).

(** [rconn_new] and [rconn_new_from_vconn] allocate the rconn they return;
    in the model the new rconn takes the place of the world's rconn. *)
Definition rconn_new (nm : string) (inactivity_probe_interval max_backoff : Z) : M unit :=
  now <- time_now;;
  modify (fun _ => rconn_create now inactivity_probe_interval max_backoff);;
  _ <- rconn_connect nm;;
  ret tt.

Definition rconn_new_from_vconn (nm : string) (v : vconn_t) : M unit :=
  now <- time_now;;
  modify (fun _ => rconn_create now 60 0);;
  rconn_connect_unreliably nm v.

Definition rconn_reconnect : M unit :=
  r <- get;;
  when (state_in (state r) connected_mask) (disconnect 0).

Definition rconn_add_monitor (v : vconn_t) : M unit :=
  r <- get;;
  if (n_monitors r <? MAX_MONITORS)%nat
  then modify (fun r => set_monitors (monitors r ++ [v]) r)
  else vconn_close (Some v).

Definition rconn_is_connectivity_questionable : M bool :=
  r <- get;;
  modify (set_questionable_connectivity false);;
  ret (questionable_connectivity r).

Definition rconn_failure_duration (now : Z) (r : rconn) : Z :=
  if rconn_is_admitted r then 0 else to_int (to_time (now - last_admitted r)).

Definition rconn_get_total_time_connected (now : Z) (r : rconn) : Z :=
  to_ulong (total_time_connected r
            + (if rconn_is_connected r then elapsed_in_this_state now r else 0)).

Definition rconn_get_state_elapsed (now : Z) (r : rconn) : Z := elapsed_in_this_state now r.

(** Modelled from the spec: the wake-up requests of poll-loop.h and vconn.h,
    which are not part of the sources at hand.  [poll_timer_wait] asks to be
    woken after a number of milliseconds and [vconn_wait] when the transport
    can connect, receive or send; both only register the request, so the
    functions that make them are modelled as returning the requests they
    made, in order. *)
Inductive vconn_wait_type : Type := WAIT_CONNECT | WAIT_RECV | WAIT_SEND.

Inductive request : Type :=
  | TimerWait (msec : Z)
  | VconnWait (v : vconn_t) (what : vconn_wait_type).

Definition poll_timer_wait (msec : Z) : M request := ret (TimerWait msec).

Definition vconn_wait (vc : option vconn_t) (what : vconn_wait_type) : M request :=
  match vc with
  | None => crash NullVconn
  | Some v => ret (VconnWait v what)
  end.

Definition rconn_run_wait : M (list request) :=
  r <- get;;
  now <- time_now;;
  let timeo := timeout r in
  timer <-
    (if negb (timeo =? UINT_MAX) then
       let expires := sat_add (to_uint (state_entered r)) timeo in
       let remaining := sat_sub expires (to_uint now) in
       q <- poll_timer_wait (sat_mul remaining 1000);;
       ret [q]
     else ret []);;
  if state_in (state r) connected_mask && negb (txq_n r =? 0) then
    q <- vconn_wait (vconn r) WAIT_SEND;;
    ret (timer ++ [q])
  else ret timer.

Definition rconn_recv_wait : M (list request) :=
  r <- get;;
  match vconn r with
  | Some v => q <- vconn_wait (Some v) WAIT_RECV;; ret [q]
  | None => ret []
  end.

(** The [for] loop of [rconn_destroy] over the monitors. *)
Fixpoint close_monitors (ms : list vconn_t) : M unit :=
  match ms with
  | [] => ret tt
  | v :: rest => vconn_close (Some v);; close_monitors rest
  end.

(** [rconn_destroy] on a non-null rconn.  The release of the storage is
    outside the model: the rconn must not be used afterwards. *)
Definition rconn_destroy : M unit :=
  r <- get;;
  vconn_close (vconn r);;
  flush_queue;;
  r' <- get;;
  close_monitors (monitors r').

(** * Properties *)

(** ** Arithmetic of the embedding *)

Lemma MIN_min (x y : Z) : MIN x y = Z.min x y.
Proof. unfold MIN. destruct (Z.ltb_spec x y); lia. Qed.

Lemma MAX_max (x y : Z) : MAX x y = Z.max x y.
Proof. unfold MAX. rewrite Z.gtb_ltb. destruct (Z.ltb_spec y x); lia. Qed.

Lemma to_int_exact (z : Z) : int_ok z -> to_int z = z.
Proof.
  unfold int_ok, INT_MIN, INT_MAX, to_int, wrap_signed. intros H.
  rewrite Z.mod_small; lia.
Qed.

Lemma to_time_exact (z : Z) : time_ok z -> to_time z = z.
Proof.
  unfold time_ok, TIME_MIN, TIME_MAX, to_time, wrap_signed. intros H.
  rewrite Z.mod_small; lia.
Qed.

Lemma to_uint_exact (z : Z) : uint_ok z -> to_uint z = z.
Proof.
  unfold uint_ok, UINT_MAX, to_uint. intros H. rewrite Z.mod_small; lia.
Qed.

Lemma to_uint_range (z : Z) : uint_ok (to_uint z).
Proof.
  unfold uint_ok, UINT_MAX, to_uint.
  pose proof (Z.mod_pos_bound z (2 ^ 32)). lia.
Qed.

Lemma to_uint_odd (z : Z) : Z.odd (to_uint z) = Z.odd z.
Proof.
  unfold to_uint.
  rewrite (Z.div_mod z (2 ^ 32)) at 2 by lia.
  replace (2 ^ 32 * (z `div` 2 ^ 32) + z `mod` 2 ^ 32)
    with (z `mod` 2 ^ 32 + 2 * (2 ^ 31 * (z `div` 2 ^ 32))) by lia.
  now rewrite Z.odd_add_mul_2.
Qed.

Lemma sat_add_ge (x y : Z) : uint_ok x -> uint_ok y -> x <= sat_add x y.
Proof.
  unfold sat_add, uint_ok. intros Hx Hy.
  destruct (Z.geb_spec (to_uint (x + y)) x); lia.
Qed.

Lemma sat_add_max (x : Z) : uint_ok x -> sat_add x UINT_MAX = UINT_MAX.
Proof.
  unfold sat_add, uint_ok, UINT_MAX, to_uint. intros Hx.
  destruct (Z.eq_dec x 0) as [-> | Hne]; [reflexivity |].
  replace ((x + (2 ^ 32 - 1)) `mod` 2 ^ 32) with (x - 1).
  - destruct (Z.geb_spec (x - 1) x); lia.
  - apply Z.mod_unique_pos with (q := 1); lia.
Qed.

(** ** States *)

Lemma state_eqb_eq (a b : rstate) : state_eqb a b = true <-> a = b.
Proof. unfold state_eqb. apply bool_decide_eq_true. Qed.

Lemma is_connected_state_spec (s : rstate) :
  is_connected_state s = true <-> s = S_ACTIVE \/ s = S_IDLE.
Proof. destruct s; vm_compute; intuition congruence. Qed.

Lemma open_mask_spec (s : rstate) :
  state_in s open_mask = true <-> s = S_CONNECTING \/ s = S_ACTIVE \/ s = S_IDLE.
Proof. destruct s; vm_compute; intuition congruence. Qed.

(** One endpoint of the transition is ACTIVE and the other is not. *)
Definition crosses_active (a b : rstate) : Prop :=
  (a = S_ACTIVE /\ b <> S_ACTIVE) \/ (a <> S_ACTIVE /\ b = S_ACTIVE).


#[global] Instance crosses_active_dec (a b : rstate) : Decision (crosses_active a b).
Proof. unfold crosses_active. apply _. Defined.

Lemma state_transition_state (now : Z) (s : rstate) (r : rconn) :
  state (state_transition now s r) = s.
Proof. reflexivity. Qed.

Lemma state_transition_state_entered (now : Z) (s : rstate) (r : rconn) :
  state_entered (state_transition now s r) = now.
Proof. reflexivity. Qed.

Lemma state_transition_seqno (now : Z) (s : rstate) (r : rconn) :
  seqno (state_transition now s r)
  = to_uint (seqno r + b2z (xorb (state_eqb (state r) S_ACTIVE) (state_eqb s S_ACTIVE))).
Proof.
  unfold state_transition, rconn_is_connected. simpl.
  repeat match goal with |- context [if ?c then _ else _] => destruct c; simpl end;
    reflexivity.
Qed.





(** ** Running the monad *)

Lemma bind_Ok {A B : Type} (m : M A) (k : A -> M B) (w w' : world) (a : A) :
  m w = Ok a w' -> bind m k w = k a w'.
Proof. unfold bind. now intros ->. Qed.

Lemma bind_Crash {A B : Type} (m : M A) (k : A -> M B) (w : world) (f : fault) :
  m w = Crash f -> bind m k w = Crash f.
Proof. unfold bind. now intros ->. Qed.

Lemma bind_inv {A B : Type} (m : M A) (k : A -> M B) (w w2 : world) (b : B) :
  bind m k w = Ok b w2 -> exists a w1, m w = Ok a w1 /\ k a w1 = Ok b w2.
Proof. unfold bind. destruct (m w) as [a w1 | f]; [eauto | discriminate]. Qed.

Lemma set_txq_same (r : rconn) : set_txq (txq r) r = r.
Proof. now destruct r. Qed.

Lemma with_rc_same (w : world) : with_rc (rc w) w = w.
Proof. now destruct w. Qed.

(** ** Packet counters charged by the send queue *)

(** The number of buffers of [q] charged to counter [c]. *)
Definition charged (c : nat) (q : list ofpbuf) : nat :=
  length (filter (fun b => private_p b = Some c) q).

(** Every counter that a queued buffer is charged to is alive and counts at
    least the buffers queued against it.  This is what [rconn_send] sets up
    and what [rconn_packet_counter_dec] asserts. *)
Definition charges_ok (cs : gmap nat rconn_packet_counter) (q : list ofpbuf) : Prop :=
  forall c, (0 < charged c q)%nat ->
    exists pc, cs !! c = Some pc /\ Z.of_nat (charged c q) <= n pc <= INT_MAX.

Lemma charges_ok_nil (cs : gmap nat rconn_packet_counter) : charges_ok cs [].
Proof. intros c H. unfold charged in H. rewrite filter_nil in H. simpl in H. lia. Qed.

Lemma charged_cons (c : nat) (b : ofpbuf) (q : list ofpbuf) :
  charged c (b :: q)
  = ((if decide (private_p b = Some c) then 1 else 0) + charged c q)%nat.
Proof.
  unfold charged. rewrite filter_cons. destruct (decide (private_p b = Some c)); reflexivity.
Qed.

Lemma rconn_packet_counter_dec_ok (w : world) (c : nat) (pc : rconn_packet_counter) :
  counters w !! c = Some pc -> 0 < n pc <= INT_MAX ->
  exists cs,
    rconn_packet_counter_dec c w = Ok tt (with_counters cs w)
    /\ (forall c', c' <> c -> cs !! c' = counters w !! c')
    /\ (cs !! c = Some {| n := n pc - 1; ref_cnt := ref_cnt pc |}
        \/ cs !! c = None /\ n pc = 1).
Proof.
  intros Hc Hn.
  unfold rconn_packet_counter_dec, bind, counter_load. rewrite Hc.
  destruct (Z.gtb_spec (n pc) 0) as [_ | ?]; [| lia].
  rewrite to_int_exact by (unfold int_ok, INT_MIN, INT_MAX in *; lia).
  unfold counter_store, when. simpl.
  destruct ((n pc - 1 =? 0) && (ref_cnt pc =? 0)) eqn:Hfree.
  - eexists. split; [reflexivity |]. simpl. split.
    + intros c' Hne. rewrite lookup_delete_ne, lookup_insert_ne; auto.
    + right. split; [apply lookup_delete_eq |].
      apply andb_true_iff in Hfree. lia.
  - eexists. split; [reflexivity |]. simpl. split.
    + intros c' Hne. rewrite lookup_insert_ne; auto.
    + left. apply lookup_insert_eq.
Qed.

Lemma charges_ok_dec (cs cs' : gmap nat rconn_packet_counter) (b : ofpbuf)
    (q : list ofpbuf) (c : nat) (pc : rconn_packet_counter) :
  charges_ok cs (b :: q) -> private_p b = Some c -> cs !! c = Some pc ->
  (forall c', c' <> c -> cs' !! c' = cs !! c') ->
  (cs' !! c = Some {| n := n pc - 1; ref_cnt := ref_cnt pc |}
   \/ cs' !! c = None /\ n pc = 1) ->
  charges_ok cs' q.
Proof.
  intros Hok Hb Hc Hother Hsame c' Hpos.
  destruct (Hok c') as (pc' & Hpc' & Hle).
  { rewrite charged_cons. lia. }
  rewrite charged_cons in Hle.
  destruct (decide (c' = c)) as [-> | Hne].
  - rewrite decide_True in Hle by assumption.
    assert (pc' = pc) by congruence. subst pc'.
    destruct Hsame as [Hs | [_ H1]].
    + eexists. split; [exact Hs |]. simpl. lia.
    + lia.
  - rewrite decide_False in Hle by congruence.
    exists pc'. rewrite Hother by assumption. split; [assumption | lia].
Qed.

Lemma charges_ok_tail (cs : gmap nat rconn_packet_counter) (b : ofpbuf) (q : list ofpbuf) :
  charges_ok cs (b :: q) -> private_p b = None -> charges_ok cs q.
Proof.
  intros Hok Hb c Hpos. destruct (Hok c) as (pc & Hpc & Hle).
  { rewrite charged_cons. lia. }
  rewrite charged_cons, decide_False in Hle by congruence.
  exists pc. split; [assumption | lia].
Qed.

(** What a call leaves alone outside the rconn and the counters. *)
Definition same_peer (w w' : world) : Prop :=
  clock w' = clock w /\ peer w' = peer w /\ calls w' = calls w.

Lemma flush_loop_ok (fuel : nat) :
  forall w, (length (txq (rc w)) <= fuel)%nat ->
  charges_ok (counters w) (txq (rc w)) ->
  exists w', flush_loop fuel w = Ok tt w'
    /\ rc w' = set_txq [] (rc w) /\ same_peer w w'.
Proof.
  unfold same_peer.
  induction fuel as [| fuel IH]; intros w Hlen Hok.
  - destruct (txq (rc w)) eqn:Hq; [| simpl in Hlen; lia].
    exists w. simpl. unfold bind, get. rewrite Hq.
    rewrite <- Hq, set_txq_same. auto.
  - simpl. unfold bind at 1. unfold get at 1.
    destruct (txq (rc w)) as [| b rest] eqn:Hq.
    + exists w. rewrite <- Hq, set_txq_same. auto.
    + unfold bind at 1. unfold modify at 1.
      set (w1 := with_rc (set_txq rest (rc w)) w).
      assert (Hdec : exists w2, counter_dec_opt (private_p b) w1 = Ok tt w2
                /\ rc w2 = rc w1 /\ same_peer w1 w2 /\ log w2 = log w1
                /\ charges_ok (counters w2) rest).
      { unfold same_peer. destruct (private_p b) as [c |] eqn:Hb; simpl.
        - destruct (Hok c) as (pc & Hpc & Hle).
          { rewrite charged_cons, decide_True by assumption. lia. }
          rewrite charged_cons, decide_True in Hle by assumption.
          destruct (rconn_packet_counter_dec_ok w1 c pc Hpc ltac:(lia))
            as (cs & Hrun & Hother & Hsame).
          exists (with_counters cs w1). repeat split; auto.
          eapply charges_ok_dec; eauto.
        - exists w1. repeat split; auto. eapply charges_ok_tail; eauto. }
      destruct Hdec as (w2 & Hrun & Hrc & (Hck & Hp & Hcl) & Hlog & Hok2).
      rewrite (bind_Ok _ _ _ _ _ Hrun).
      unfold bind at 1. simpl ofpbuf_delete. unfold emit at 1.
      destruct (IH (with_log (EvDelete b :: log w2) w2)) as (w3 & Hrun3 & Hrc3 & H3).
      { simpl. rewrite Hrc. simpl. simpl in Hlen. lia. }
      { simpl. rewrite Hrc. exact Hok2. }
      exists w3. split; [exact Hrun3 |].
      simpl in Hrc3, H3. rewrite Hrc3, Hrc. simpl.
      split; [reflexivity |]. simpl in Hck, Hp, Hcl.
      destruct H3 as (? & ? & ?). repeat split; congruence.
Qed.

Lemma flush_queue_ok (w : world) :
  charges_ok (counters w) (txq (rc w)) ->
  exists w', flush_queue w = Ok tt w'
    /\ rc w' = set_txq [] (rc w) /\ same_peer w w'.
Proof.
  intros Hok. unfold flush_queue, bind at 1, get at 1, txq_n.
  destruct (txq (rc w)) as [| b rest] eqn:Hq.
  - exists w. simpl. rewrite <- Hq, set_txq_same. unfold same_peer. auto.
  - replace (Z.of_nat (length (b :: rest)) =? 0) with false
      by (symmetry; apply Z.eqb_neq; simpl length; lia).
    destruct (flush_loop_ok (length (b :: rest)) w) as (w1 & Hrun & Hrc & Hs).
    { rewrite Hq. lia. }
    { rewrite Hq. exact Hok. }
    rewrite (bind_Ok _ _ _ _ _ Hrun). unfold poll_immediate_wake, emit.
    eexists. split; [reflexivity |]. simpl. unfold same_peer in *. simpl. tauto.
Qed.

(** ** disconnect *)

(** The assignments [disconnect] makes on a reliable rconn once the transport
    is closed and the queue is flushed, where [int] holds the double of the
    backoff that it computes; where not, [disconnect] has no result. *)
Definition backoff_update (now : Z) (r : rconn) : rconn :=
  let r1 :=
    if now >=? backoff_deadline r then set_backoff 1 r
    else set_backoff (MIN (max_backoff r) (MAX 1 (2 * backoff r))) r in
  let r2 := set_backoff_deadline (to_time (now + backoff r1)) r1 in
  let r3 := state_transition now S_BACKOFF r2 in
  if to_time (now - last_connected r3) >? 60 then question_connectivity now r3 else r3.

(** The rconn once [disconnect] has closed the transport and flushed. *)
Definition closed (r : rconn) : rconn :=
  if state_in (state r) open_mask then set_txq [] (set_vconn None r) else r.

(** [disconnect] at time [now] has a defined new backoff: the backoff is
    reset, or [int] holds its double. *)
Definition doubling_defined (now : Z) (r : rconn) : Prop :=
  backoff_deadline r <= now \/ int_ok (2 * backoff r).

Definition doubling_definedb (now : Z) (r : rconn) : bool :=
  (now >=? backoff_deadline r)
  || ((INT_MIN <=? 2 * backoff r) && (2 * backoff r <=? INT_MAX)).

Lemma doubling_defined_spec (now : Z) (r : rconn) :
  doubling_definedb now r = true <-> doubling_defined now r.
Proof.
  unfold doubling_definedb, doubling_defined, int_ok.
  rewrite orb_true_iff, andb_true_iff, Z.geb_leb, !Z.leb_le. tauto.
Qed.

Lemma int_mul_exact (x y : Z) (w : world) : int_ok (x * y) -> int_mul x y w = Ok (x * y) w.
Proof.
  unfold int_ok, int_mul. intros [H1 H2].
  apply Z.leb_le in H1, H2. now rewrite H1, H2.
Qed.

Lemma int_mul_overflow (x y : Z) (w : world) :
  ~ int_ok (x * y) -> int_mul x y w = Crash SignedOverflow.
Proof.
  unfold int_ok, int_mul. intros H.
  destruct (Z.leb_spec INT_MIN (x * y)), (Z.leb_spec (x * y) INT_MAX); try reflexivity. lia.
Qed.

(** On a reliable rconn [disconnect] returns, unless it doubles a backoff
    whose double [int] does not hold. *)
Lemma disconnect_outcome (error : Z) (w : world) :
  reliable (rc w) = true ->
  charges_ok (counters w) (txq (rc w)) ->
  exists w1,
    disconnect error w
    = (if doubling_definedb (clock w) (rc w)
       then Ok tt (with_rc (backoff_update (clock w) (rc w1)) w1)
       else Crash SignedOverflow)
    /\ rc w1 = closed (rc w) /\ same_peer w w1.
Proof.
  intros Hrel Hok.
  unfold disconnect, bind at 1, get at 1. rewrite Hrel.
  unfold bind at 1, time_now at 1. unfold closed.
  assert (Hclose : exists w1,
    when (state_in (state (rc w)) open_mask)
      (vconn_close (vconn (rc w));; modify (set_vconn None);; flush_queue) w = Ok tt w1
    /\ rc w1 = (if state_in (state (rc w)) open_mask
                then set_txq [] (set_vconn None (rc w)) else rc w)
    /\ same_peer w w1).
  { destruct (state_in (state (rc w)) open_mask); simpl when.
    - assert (Hc : exists w0, vconn_close (vconn (rc w)) w = Ok tt w0
                /\ rc w0 = rc w /\ counters w0 = counters w /\ same_peer w w0).
      { unfold same_peer. destruct (vconn (rc w)); simpl; eexists; split;
          try reflexivity; simpl; auto. }
      destruct Hc as (w0 & Hrun0 & Hrc0 & Hcs0 & Hs0).
      rewrite (bind_Ok _ _ _ _ _ Hrun0). unfold bind at 1, modify at 1.
      destruct (flush_queue_ok (with_rc (set_vconn None (rc w0)) w0))
        as (w1 & Hrun1 & Hrc1 & Hs1).
      { simpl. rewrite Hcs0, Hrc0. exact Hok. }
      exists w1. split; [exact Hrun1 |]. simpl in Hrc1. rewrite Hrc1, Hrc0.
      split; [reflexivity |]. unfold same_peer in *. simpl in Hs1.
      destruct Hs0 as (? & ? & ?), Hs1 as (? & ? & ?). repeat split; congruence.
    - exists w. unfold ret, same_peer. auto. }
  destruct Hclose as (w1 & Hrun & Hrc & Hs).
  rewrite (bind_Ok _ _ _ _ _ Hrun).
  exists w1. split; [| split; assumption].
  assert (Hb : backoff (rc w1) = backoff (rc w)
               /\ backoff_deadline (rc w1) = backoff_deadline (rc w))
    by (rewrite Hrc; destruct (state_in _ _); auto).
  destruct Hb as [Hb Hd].
  unfold doubling_definedb, bind at 1, get at 1. rewrite <- Hb, <- Hd.
  unfold backoff_update. cbv zeta.
  destruct (clock w >=? backoff_deadline (rc w1)); cbn [orb].
  - unfold bind, modify, get, when, ret.
    cbn [rc counters clock peer calls log with_rc].
    destruct (to_time _ >? 60); reflexivity.
  - unfold bind at 1 2, int_mul.
    destruct ((INT_MIN <=? 2 * backoff (rc w1)) && (2 * backoff (rc w1) <=? INT_MAX));
      [| reflexivity].
    unfold bind, modify, get, when, ret.
    cbn [rc counters clock peer calls log with_rc].
    destruct (to_time _ >? 60); reflexivity.
Qed.

Lemma disconnect_reliable (error : Z) (w : world) :
  reliable (rc w) = true ->
  charges_ok (counters w) (txq (rc w)) ->
  doubling_defined (clock w) (rc w) ->
  exists w1,
    disconnect error w = Ok tt (with_rc (backoff_update (clock w) (rc w1)) w1)
    /\ rc w1 = closed (rc w) /\ same_peer w w1.
Proof.
  intros Hrel Hok Hdef.
  destruct (disconnect_outcome error w Hrel Hok) as (w1 & Hrun & H).
  apply doubling_defined_spec in Hdef. rewrite Hdef in Hrun. eauto.
Qed.

Ltac case_ifs :=
  repeat match goal with
         | |- context [if ?c then _ else _] => destruct c eqn:?
         end.

Ltac frame_state_transition :=
  unfold state_transition, rconn_is_connected; cbn; case_ifs; reflexivity.

Lemma state_transition_backoff now s r :
  backoff (state_transition now s r) = backoff r.
Proof. frame_state_transition. Qed.
Lemma state_transition_max_backoff now s r :
  max_backoff (state_transition now s r) = max_backoff r.
Proof. frame_state_transition. Qed.
Lemma state_transition_backoff_deadline now s r :
  backoff_deadline (state_transition now s r) = backoff_deadline r.
Proof. frame_state_transition. Qed.
Lemma state_transition_reliable now s r :
  reliable (state_transition now s r) = reliable r.
Proof. frame_state_transition. Qed.
Lemma state_transition_vconn now s r :
  vconn (state_transition now s r) = vconn r.
Proof. frame_state_transition. Qed.
Lemma state_transition_txq now s r :
  txq (state_transition now s r) = txq r.
Proof. frame_state_transition. Qed.
Lemma state_transition_last_connected now s r :
  last_connected (state_transition now s r) = last_connected r.
Proof. frame_state_transition. Qed.
Lemma state_transition_last_admitted now s r :
  last_admitted (state_transition now s r) = last_admitted r.
Proof. frame_state_transition. Qed.
Lemma state_transition_addresses now s r :
  local_ip (state_transition now s r) = local_ip r
  /\ remote_ip (state_transition now s r) = remote_ip r
  /\ remote_port (state_transition now s r) = remote_port r.
Proof. repeat split; frame_state_transition. Qed.
Lemma state_transition_probe_interval now s r :
  probe_interval (state_transition now s r) = probe_interval r.
Proof. frame_state_transition. Qed.
Lemma state_transition_monitors now s r :
  monitors (state_transition now s r) = monitors r.
Proof. frame_state_transition. Qed.

Lemma state_transition_probably_admitted now s r :
  probably_admitted (state_transition now s r)
  = if is_connected_state s && negb (is_connected_state (state r))
    then false else probably_admitted r.
Proof.
  unfold state_transition, rconn_is_connected. cbn. case_ifs; reflexivity.
Qed.

#[global] Arguments state_transition : simpl never.
#[global] Arguments question_connectivity : simpl never.

Ltac frame_question_connectivity :=
  unfold question_connectivity; case_ifs; reflexivity.

Lemma question_connectivity_backoff now r :
  backoff (question_connectivity now r) = backoff r.
Proof. frame_question_connectivity. Qed.
Lemma question_connectivity_backoff_deadline now r :
  backoff_deadline (question_connectivity now r) = backoff_deadline r.
Proof. frame_question_connectivity. Qed.
Lemma question_connectivity_state now r :
  state (question_connectivity now r) = state r.
Proof. frame_question_connectivity. Qed.
Lemma question_connectivity_max_backoff now r :
  max_backoff (question_connectivity now r) = max_backoff r.
Proof. frame_question_connectivity. Qed.
Lemma question_connectivity_reliable now r :
  reliable (question_connectivity now r) = reliable r.
Proof. frame_question_connectivity. Qed.
Lemma question_connectivity_vconn now r :
  vconn (question_connectivity now r) = vconn r.
Proof. frame_question_connectivity. Qed.
Lemma question_connectivity_txq now r :
  txq (question_connectivity now r) = txq r.
Proof. frame_question_connectivity. Qed.
Lemma question_connectivity_probe_interval now r :
  probe_interval (question_connectivity now r) = probe_interval r.
Proof. frame_question_connectivity. Qed.
Lemma question_connectivity_addresses now r :
  local_ip (question_connectivity now r) = local_ip r
  /\ remote_ip (question_connectivity now r) = remote_ip r
  /\ remote_port (question_connectivity now r) = remote_port r.
Proof. repeat split; frame_question_connectivity. Qed.

Lemma backoff_update_backoff now r :
  backoff (backoff_update now r)
  = if now >=? backoff_deadline r then 1
    else MIN (max_backoff r) (MAX 1 (2 * backoff r)).
Proof.
  unfold backoff_update. cbv zeta.
  destruct (to_time _ >? 60);
    rewrite ?question_connectivity_backoff, state_transition_backoff;
    destruct (now >=? backoff_deadline r); reflexivity.
Qed.

Lemma backoff_update_backoff_deadline now r :
  backoff_deadline (backoff_update now r)
  = to_time (now + backoff (backoff_update now r)).
Proof.
  rewrite backoff_update_backoff.
  unfold backoff_update. cbv zeta.
  destruct (to_time _ >? 60);
    rewrite ?question_connectivity_backoff_deadline, state_transition_backoff_deadline;
    destruct (now >=? backoff_deadline r); reflexivity.
Qed.

Lemma backoff_update_state now r : state (backoff_update now r) = S_BACKOFF.
Proof.
  unfold backoff_update. cbv zeta.
  destruct (to_time _ >? 60);
    rewrite ?question_connectivity_state; apply state_transition_state.
Qed.

Lemma closed_backoff_fields r :
  backoff (closed r) = backoff r /\ max_backoff (closed r) = max_backoff r
  /\ backoff_deadline (closed r) = backoff_deadline r.
Proof. unfold closed. destruct (state_in _ _); auto. Qed.

(** X20: the backoff policy where it is defined.  On a reliable rconn whose
    new backoff is defined (the backoff is reset, or [int] holds
    [2 * backoff]), [disconnect] returns and leaves [backoff] at 1 when the
    clock has reached [backoff_deadline] and at
    [min(max_backoff, max(1, 2 * backoff))] otherwise; [backoff_deadline] is
    then [now + backoff] for the new backoff, and the state is BACKOFF. *)
Theorem disconnect_backoff_policy (error : Z) (w : world) :
  reliable (rc w) = true ->
  charges_ok (counters w) (txq (rc w)) ->
  doubling_defined (clock w) (rc w) ->
  exists w', disconnect error w = Ok tt w'
    /\ (clock w >= backoff_deadline (rc w) -> backoff (rc w') = 1)
    /\ (clock w < backoff_deadline (rc w) ->
        backoff (rc w') = Z.min (max_backoff (rc w)) (Z.max 1 (2 * backoff (rc w))))
    /\ (time_ok (clock w + backoff (rc w')) ->
        backoff_deadline (rc w') = clock w + backoff (rc w'))
    /\ state (rc w') = S_BACKOFF.
Proof.
  intros Hrel Hok Hdef.
  destruct (disconnect_reliable error w Hrel Hok Hdef) as (w1 & Hrun & Hrc & _).
  eexists. split; [exact Hrun |]. cbn [rc with_rc].
  rewrite backoff_update_backoff_deadline, backoff_update_state, backoff_update_backoff.
  rewrite Hrc. destruct (closed_backoff_fields (rc w)) as (-> & -> & ->).
  rewrite MIN_min, MAX_max.
  split; [| split; [| split]].
  - intros H. destruct (Z.geb_spec (clock w) (backoff_deadline (rc w))); [reflexivity | lia].
  - intros H. destruct (Z.geb_spec (clock w) (backoff_deadline (rc w))); [lia | reflexivity].
  - intros Ht. now apply to_time_exact.
  - reflexivity.
Qed.

(** ** Sample worlds *)

Definition sample_vconn : vconn_t :=
  {| v_id := 1; v_local_ip := 167772161; v_remote_ip := 167772162; v_remote_port := 6633 |}.

(** A peer whose every answer is the return value [e]. *)
Definition peer_always (e : Z) : nat -> answer :=
  fun _ => {| a_retval := e; a_vconn := sample_vconn; a_buf := make_echo_request |}.

(** A peer that answers from a list, then with [e]. *)
Definition peer_script (l : list Z) (e : Z) : nat -> answer :=
  fun k => {| a_retval := nth k l e; a_vconn := sample_vconn; a_buf := make_echo_request |}.

(** The world right after [rconn_create]. *)
Definition boot (p : nat -> answer) (now probe_interval max_backoff : Z) : world :=
  {| rc := rconn_create now probe_interval max_backoff;
     counters := ∅; clock := now; peer := p; calls := 0; log := [] |}.

(** The outcome of [m], or [w] itself if [m] crashes. *)
Definition after {A : Type} (m : M A) (w : world) : world :=
  match m w with
  | Ok _ w' => w'
  | Crash _ => w
  end.

(** Scenario 1 of the specification: created at time 100 with the default
    maximum backoff, connected to a peer that cannot be opened. *)
Definition w_backoff1 : world :=
  after (rconn_connect "tcp:10.0.0.2") (boot (peer_always 111) 100 0 8).

(** ** Weakest preconditions *)

(** [wp m Q w]: if [m] returns from [w], its result and final world satisfy
    [Q]. *)
Definition wp {A : Type} (m : M A) (Q : A -> world -> Prop) (w : world) : Prop :=
  match m w with
  | Ok a w' => Q a w'
  | Crash _ => True
  end.

Lemma wp_bind {A B : Type} (m : M A) (k : A -> M B) (Q : B -> world -> Prop) (w : world) :
  wp m (fun a w' => wp (k a) Q w') w -> wp (bind m k) Q w.
Proof. unfold wp, bind. destruct (m w); auto. Qed.

Lemma wp_mono {A : Type} (m : M A) (Q Q' : A -> world -> Prop) (w : world) :
  wp m Q w -> (forall a w', Q a w' -> Q' a w') -> wp m Q' w.
Proof. unfold wp. destruct (m w); auto. Qed.

Lemma wp_Ok {A : Type} (m : M A) (Q : A -> world -> Prop) (w w' : world) (a : A) :
  wp m Q w -> m w = Ok a w' -> Q a w'.
Proof. unfold wp. intros H E. now rewrite E in H. Qed.

Lemma wp_when (c : bool) (m : M unit) (Q : unit -> world -> Prop) (w : world) :
  (c = true -> wp m Q w) -> (c = false -> Q tt w) -> wp (when c m) Q w.
Proof. destruct c; intros H1 H2; [apply H1 | apply H2]; reflexivity. Qed.

(** Sequencing with a callee whose specification is known. *)
Lemma wp_call {A B : Type} (m : M A) (k : A -> M B) (R : A -> world -> Prop)
    (Q : B -> world -> Prop) (w : world) :
  wp m R w -> (forall a w', R a w' -> wp (k a) Q w') -> wp (bind m k) Q w.
Proof. intros Hm Hk. apply wp_bind. eapply wp_mono; eauto. Qed.

(** The primitive operations. *)
Section Primitives.
Context {B : Type} (Q : B -> world -> Prop) (w : world).

Lemma wp_ret (b : B) : Q b w -> wp (ret b) Q w.
Proof. exact id. Qed.
Lemma wp_crash (f : fault) : wp (crash f) Q w.
Proof. exact I. Qed.
Lemma wp_ret_bind {A : Type} (a : A) (k : A -> M B) :
  wp (k a) Q w -> wp (bind (ret a) k) Q w.
Proof. exact id. Qed.
Lemma wp_crash_bind {A : Type} (f : fault) (k : A -> M B) :
  wp (bind (crash f) k) Q w.
Proof. exact I. Qed.
Lemma wp_get_bind (k : rconn -> M B) : wp (k (rc w)) Q w -> wp (bind get k) Q w.
Proof. exact id. Qed.
Lemma wp_time_now_bind (k : Z -> M B) :
  wp (k (clock w)) Q w -> wp (bind time_now k) Q w.
Proof. exact id. Qed.
Lemma wp_modify_bind (f : rconn -> rconn) (k : unit -> M B) :
  wp (k tt) Q (with_rc (f (rc w)) w) -> wp (bind (modify f) k) Q w.
Proof. exact id. Qed.
Lemma wp_emit_bind (e : event) (k : unit -> M B) :
  wp (k tt) Q (with_log (e :: log w) w) -> wp (bind (emit e) k) Q w.
Proof. exact id. Qed.
Lemma wp_ask_bind (k : answer -> M B) :
  wp (k (peer w (calls w))) Q (with_calls (S (calls w)) w) -> wp (bind ask k) Q w.
Proof. exact id. Qed.
Lemma wp_counter_store_bind (c : nat) (pc : rconn_packet_counter) (k : unit -> M B) :
  wp (k tt) Q (with_counters (<[c := pc]> (counters w)) w) ->
  wp (bind (counter_store c pc) k) Q w.
Proof. exact id. Qed.
Lemma wp_counter_load_bind (c : nat) (k : rconn_packet_counter -> M B) :
  (forall pc, counters w !! c = Some pc -> wp (k pc) Q w) ->
  wp (bind (counter_load c) k) Q w.
Proof.
  intros H. unfold wp, bind, counter_load.
  destruct (counters w !! c) as [pc |] eqn:E; [apply (H pc eq_refl) | exact I].
Qed.
End Primitives.

Section Terminals.
Context (Q : unit -> world -> Prop) (w : world).

Lemma wp_modify (f : rconn -> rconn) : Q tt (with_rc (f (rc w)) w) -> wp (modify f) Q w.
Proof. exact id. Qed.
Lemma wp_emit (e : event) : Q tt (with_log (e :: log w) w) -> wp (emit e) Q w.
Proof. exact id. Qed.
Lemma wp_counter_store (c : nat) (pc : rconn_packet_counter) :
  Q tt (with_counters (<[c := pc]> (counters w)) w) -> wp (counter_store c pc) Q w.
Proof. exact id. Qed.
Lemma wp_counter_free (c : nat) :
  Q tt (with_counters (delete c (counters w)) w) -> wp (counter_free c) Q w.
Proof. exact id. Qed.
End Terminals.

Lemma wp_bind_assoc {A B C : Type} (m : M A) (k1 : A -> M B) (k2 : B -> M C)
    (Q : C -> world -> Prop) (w : world) :
  wp (bind m (fun a => bind (k1 a) k2)) Q w -> wp (bind (bind m k1) k2) Q w.
Proof. unfold wp, bind. destruct (m w); auto. Qed.

(** Run the primitive operations at the head of a [wp] goal. *)
Ltac wp_step :=
  lazymatch goal with
  | |- wp (bind get _) _ _ => apply wp_get_bind
  | |- wp (bind time_now _) _ _ => apply wp_time_now_bind
  | |- wp (bind (modify _) _) _ _ => apply wp_modify_bind
  | |- wp (bind (emit _) _) _ _ => apply wp_emit_bind
  | |- wp (bind poll_immediate_wake _) _ _ => apply wp_emit_bind
  | |- wp (bind ask _) _ _ => apply wp_ask_bind
  | |- wp (bind (ret _) _) _ _ => apply wp_ret_bind
  | |- wp (bind (report_error _) _) _ _ => apply wp_ret_bind
  | |- wp (bind (crash _) _) _ _ => apply wp_crash_bind
  | |- wp (bind (counter_store _ _) _) _ _ => apply wp_counter_store_bind
  | |- wp (bind (when true _) _) _ _ => cbn [when]
  | |- wp (bind (when false _) _) _ _ => cbn [when]
  | |- wp (bind (bind _ _) _) _ _ => apply wp_bind_assoc
  | |- wp (ret _) _ _ => apply wp_ret
  | |- wp (crash _) _ _ => apply wp_crash
  | |- wp (modify _) _ _ => apply wp_modify
  | |- wp (emit _) _ _ => apply wp_emit
  | |- wp poll_immediate_wake _ _ => apply wp_emit
  | |- wp (counter_store _ _) _ _ => apply wp_counter_store
  | |- wp (counter_free _) _ _ => apply wp_counter_free
  | |- wp (when true _) _ _ => cbn [when]
  | |- wp (when false _) _ _ => cbn [when]
  end;
  cbv beta;
  cbn [rc counters clock peer calls log
       with_rc with_counters with_clock with_calls with_log fst snd].

Ltac wp_run := repeat wp_step.

(** Where [disconnect] returns, its choice of the new backoff is this one
    assignment. *)
Lemma wp_next_backoff {B : Type} (now : Z) (k : unit -> M B) (Q : B -> world -> Prop)
    (w : world) :
  wp (bind (modify (fun r =>
              if now >=? backoff_deadline r then set_backoff 1 r
              else set_backoff (MIN (max_backoff r) (MAX 1 (2 * backoff r))) r)) k) Q w ->
  wp (bind (if now >=? backoff_deadline (rc w) then modify (set_backoff 1)
            else bind (int_mul 2 (backoff (rc w)))
                   (fun doubled =>
                      modify (set_backoff (MIN (max_backoff (rc w)) (MAX 1 doubled))))) k)
     Q w.
Proof.
  unfold wp, bind, modify, int_mul, ret, crash.
  destruct (now >=? _); [auto |]. destruct (_ && _); auto.
Qed.

(** The same, keeping that the new backoff was defined. *)
Lemma wp_next_backoff_defined {B : Type} (now : Z) (k : unit -> M B)
    (Q : B -> world -> Prop) (w : world) :
  (doubling_defined now (rc w) ->
   wp (bind (modify (fun r =>
               if now >=? backoff_deadline r then set_backoff 1 r
               else set_backoff (MIN (max_backoff r) (MAX 1 (2 * backoff r))) r)) k) Q w) ->
  wp (bind (if now >=? backoff_deadline (rc w) then modify (set_backoff 1)
            else bind (int_mul 2 (backoff (rc w)))
                   (fun doubled =>
                      modify (set_backoff (MIN (max_backoff (rc w)) (MAX 1 doubled))))) k)
     Q w.
Proof.
  intros H. pose proof (doubling_defined_spec now (rc w)) as Hspec.
  unfold doubling_definedb in Hspec.
  unfold wp, bind, modify, int_mul, ret, crash in *.
  destruct (now >=? _); [apply H, Hspec; reflexivity |].
  destruct (_ && _); [apply H, Hspec; reflexivity | exact I].
Qed.

(** ** Frames *)

(** [w'] differs from [w] in at most the monitors, the log and the number of
    answers taken from the peer. *)
Definition monitors_only (w w' : world) : Prop :=
  (exists ms, rc w' = set_monitors ms (rc w))
  /\ counters w' = counters w /\ clock w' = clock w /\ peer w' = peer w
  /\ (calls w <= calls w')%nat /\ (exists l, log w' = l ++ log w).

Lemma set_monitors_same (r : rconn) : set_monitors (monitors r) r = r.
Proof. now destruct r. Qed.

Lemma monitors_only_refl (w : world) : monitors_only w w.
Proof.
  unfold monitors_only. split; [exists (monitors (rc w)); now rewrite set_monitors_same |].
  repeat split; auto. now exists [].
Qed.

Lemma monitors_only_trans (w1 w2 w3 : world) :
  monitors_only w1 w2 -> monitors_only w2 w3 -> monitors_only w1 w3.
Proof.
  intros ([ms1 H1] & Hc1 & Hk1 & Hp1 & Hn1 & [l1 Hl1])
         ([ms2 H2] & Hc2 & Hk2 & Hp2 & Hn2 & [l2 Hl2]).
  split; [exists ms2; rewrite H2, H1; reflexivity |].
  repeat split; try congruence; try lia.
  exists (l2 ++ l1). rewrite Hl2, Hl1. now rewrite app_assoc.
Qed.

Lemma monitors_only_log (w : world) (e : event) : monitors_only w (with_log (e :: log w) w).
Proof.
  split; [exists (monitors (rc w)); simpl; now rewrite set_monitors_same |].
  repeat split; auto. now exists [e].
Qed.

Lemma monitors_only_ask (w : world) (e : event) :
  monitors_only w (with_log (e :: log w) (with_calls (S (calls w)) w)).
Proof.
  split; [exists (monitors (rc w)); simpl; now rewrite set_monitors_same |].
  repeat split; simpl; auto. now exists [e].
Qed.

Lemma monitors_only_set (w : world) (ms : list vconn_t) :
  monitors_only w (with_rc (set_monitors ms (rc w)) w).
Proof.
  split; [now exists ms |]. repeat split; auto. now exists [].
Qed.

Lemma monitor_loop_frame (fuel : nat) :
  forall b i clone w,
    wp (monitor_loop fuel b i clone) (fun _ w' => monitors_only w w') w.
Proof.
  induction fuel as [| fuel IH]; intros b i clone w; simpl monitor_loop.
  - wp_run. destruct (monitors (rc w) !! i); wp_run. apply monitors_only_refl.
  - wp_run. destruct (monitors (rc w) !! i) as [v |]; [| wp_run; apply monitors_only_refl].
    assert (Hrest : forall c retval w2, monitors_only w w2 ->
      wp (if retval =? 0 then monitor_loop fuel b (S i) None
          else if negb (retval =? EAGAIN)
               then modify (fun r => set_monitors (drop_monitor i (monitors r)) r);;
                    monitor_loop fuel b i (Some c)
               else monitor_loop fuel b (S i) (Some c))
         (fun _ w' => monitors_only w w') w2).
    { intros c retval w2 H2.
      destruct (_ =? 0).
      - eapply wp_mono; [apply IH |]. intros ? w' H'. simpl in H'.
        eapply monitors_only_trans; eauto.
      - destruct (negb _).
        + wp_run. eapply wp_mono; [apply IH |]. intros ? w' H'. simpl in H'.
          eapply monitors_only_trans; [| exact H'].
          eapply monitors_only_trans; [exact H2 | exact (monitors_only_set w2 _)].
        + eapply wp_mono; [apply IH |]. intros ? w' H'. simpl in H'.
          eapply monitors_only_trans; eauto. }
    destruct clone as [c |].
    + wp_run. apply Hrest, monitors_only_ask.
    + unfold ofpbuf_clone. wp_run. apply Hrest.
      eapply monitors_only_trans; [apply monitors_only_log |].
      exact (monitors_only_ask (with_log _ w) _).
Qed.

Lemma copy_to_monitor_frame (b : ofpbuf) (w : world) :
  wp (copy_to_monitor b) (fun _ w' => monitors_only w w') w.
Proof.
  unfold copy_to_monitor. wp_run.
  eapply wp_call; [apply monitor_loop_frame |].
  intros clone w1 H1. simpl in H1. destruct clone as [c |]; simpl ofpbuf_delete; wp_run.
  - eapply monitors_only_trans; [exact H1 | apply monitors_only_log].
  - exact H1.
Qed.

(** ** rconn_send on a disconnected rconn *)

Lemma rconn_send_refuses (b : ofpbuf) (counter : option nat) (w : world) :
  rconn_is_connected (rc w) = false -> rconn_send b counter w = Ok ENOTCONN w.
Proof. intros H. unfold rconn_send, bind, get. now rewrite H. Qed.

(** C6: when the state is neither ACTIVE nor IDLE, [rconn_send] returns
    [ENOTCONN] and the world is the one it was called in: the queue, the
    counters and the log of calls (no clone, no delete, no transport send) are
    untouched, so the buffer is still the caller's. *)
Theorem rconn_send_not_connected (b : ofpbuf) (counter : option nat) (w : world) :
  state (rc w) <> S_ACTIVE -> state (rc w) <> S_IDLE ->
  rconn_send b counter w = Ok ENOTCONN w.
Proof.
  intros Ha Hi. apply rconn_send_refuses.
  apply not_true_is_false. unfold rconn_is_connected.
  rewrite is_connected_state_spec. tauto.
Qed.

Lemma rconn_send_not_connected_witness :
  rconn_send make_echo_request None w_backoff1 = Ok ENOTCONN w_backoff1.
Proof.
  apply (rconn_send_not_connected make_echo_request None w_backoff1); discriminate.
Defined.

(** ** Admission *)

(** The ten message types that do not show that the peer admitted us. *)
Definition pre_admission_types : list Z :=
  [OFPT_HELLO; OFPT_ERROR; OFPT_ECHO_REQUEST; OFPT_ECHO_REPLY; OFPT_VENDOR;
   OFPT_FEATURES_REQUEST; OFPT_FEATURES_REPLY; OFPT_GET_CONFIG_REQUEST;
   OFPT_GET_CONFIG_REPLY; OFPT_SET_CONFIG].

Lemma admitted_type_spec (ty : Z) :
  0 <= ty -> (admitted_type ty = true <-> ~ In ty pre_admission_types).
Proof.
  intros H0. destruct (Z.ltb_spec ty 32) as [Hlt | Hge].
  - assert (Hall : forallb (fun k =>
              Bool.eqb (admitted_type (Z.of_nat k))
                       (negb (existsb (Z.eqb (Z.of_nat k)) pre_admission_types)))
              (seq 0 32) = true) by (vm_compute; reflexivity).
    rewrite forallb_forall in Hall.
    specialize (Hall (Z.to_nat ty)). rewrite Z2Nat.id in Hall by assumption.
    apply Bool.eqb_prop in Hall; [| apply in_seq; lia]. rewrite Hall.
    rewrite negb_true_iff, <- not_true_iff_false, existsb_exists.
    split.
    + intros Hn Hin. apply Hn. exists ty. split; [assumption | apply Z.eqb_refl].
    + intros Hn (x & Hin & Heq). apply Z.eqb_eq in Heq. subst x. auto.
  - unfold admitted_type.
    replace (ty <? 32) with false by (symmetry; apply Z.ltb_ge; assumption).
    split; [intros _ | reflexivity].
    unfold pre_admission_types. simpl. unfold OFPT_HELLO, OFPT_ERROR, OFPT_ECHO_REQUEST,
      OFPT_ECHO_REPLY, OFPT_VENDOR, OFPT_FEATURES_REQUEST, OFPT_FEATURES_REPLY,
      OFPT_GET_CONFIG_REQUEST, OFPT_GET_CONFIG_REPLY, OFPT_SET_CONFIG. lia.
Qed.

Lemma ofp_type_range (b : ofpbuf) (ty : Z) : ofp_type b = Some ty -> 0 <= ty < 256.
Proof.
  unfold ofp_type. destruct (data b !! 1%nat) as [x |]; [| discriminate].
  simpl. intros [= <-]. pose proof (Byte.to_N_bounded x). lia.
Qed.

(** What [rconn_recv] decides on: the message is not pre-admission traffic,
    or the rconn was already taken as admitted, or it has been connected for
    30 seconds. *)
Definition admits (w : world) (b : ofpbuf) : Prop :=
  (exists ty, ofp_type b = Some ty /\ ~ In ty pre_admission_types)
  \/ probably_admitted (rc w) = true
  \/ clock w - last_connected (rc w) >= 30.

Lemma rconn_recv_spec (w : world) :
  time_ok (clock w - last_connected (rc w)) ->
  wp rconn_recv (fun res w' =>
    forall b, res = Some b ->
      (admits w b -> probably_admitted (rc w') = true /\ last_admitted (rc w') = clock w)
      /\ (~ admits w b ->
          probably_admitted (rc w') = probably_admitted (rc w)
          /\ last_admitted (rc w') = last_admitted (rc w))) w.
Proof.
  intros Hok. unfold rconn_recv. wp_run.
  destruct (state_in (state (rc w)) connected_mask) eqn:Hconn; [| wp_run; discriminate].
  unfold vconn_recv. destruct (vconn (rc w)) as [v |]; [| wp_run].
  wp_run. set (a := peer w (calls w)).
  destruct (a_retval a =? 0);
    [| eapply wp_call with (R := fun _ _ => True);
       [unfold wp; destruct (when _ _ _); exact I | intros; wp_run; discriminate]].
  eapply wp_call; [apply copy_to_monitor_frame |].
  intros [] w1 ([ms Hrc] & _ & Hclock & _). simpl in Hclock, Hrc.
  wp_run. rewrite Hclock, Hrc. cbn [probably_admitted last_connected set_monitors].
  assert (Hfinal : forall adm : bool,
    (adm = true <-> admits w (a_buf a)) ->
    wp (when adm (modify (fun r => set_last_admitted (clock w) (set_probably_admitted true r)));;
        modify (set_last_received (clock w));;
        modify (fun r => set_packets_received (to_uint (packets_received r + 1)) r);;
        r2 <- get;;
        when (state_eqb (state r2) S_IDLE) (modify (state_transition (clock w) S_ACTIVE));;
        ret (Some (a_buf a)))
      (fun res w' => forall b, res = Some b ->
        (admits w b -> probably_admitted (rc w') = true /\ last_admitted (rc w') = clock w)
        /\ (~ admits w b ->
            probably_admitted (rc w') = probably_admitted (rc w)
            /\ last_admitted (rc w') = last_admitted (rc w))) w1).
  { intros adm Hadm.
    assert (Hidle : forall r, state r = state (rc w) ->
      (if state_eqb (state r) S_IDLE
       then is_connected_state S_ACTIVE && negb (is_connected_state (state r))
       else false) = false).
    { intros r ->. destruct (state (rc w)); reflexivity. }
    destruct adm; cbn [when]; wp_run; rewrite Hrc;
      cbn [state set_monitors set_last_admitted set_probably_admitted
           set_last_received set_packets_received];
      pose proof (Hidle (rc w) eq_refl) as Hi;
      destruct (state_eqb (state (rc w)) S_IDLE); cbn [when]; wp_run;
      intros b [= <-]; cbn [rc with_rc];
      rewrite ?state_transition_probably_admitted, ?state_transition_last_admitted;
      cbn [state probably_admitted last_admitted set_monitors set_last_admitted
           set_probably_admitted set_last_received set_packets_received];
      rewrite ?Hi.
    1, 2: split; [intros _; split; reflexivity
                 | intros Hn; exfalso; apply Hn, Hadm; reflexivity].
    all: split; [intros Ha; apply Hadm in Ha; discriminate
                | intros _; split; reflexivity]. }
  destruct (probably_admitted (rc w)) eqn:Hpa.
  - wp_step. apply Hfinal. split; [intros _; right; left; assumption | reflexivity].
  - unfold is_admitted_msg. destruct (ofp_type (a_buf a)) as [ty |] eqn:Hty; [| wp_run].
    wp_run. pose proof (ofp_type_range _ _ Hty) as Hrange.
    pose proof (admitted_type_spec ty ltac:(lia)) as Hspec.
    destruct (admitted_type ty).
    + wp_step. apply Hfinal. split; [intros _ | reflexivity].
      left. exists ty. split; [assumption | apply Hspec; reflexivity].
    + wp_step. apply Hfinal. rewrite (to_time_exact _ Hok).
      unfold admits. rewrite Hty, Hpa.
      split.
      * intros H. right. right. apply Z.geb_le in H. lia.
      * intros [(ty' & [= <-] & Hn) | [Hd | Hge]].
        -- exfalso. apply Hspec in Hn. discriminate.
        -- discriminate.
        -- apply Z.geb_le. lia.
Qed.

(** C8: when [rconn_recv] returns a message, [probably_admitted] is true and
    [last_admitted] is the current time exactly when the type byte at offset
    1 of the message is not one of the ten pre-admission types, or
    [probably_admitted] was already true, or 30 seconds have passed since
    [last_connected]; otherwise both fields keep their values.  Every type
    from 32 up counts as admission. *)
Theorem rconn_recv_admission (w w' : world) (b : ofpbuf) :
  rconn_recv w = Ok (Some b) w' ->
  time_ok (clock w - last_connected (rc w)) ->
  (probably_admitted (rc w') = true /\ last_admitted (rc w') = clock w <-> admits w b)
  /\ (~ admits w b ->
      probably_admitted (rc w') = probably_admitted (rc w)
      /\ last_admitted (rc w') = last_admitted (rc w))
  /\ (forall ty, ofp_type b = Some ty -> 32 <= ty -> admits w b).
Proof.
  intros Hrun Hok.
  pose proof (wp_Ok _ _ _ _ _ (rconn_recv_spec w Hok) Hrun b eq_refl) as [Hyes Hno].
  split; [| split].
  - split; [| exact Hyes]. intros [Hp Hl].
    destruct (probably_admitted (rc w)) eqn:Hpa; [right; left; exact Hpa |].
    destruct (Z_ge_dec (clock w - last_connected (rc w)) 30) as [Hge | Hlt];
      [right; right; exact Hge |].
    destruct (ofp_type b) as [ty |] eqn:Hty.
    + destruct (in_dec Z.eq_dec ty pre_admission_types) as [Hin | Hout].
      * exfalso. destruct Hno as [Hp' _]; [| congruence].
        intros [(ty' & Hty' & Hn) | [Hd | Hge]]; [| congruence | lia].
        rewrite Hty in Hty'. injection Hty' as <-. tauto.
      * left. exists ty. auto.
    + exfalso. destruct Hno as [Hp' _]; [| congruence].
      intros [(ty' & Hty' & _) | [Hd | Hge]]; [congruence | congruence | lia].
  - exact Hno.
  - intros ty Hty Hge. left. exists ty. split; [assumption |].
    unfold pre_admission_types. simpl. unfold OFPT_HELLO, OFPT_ERROR, OFPT_ECHO_REQUEST,
      OFPT_ECHO_REPLY, OFPT_VENDOR, OFPT_FEATURES_REQUEST, OFPT_FEATURES_REPLY,
      OFPT_GET_CONFIG_REQUEST, OFPT_GET_CONFIG_REPLY, OFPT_SET_CONFIG. lia.
Qed.

(** A connection to a peer that accepts at once: opened at time 100 with a
    probe interval of 5 seconds, connected by the first [rconn_run]. *)
Definition w_connecting : world :=
  after (rconn_connect "tcp:10.0.0.2") (boot (peer_script [0; 0; 0; 0] EAGAIN) 100 5 8).

Definition w_active : world := after (rconn_run 3) w_connecting.

Lemma rconn_recv_admission_witness :
  (probably_admitted (rc (after rconn_recv (with_clock 130 w_active))) = true
   /\ last_admitted (rc (after rconn_recv (with_clock 130 w_active))) = 130
   <-> admits (with_clock 130 w_active) make_echo_request).
Proof.
  apply (rconn_recv_admission (with_clock 130 w_active)
           (after rconn_recv (with_clock 130 w_active)) make_echo_request).
  - vm_compute. reflexivity.
  - vm_compute. split; discriminate.
Defined.

(** ** Where a buffer ends up *)

(** Between [w] and [w'] the buffer [x] was deleted or accepted by a
    transport. *)
Definition disposed (x : ofpbuf) (w w' : world) : Prop :=
  exists l, log w' = l ++ log w
    /\ (In (EvDelete x) l \/ exists v, In (EvSend v x 0) l).

(** The rconn has taken the buffer: it is queued, or it was disposed of. *)
Definition taken (x : ofpbuf) (w w' : world) : Prop :=
  In x (txq (rc w')) \/ disposed x w w'.

(** Every buffer queued in [w] is still queued in [w'] or was disposed of. *)
Definition queue_accounted (w w' : world) : Prop :=
  exists l, log w' = l ++ log w
    /\ forall x, In x (txq (rc w)) ->
         In x (txq (rc w')) \/ In (EvDelete x) l \/ exists v, In (EvSend v x 0) l.

Lemma queue_accounted_same (w w' : world) (l : list event) :
  log w' = l ++ log w -> txq (rc w') = txq (rc w) -> queue_accounted w w'.
Proof. intros Hl Hq. exists l. split; [assumption |]. intros x Hx. left. now rewrite Hq. Qed.

Lemma counter_dec_opt_frame (counter : option nat) (w : world) :
  wp (counter_dec_opt counter) (fun _ w' => exists cs, w' = with_counters cs w) w.
Proof.
  destruct counter as [c |]; simpl counter_dec_opt.
  - unfold rconn_packet_counter_dec. apply wp_counter_load_bind. intros pc Hpc.
    destruct (n pc >? 0); [| wp_run].
    cbv zeta. destruct ((_ =? 0) && (_ =? 0)); wp_run; eexists; reflexivity.
  - wp_run. exists (counters w). now destruct w.
Qed.

Lemma flush_loop_deletes (fuel : nat) :
  forall w, wp (flush_loop fuel) (fun _ w' =>
    exists l, log w' = l ++ log w /\ forall x, In x (txq (rc w)) -> In (EvDelete x) l) w.
Proof.
  induction fuel as [| fuel IH]; intros w; simpl flush_loop; wp_run.
  - destruct (txq (rc w)) as [| b rest]; wp_run.
    exists []. split; [reflexivity | intros x []].
  - destruct (txq (rc w)) as [| b rest]; wp_run.
    + exists []. split; [reflexivity | intros x []].
    + eapply wp_call; [apply counter_dec_opt_frame |].
      intros [] w1 [cs ->]. simpl ofpbuf_delete. wp_run.
      eapply wp_mono; [apply IH |]. cbn [log rc with_log with_counters with_rc txq set_txq].
      intros ? w' (l & Hl & Hall). exists (l ++ [EvDelete b]).
      split; [rewrite Hl, <- app_assoc; reflexivity |].
      intros x [<- | Hx]; apply in_or_app; [right; left; reflexivity | left; auto].
Qed.

Lemma flush_queue_deletes (w : world) :
  wp flush_queue (fun _ w' =>
    exists l, log w' = l ++ log w /\ forall x, In x (txq (rc w)) -> In (EvDelete x) l) w.
Proof.
  unfold flush_queue. wp_run. destruct (txq_n (rc w) =? 0) eqn:Hn.
  - wp_run. exists []. split; [reflexivity |].
    unfold txq_n in Hn. destruct (txq (rc w)); [intros x [] | simpl in Hn; lia].
  - eapply wp_call; [apply flush_loop_deletes |].
    intros [] w1 (l & Hl & Hall). wp_run. exists (EvWake :: l).
    split; [rewrite Hl; reflexivity | intros x Hx; right; auto].
Qed.

Lemma rconn_disconnect_accounts (w : world) :
  wp rconn_disconnect (fun _ w' => queue_accounted w w') w.
Proof.
  unfold rconn_disconnect. wp_run. destruct (negb _).
  - destruct (vconn (rc w)) as [v |]; simpl vconn_close; wp_run.
    + apply queue_accounted_same with (l := [EvClose v]); [reflexivity |].
      cbn. now rewrite state_transition_txq.
    + apply queue_accounted_same with (l := []); [reflexivity |].
      cbn. now rewrite state_transition_txq.
  - wp_run. apply queue_accounted_same with (l := []); reflexivity.
Qed.

Lemma disconnect_accounts (error : Z) (w : world) :
  wp (disconnect error) (fun _ w' => queue_accounted w w') w.
Proof.
  unfold disconnect. wp_run. destruct (reliable (rc w)); [| apply rconn_disconnect_accounts].
  wp_run.
  assert (Htail : forall w1 l, log w1 = l ++ log w ->
    (forall x, In x (txq (rc w)) -> In x (txq (rc w1)) \/ In (EvDelete x) l) ->
    wp (modify (fun r =>
          if clock w >=? backoff_deadline r then set_backoff 1 r
          else set_backoff (MIN (max_backoff r) (MAX 1 (2 * backoff r))) r);;
        modify (fun r => set_backoff_deadline (to_time (clock w + backoff r)) r);;
        modify (state_transition (clock w) S_BACKOFF);;
        r' <- get;;
        when (to_time (clock w - last_connected r') >? 60)
          (modify (question_connectivity (clock w))))
       (fun _ w' => queue_accounted w w') w1).
  { intros w1 l Hl Hq. wp_run.
    assert (Htxq : forall r, txq (state_transition (clock w) S_BACKOFF
              (set_backoff_deadline
                 (to_time (clock w + backoff
                    (if clock w >=? backoff_deadline r then set_backoff 1 r
                     else set_backoff (MIN (max_backoff r) (MAX 1 (2 * backoff r))) r)))
                 (if clock w >=? backoff_deadline r then set_backoff 1 r
                  else set_backoff (MIN (max_backoff r) (MAX 1 (2 * backoff r))) r)))
            = txq r).
    { intros r. rewrite state_transition_txq. destruct (_ >=? _); reflexivity. }
    destruct (_ >? 60); wp_run; exists l; (split; [assumption |]);
      intros x Hx; cbn [rc with_rc]; rewrite ?question_connectivity_txq, Htxq;
      destruct (Hq x Hx); auto. }
  destruct (state_in (state (rc w)) open_mask); wp_run.
  - assert (Hclose : wp (vconn_close (vconn (rc w)))
              (fun _ w1 => rc w1 = rc w /\ exists l, log w1 = l ++ log w) w).
    { destruct (vconn (rc w)) as [v |]; simpl vconn_close; wp_run;
        (split; [reflexivity |]); [now exists [EvClose v] | now exists []]. }
    eapply wp_call; [exact Hclose |]. intros [] w1 (Hrc & l1 & Hl1). wp_run.
    eapply wp_call; [apply flush_queue_deletes |].
    cbn [log rc with_rc txq set_vconn]. intros [] w2 (l2 & Hl2 & Hall).
    wp_run. apply wp_next_backoff. apply Htail with (l := l2 ++ l1).
    + rewrite Hl2, Hl1, app_assoc. reflexivity.
    + intros x Hx. right. apply in_or_app. left. apply Hall. rewrite Hrc. exact Hx.
  - apply wp_next_backoff. apply Htail with (l := []); [reflexivity | auto].
Qed.

Lemma queue_accounted_trans (w1 w2 w3 : world) :
  queue_accounted w1 w2 -> queue_accounted w2 w3 -> queue_accounted w1 w3.
Proof.
  intros (l1 & Hl1 & H1) (l2 & Hl2 & H2). exists (l2 ++ l1).
  split; [rewrite Hl2, Hl1, app_assoc; reflexivity |].
  intros x Hx. destruct (H1 x Hx) as [Hq | [Hd | [v Hs]]].
  - destruct (H2 x Hq) as [Hq' | [Hd | [v Hs]]]; [auto | |].
    + right. left. apply in_or_app. auto.
    + right. right. exists v. apply in_or_app. auto.
  - right. left. apply in_or_app. auto.
  - right. right. exists v. apply in_or_app. auto.
Qed.

Lemma try_send_accounts (w : world) :
  wp try_send (fun _ w' => queue_accounted w w') w.
Proof.
  unfold try_send. wp_run. destruct (txq (rc w)) as [| head next] eqn:Hq; wp_run.
  unfold vconn_send. destruct (vconn (rc w)) as [v |]; wp_run.
  set (retval := a_retval (peer w (calls w))).
  set (w1 := with_log _ _).
  assert (H1 : queue_accounted w w1).
  { apply queue_accounted_same with (l := [EvSend v head retval]); reflexivity. }
  destruct (Z.eqb_spec retval 0) as [H0 | Hne]; cbn [negb].
  - wp_run. eapply wp_call; [apply counter_dec_opt_frame |].
    intros [] w2 [cs ->]. wp_run.
    exists [EvSend v head retval]. split; [reflexivity |].
    cbn [rc with_rc txq set_txq]. rewrite Hq. intros x [<- | Hx]; [| auto].
    right. right. exists v. left. now rewrite H0.
  - destruct (negb (retval =? EAGAIN)); wp_run.
    + eapply wp_call; [apply disconnect_accounts |].
      intros [] w2 H2. wp_run. eapply queue_accounted_trans; eauto.
    + exact H1.
Qed.

(** [rconn_send] either refuses the buffer and changes nothing, or returns 0
    having taken it. *)
Lemma rconn_send_spec (b : ofpbuf) (counter : option nat) (w : world) :
  wp (rconn_send b counter) (fun e w' =>
    (e = ENOTCONN /\ w' = w /\ rconn_is_connected (rc w) = false)
    \/ (e = 0 /\ taken {| data := data b; private_p := counter |} w w')) w.
Proof.
  unfold rconn_send. wp_run.
  destruct (rconn_is_connected (rc w)) eqn:Hconn; [| wp_run; left; auto].
  eapply wp_call; [apply copy_to_monitor_frame |].
  intros [] w1 ([ms Hrc] & _ & _ & _ & _ & [l1 Hl1]). cbv zeta.
  set (b' := {| data := data b; private_p := counter |}).
  assert (Hpush : forall w2, rc w2 = rc w1 -> log w2 = log w1 ->
    wp (modify (fun r => set_txq (txq r ++ [b']) r);;
        r' <- get;;
        when (txq_n r' =? 1) (_ <- try_send;; ret tt);;
        ret 0)
       (fun e w' => e = 0 /\ taken b' w w') w2).
  { intros w2 Hrc2 Hl2. wp_run.
    set (w3 := with_rc _ w2).
    assert (Hin : In b' (txq (rc w3))).
    { subst w3. cbn. apply in_or_app. right. left. reflexivity. }
    assert (Hl3 : log w3 = l1 ++ log w) by (subst w3; cbn; congruence).
    destruct (txq_n _ =? 1); wp_run.
    - eapply wp_call; [apply try_send_accounts |].
      intros e w4 (l & Hl & Hall). wp_run. split; [reflexivity |].
      destruct (Hall b' Hin) as [Hq | Hd]; [left; exact Hq | right].
      exists (l ++ l1). split; [rewrite Hl, Hl3, app_assoc; reflexivity |].
      destruct Hd as [Hd | [v Hs]]; [left | right; exists v]; apply in_or_app; auto.
    - split; [reflexivity |]. left. exact Hin. }
  eapply wp_mono; [| intros e w' H; right; exact H].
  destruct counter as [c |].
  - unfold rconn_packet_counter_inc. apply wp_bind_assoc.
    apply wp_counter_load_bind. intros pc Hpc. wp_step. apply Hpush; reflexivity.
  - wp_step. apply Hpush; reflexivity.
Qed.

(** C7: with [counter.n >= limit] the call returns [EAGAIN], deletes the
    buffer and leaves the counter as it was; on a disconnected rconn, where
    the inner [rconn_send] fails, it returns that error, [ENOTCONN], and
    deletes the buffer; and whenever it returns, the buffer is consumed:
    deleted when the result is an error, taken by the rconn (queued, handed
    to the transport or flushed) when the result is 0. *)
Theorem rconn_send_with_limit_consumes (b : ofpbuf) (c : nat) (pc : rconn_packet_counter)
    (queue_limit : Z) (w : world) :
  counters w !! c = Some pc ->
  (queue_limit <= n pc ->
   rconn_send_with_limit b (Some c) queue_limit w
   = Ok EAGAIN (with_log (EvDelete b :: log w) w))
  /\ (n pc < queue_limit -> rconn_is_connected (rc w) = false ->
      rconn_send_with_limit b (Some c) queue_limit w
      = Ok ENOTCONN (with_log (EvDelete b :: log w) w))
  /\ (forall e w', rconn_send_with_limit b (Some c) queue_limit w = Ok e w' ->
      (e <> 0 /\ (e = EAGAIN \/ e = ENOTCONN)
       /\ w' = with_log (EvDelete b :: log w) w)
      \/ (e = 0 /\ taken {| data := data b; private_p := Some c |} w w')).
Proof.
  intros Hc.
  assert (Hload : counter_load c w = Ok pc w) by (unfold counter_load; now rewrite Hc).
  unfold rconn_send_with_limit. rewrite (bind_Ok _ _ _ _ _ Hload).
  split; [| split].
  - intros Hle. replace (n pc >=? queue_limit) with true by (symmetry; apply Z.geb_le; lia).
    reflexivity.
  - intros Hlt Hconn.
    replace (n pc >=? queue_limit) with false
      by (symmetry; rewrite Z.geb_leb; apply Z.leb_gt; lia).
    rewrite (bind_Ok _ _ _ _ _ (rconn_send_refuses _ _ _ Hconn)). reflexivity.
  - intros e w' Hrun. destruct (n pc >=? queue_limit).
    + injection Hrun as <- <-. left. split; [discriminate | auto].
    + pose proof (rconn_send_spec b (Some c) w) as Hspec. unfold wp in Hspec.
      destruct (rconn_send b (Some c) w) as [e1 w1 |] eqn:Hsend;
        [| rewrite (bind_Crash _ _ _ _ Hsend) in Hrun; discriminate].
      rewrite (bind_Ok _ _ _ _ _ Hsend) in Hrun.
      destruct Hspec as [(-> & -> & _) | (-> & Htaken)].
      * injection Hrun as <- <-. left. split; [discriminate | auto].
      * injection Hrun as <- <-. right. auto.
Qed.

(** A world with one packet counter, owned by its creator. *)
Definition w_counter : world := after rconn_packet_counter_create w_backoff1.

Lemma rconn_send_with_limit_consumes_witness :
  rconn_send_with_limit make_echo_request (Some 0%nat) 0 w_counter
  = Ok EAGAIN (with_log (EvDelete make_echo_request :: log w_counter) w_counter).
Proof.
  destruct (rconn_send_with_limit_consumes make_echo_request 0
              {| n := 0; ref_cnt := 1 |} 0 w_counter) as (H & _).
  - reflexivity.
  - apply H. simpl. lia.
Defined.

(** ** The null counter *)

(** [m] never reads through a null packet counter pointer. *)
Definition counter_safe {A : Type} (m : M A) : Prop :=
  forall w, m w <> Crash NullCounter.

Lemma counter_safe_bind {A B : Type} (m : M A) (k : A -> M B) :
  counter_safe m -> (forall a, counter_safe (k a)) -> counter_safe (bind m k).
Proof.
  intros Hm Hk w. unfold bind. destruct (m w) as [a w' | f] eqn:E.
  - apply Hk.
  - intros [= ->]. now apply (Hm w).
Qed.

Lemma counter_safe_total {A : Type} (f : world -> A * world) :
  counter_safe (fun w => Ok (fst (f w)) (snd (f w))).
Proof. intros w. discriminate. Qed.

Lemma counter_safe_when (c : bool) (m : M unit) :
  counter_safe m -> counter_safe (when c m).
Proof. intros H. destruct c; [exact H | intros w; discriminate]. Qed.

Ltac counter_safe_step :=
  lazymatch goal with
  | |- counter_safe (bind _ _) => apply counter_safe_bind; [| intros ?]
  | |- counter_safe (when _ _) => apply counter_safe_when
  | |- counter_safe (if ?c then _ else _) => destruct c
  | |- counter_safe (match ?x with _ => _ end) => destruct x
  | |- counter_safe (crash _) => intros ?; discriminate
  | |- counter_safe (ret _) => intros ?; discriminate
  | |- counter_safe get => intros ?; discriminate
  | |- counter_safe (modify _) => intros ?; discriminate
  | |- counter_safe (emit _) => intros ?; discriminate
  | |- counter_safe time_now => intros ?; discriminate
  | |- counter_safe ask => intros ?; discriminate
  | |- counter_safe poll_immediate_wake => intros ?; discriminate
  | |- counter_safe (report_error _) => intros ?; discriminate
  | |- counter_safe (counter_store _ _) => intros ?; discriminate
  | |- counter_safe (counter_free _) => intros ?; discriminate
  | |- counter_safe (counter_load _) =>
      let w := fresh "w" in
      intros w; unfold counter_load; destruct (counters w !! _); discriminate
  end.

Ltac counter_safe_auto := repeat counter_safe_step; eauto.

Lemma rconn_packet_counter_dec_safe (c : nat) : counter_safe (rconn_packet_counter_dec c).
Proof. unfold rconn_packet_counter_dec. counter_safe_auto. Qed.

Lemma rconn_packet_counter_inc_safe (c : nat) : counter_safe (rconn_packet_counter_inc c).
Proof. unfold rconn_packet_counter_inc. counter_safe_auto. Qed.

Lemma counter_dec_opt_safe (counter : option nat) : counter_safe (counter_dec_opt counter).
Proof.
  destruct counter; simpl; [apply rconn_packet_counter_dec_safe | counter_safe_auto].
Qed.

Lemma vconn_send_safe (vc : option vconn_t) (b : ofpbuf) : counter_safe (vconn_send vc b).
Proof. unfold vconn_send. counter_safe_auto. Qed.

Lemma vconn_close_safe (vc : option vconn_t) : counter_safe (vconn_close vc).
Proof. unfold vconn_close. counter_safe_auto. Qed.

Lemma ofpbuf_delete_safe (b : option ofpbuf) : counter_safe (ofpbuf_delete b).
Proof. unfold ofpbuf_delete. counter_safe_auto. Qed.

Lemma flush_loop_safe (fuel : nat) : counter_safe (flush_loop fuel).
Proof.
  induction fuel as [| fuel IH]; simpl flush_loop; counter_safe_auto;
    auto using counter_dec_opt_safe, ofpbuf_delete_safe.
Qed.

Lemma flush_queue_safe : counter_safe flush_queue.
Proof. unfold flush_queue. counter_safe_auto. apply flush_loop_safe. Qed.

Lemma rconn_disconnect_safe : counter_safe rconn_disconnect.
Proof. unfold rconn_disconnect. counter_safe_auto; apply vconn_close_safe. Qed.

Lemma int_mul_safe (x y : Z) : counter_safe (int_mul x y).
Proof. unfold int_mul. counter_safe_auto. Qed.

Lemma disconnect_safe (error : Z) : counter_safe (disconnect error).
Proof.
  unfold disconnect. counter_safe_auto;
    auto using vconn_close_safe, flush_queue_safe, rconn_disconnect_safe, int_mul_safe.
Qed.

Lemma try_send_safe : counter_safe try_send.
Proof.
  unfold try_send. counter_safe_auto;
    auto using vconn_send_safe, disconnect_safe, counter_dec_opt_safe.
Qed.

Lemma monitor_loop_safe (fuel : nat) :
  forall b i clone, counter_safe (monitor_loop fuel b i clone).
Proof.
  induction fuel as [| fuel IH]; intros b i clone; simpl monitor_loop;
    unfold ofpbuf_clone; counter_safe_auto; auto using vconn_send_safe.
Qed.

Lemma copy_to_monitor_safe (b : ofpbuf) : counter_safe (copy_to_monitor b).
Proof.
  unfold copy_to_monitor. counter_safe_auto;
    auto using monitor_loop_safe, ofpbuf_delete_safe.
Qed.

Lemma rconn_send_safe (b : ofpbuf) (counter : option nat) :
  counter_safe (rconn_send b counter).
Proof.
  unfold rconn_send. counter_safe_auto;
    auto using copy_to_monitor_safe, rconn_packet_counter_inc_safe, try_send_safe.
Qed.

(** C10: [rconn_send_with_limit] reads [counter->n] before anything else, so
    a null counter is an invalid read whatever the other arguments and the
    state are, and that is the only way it reaches this fault: with a counter
    argument present it never does.  [rconn_send] never does either, whether
    its counter is null or not, for it only touches the counter under
    [if (counter)]. *)
Theorem null_counter_only_in_send_with_limit (b : ofpbuf) (queue_limit : Z) (w : world) :
  rconn_send_with_limit b None queue_limit w = Crash NullCounter
  /\ (forall counter,
        rconn_send_with_limit b counter queue_limit w = Crash NullCounter <->
        counter = None)
  /\ (forall counter, rconn_send b counter w <> Crash NullCounter).
Proof.
  split; [reflexivity |]. split.
  - intros [c |]; split; try discriminate; try reflexivity.
    intros H. exfalso. revert H.
    assert (Hs : counter_safe (rconn_send_with_limit b (Some c) queue_limit)).
    { unfold rconn_send_with_limit. counter_safe_auto;
        auto using rconn_send_safe, ofpbuf_delete_safe. }
    apply Hs.
  - intros counter. apply rconn_send_safe.
Qed.

(** ** The calls a client can make *)

Inductive call : Type :=
  | Connect (nm : string)
  | ConnectUnreliably (nm : string) (v : vconn_t)
  | Reconnect
  | Disconnect
  | Run (fuel : nat)
  | Recv
  | Send (b : ofpbuf) (counter : option nat)
  | SendWithLimit (b : ofpbuf) (counter : option nat) (queue_limit : Z)
  | SetMaxBackoff (max_backoff : Z)
  | SetProbeInterval (probe_interval : Z)
  | AddMonitor (v : vconn_t)
  | IsConnectivityQuestionable
  | CounterCreate
  | CounterDestroy (counter : option nat)
  | Sleep (seconds : nat).

Definition discard {A : Type} (m : M A) : M unit := _ <- m;; ret tt.

(** The clock moves on while the process is in [poll_block]. *)
Definition sleep (seconds : nat) : M unit :=
  fun w => Ok tt (with_clock (clock w + Z.of_nat seconds) w).

Definition exec (c : call) : M unit :=
  match c with
  | Connect nm => discard (rconn_connect nm)
  | ConnectUnreliably nm v => rconn_connect_unreliably nm v
  | Reconnect => rconn_reconnect
  | Disconnect => rconn_disconnect
  | Run fuel => rconn_run fuel
  | Recv => discard rconn_recv
  | Send b counter => discard (rconn_send b counter)
  | SendWithLimit b counter queue_limit =>
      discard (rconn_send_with_limit b counter queue_limit)
  | SetMaxBackoff max_backoff =>
      now <- time_now;; modify (rconn_set_max_backoff now max_backoff)
  | SetProbeInterval probe_interval => modify (rconn_set_probe_interval probe_interval)
  | AddMonitor v => rconn_add_monitor v
  | IsConnectivityQuestionable => discard rconn_is_connectivity_questionable
  | CounterCreate => discard rconn_packet_counter_create
  | CounterDestroy counter => rconn_packet_counter_destroy counter
  | Sleep seconds => sleep seconds
  end.

(** Arguments are values of their C types.  With [strict], every maximum
    backoff handed to the rconn is one the documentation allows: at least one
    second, or 0 at creation for the default. *)
Definition call_ok (strict : bool) (c : call) : Prop :=
  match c with
  | SetMaxBackoff max_backoff => int_ok max_backoff /\ (strict = true -> 1 <= max_backoff)
  | SetProbeInterval probe_interval => int_ok probe_interval
  | SendWithLimit _ _ queue_limit => int_ok queue_limit
  | _ => True
  end.

Definition create_ok (strict : bool) (now probe_interval max_backoff : Z) : Prop :=
  time_ok now /\ int_ok probe_interval /\ int_ok max_backoff
  /\ (strict = true -> max_backoff = 0 \/ 1 <= max_backoff).

(** The worlds a client can bring about: [rconn_create], then calls that
    return. *)
Inductive reachable_from (strict : bool) : world -> Prop :=
  | reach_create (p : nat -> answer) (now probe_interval max_backoff : Z) :
      create_ok strict now probe_interval max_backoff ->
      reachable_from strict (boot p now probe_interval max_backoff)
  | reach_call (w w' : world) (c : call) :
      reachable_from strict w -> call_ok strict c -> exec c w = Ok tt w' ->
      reachable_from strict w'.

Definition reachable : world -> Prop := reachable_from false.

Lemma reachable_from_weaken (strict : bool) (w : world) :
  reachable_from strict w -> reachable w.
Proof.
  induction 1 as [p now pi mb (Ht & Hp & Hm & _) | w w' c _ IH Hc Hrun].
  - apply reach_create.
    split; [exact Ht | split; [exact Hp | split; [exact Hm | intros [=]]]].
  - eapply reach_call; [exact IH | | exact Hrun].
    destruct c; simpl in *; try tauto. split; [tauto | intros [=]].
Qed.

(** ** Invariants of the state machine *)

(** A transport is held exactly in the states CONNECTING, ACTIVE and IDLE, and
    only a reliable rconn waits in BACKOFF or CONNECTING. *)
Definition conn_inv (r : rconn) : Prop :=
  (vconn r = None <-> state_in (state r) open_mask = false)
  /\ (state r = S_BACKOFF \/ state r = S_CONNECTING -> reliable r = true).

(** The bounds on the backoff. *)
Definition backoff_inv (r : rconn) : Prop :=
  1 <= max_backoff r /\ (state r = S_BACKOFF -> 1 <= backoff r <= max_backoff r).

Definition INV (strict : bool) (r : rconn) : Prop :=
  conn_inv r /\ (strict = true -> backoff_inv r).

(** The fields the invariants read. *)
Definition core (r : rconn) : rstate * option vconn_t * bool * Z * Z :=
  (state r, vconn r, reliable r, backoff r, max_backoff r).

Lemma INV_core (strict : bool) (r r' : rconn) : core r' = core r -> INV strict r -> INV strict r'.
Proof.
  unfold core, INV, conn_inv, backoff_inv. intros [= -> -> -> -> ->]. tauto.
Qed.

Create Rewrite HintDb rconn_fields.
#[global] Hint Rewrite
  state_transition_state state_transition_vconn state_transition_reliable
  state_transition_backoff state_transition_max_backoff state_transition_txq
  state_transition_backoff_deadline state_transition_probe_interval
  state_transition_last_connected state_transition_last_admitted
  state_transition_monitors
  question_connectivity_state question_connectivity_vconn
  question_connectivity_reliable question_connectivity_backoff
  question_connectivity_max_backoff question_connectivity_txq
  question_connectivity_backoff_deadline question_connectivity_probe_interval
  : rconn_fields.

(** Read a field through the assignments made to the record. *)
Ltac fields :=
  repeat (progress (autorewrite with rconn_fields
          || cbn [rc with_rc with_counters with_clock with_calls with_log
                  state state_entered vconn name reliable txq backoff max_backoff
                  backoff_deadline last_received last_connected packets_sent seqno
                  probably_admitted last_admitted packets_received
                  n_attempted_connections n_successful_connections creation_time
                  total_time_connected questionable_connectivity last_questioned
                  probe_interval local_ip remote_ip remote_port monitors
                  set_state set_state_entered set_vconn set_name set_reliable set_txq
                  set_backoff set_max_backoff set_backoff_deadline set_last_received
                  set_last_connected set_packets_sent set_seqno set_probably_admitted
                  set_last_admitted set_packets_received set_n_attempted_connections
                  set_n_successful_connections set_total_time_connected
                  set_questionable_connectivity set_last_questioned set_probe_interval
                  set_local_ip set_remote_ip set_remote_port set_monitors
                  set_vconn_name core])).

(** Worlds whose rconn agrees on the fields the invariants read. *)
Definition same_core (w w' : world) : Prop := core (rc w') = core (rc w).

Lemma same_core_refl (w : world) : same_core w w.
Proof. reflexivity. Qed.

Lemma same_core_trans (w1 w2 w3 : world) :
  same_core w1 w2 -> same_core w2 w3 -> same_core w1 w3.
Proof. unfold same_core. congruence. Qed.

Lemma copy_to_monitor_core (b : ofpbuf) (w : world) :
  wp (copy_to_monitor b) (fun _ w' => same_core w w') w.
Proof.
  eapply wp_mono; [apply copy_to_monitor_frame |].
  intros ? w' ([ms Hrc] & _). unfold same_core. rewrite Hrc. reflexivity.
Qed.

Lemma counter_dec_opt_core (counter : option nat) (w : world) :
  wp (counter_dec_opt counter) (fun _ w' => rc w' = rc w) w.
Proof.
  eapply wp_mono; [apply counter_dec_opt_frame |]. intros ? w' [cs ->]. reflexivity.
Qed.

Lemma flush_loop_core (fuel : nat) :
  forall w, wp (flush_loop fuel) (fun _ w' => same_core w w') w.
Proof.
  induction fuel as [| fuel IH]; intros w; simpl flush_loop; wp_run;
    (destruct (txq (rc w)) as [| b rest]; wp_run; try apply same_core_refl).
  eapply wp_call; [apply counter_dec_opt_core |].
  intros [] w1 Hrc. simpl ofpbuf_delete. wp_run.
  eapply wp_mono; [apply IH |]. intros ? w' H. unfold same_core in *.
  rewrite H. fields. rewrite Hrc. reflexivity.
Qed.

Lemma flush_queue_core (w : world) : wp flush_queue (fun _ w' => same_core w w') w.
Proof.
  unfold flush_queue. wp_run. destruct (txq_n (rc w) =? 0); wp_run;
    [apply same_core_refl |].
  eapply wp_call; [apply flush_loop_core |]. intros [] w1 H. wp_run. exact H.
Qed.

Lemma wp_disconnect_tail (now : Z) (Q : unit -> world -> Prop) (w : world) :
  Q tt (with_rc (backoff_update now (rc w)) w) ->
  wp (modify (fun r =>
        if now >=? backoff_deadline r then set_backoff 1 r
        else set_backoff (MIN (max_backoff r) (MAX 1 (2 * backoff r))) r);;
      modify (fun r => set_backoff_deadline (to_time (now + backoff r)) r);;
      modify (state_transition now S_BACKOFF);;
      r' <- get;;
      when (to_time (now - last_connected r') >? 60) (modify (question_connectivity now)))
     Q w.
Proof.
  intros HQ. wp_run. unfold backoff_update in HQ. cbv zeta in HQ.
  destruct (to_time _ >? 60); wp_run; exact HQ.
Qed.

Lemma backoff_update_frame (now : Z) (r : rconn) :
  vconn (backoff_update now r) = vconn r
  /\ reliable (backoff_update now r) = reliable r
  /\ max_backoff (backoff_update now r) = max_backoff r
  /\ txq (backoff_update now r) = txq r.
Proof.
  unfold backoff_update; cbv zeta; destruct (to_time _ >? 60); fields;
    destruct (now >=? backoff_deadline r); fields; auto.
Qed.

Lemma backoff_update_core (now : Z) (r : rconn) :
  core (backoff_update now r)
  = (S_BACKOFF, vconn r, reliable r, backoff (backoff_update now r), max_backoff r).
Proof.
  unfold core. rewrite backoff_update_state.
  destruct (backoff_update_frame now r) as (-> & -> & -> & _). reflexivity.
Qed.

Lemma backoff_update_bounds (now : Z) (r : rconn) :
  1 <= max_backoff r -> 1 <= backoff (backoff_update now r) <= max_backoff r.
Proof.
  intros H. rewrite backoff_update_backoff, MIN_min, MAX_max.
  destruct (now >=? backoff_deadline r); lia.
Qed.

Section Invariants.
Variable strict : bool.

(** What [disconnect] needs of the rconn it is called on. *)
Definition pre_disconnect (r : rconn) : Prop :=
  (state_in (state r) open_mask = false -> vconn r = None)
  /\ (strict = true -> 1 <= max_backoff r).

Lemma INV_pre_disconnect (r : rconn) : INV strict r -> pre_disconnect r.
Proof.
  intros [[Hv _] Hb]. split; [apply Hv |]. intros Hs. now destruct (Hb Hs).
Qed.

Lemma INV_backoff_update (now : Z) (r : rconn) :
  vconn r = None -> reliable r = true -> (strict = true -> 1 <= max_backoff r) ->
  INV strict (backoff_update now r).
Proof.
  intros Hv Hr Hm. pose proof (backoff_update_core now r) as Hc.
  injection Hc as Hst Hvc Hrel Hmax.
  unfold INV, conn_inv, backoff_inv. rewrite Hst, Hvc, Hrel, Hmax.
  split; [split; [split; [reflexivity | intros _; exact Hv] | intros _; exact Hr] |].
  intros Hs. split; [auto |]. intros _. apply backoff_update_bounds. auto.
Qed.

Lemma rconn_disconnect_INV (w : world) :
  pre_disconnect (rc w) ->
  wp rconn_disconnect (fun _ w' =>
    INV strict (rc w') /\ state (rc w') = S_VOID
    /\ max_backoff (rc w') = max_backoff (rc w)) w.
Proof.
  intros [Hv Hm]. unfold rconn_disconnect. wp_run.
  destruct (state_eqb (state (rc w)) S_VOID) eqn:Hvoid; cbn [negb].
  - wp_run. apply state_eqb_eq in Hvoid.
    split; [| split; [assumption | reflexivity]].
    split; [split |].
    + split; [intros _; rewrite Hvoid; reflexivity | exact Hv].
    + rewrite Hvoid. intros [[=] | [=]].
    + intros Hs. split; [auto | rewrite Hvoid; intros [=]].
  - assert (Hrest : forall w1, vconn (rc w1) = None ->
              max_backoff (rc w1) = max_backoff (rc w) ->
      wp (modify (set_vconn_name "void");;
          modify (set_reliable false);;
          modify (set_backoff 0);;
          modify (set_backoff_deadline TIME_MIN);;
          now <- time_now;;
          modify (state_transition now S_VOID))
         (fun _ w' => INV strict (rc w') /\ state (rc w') = S_VOID
                      /\ max_backoff (rc w') = max_backoff (rc w)) w1).
    { intros w1 Hv1 Hm1. wp_run. unfold INV, conn_inv, backoff_inv. fields.
      split; [| split; [reflexivity | assumption]].
      split; [split |].
      - rewrite Hv1. split; reflexivity.
      - intros [[=] | [=]].
      - intros Hs. split; [rewrite Hm1; auto | intros [=]]. }
    eapply wp_call with
      (R := fun _ w1 => vconn (rc w1) = None /\ max_backoff (rc w1) = max_backoff (rc w)).
    + destruct (vconn (rc w)) as [v |] eqn:Hvc; simpl vconn_close; wp_run; auto.
    + intros [] w1 [Hv1 Hm1]. now apply Hrest.
Qed.

Lemma disconnect_INV (error : Z) (w : world) :
  pre_disconnect (rc w) ->
  wp (disconnect error) (fun _ w' => INV strict (rc w')) w.
Proof.
  intros Hpre. unfold disconnect. wp_run.
  destruct (reliable (rc w)) eqn:Hrel;
    [| eapply wp_mono; [apply rconn_disconnect_INV; exact Hpre | intros ? ? H; apply H]].
  wp_run. destruct Hpre as [Hv Hm].
  destruct (state_in (state (rc w)) open_mask) eqn:Hopen; wp_run.
  - eapply wp_call with (R := fun _ w1 => rc w1 = rc w).
    { destruct (vconn (rc w)); simpl vconn_close; wp_run; reflexivity. }
    intros [] w1 Hrc. wp_run.
    eapply wp_call; [apply flush_queue_core |].
    intros [] w2 Hcore. unfold same_core in Hcore. fields.
    rewrite Hrc in Hcore. unfold core in Hcore. fields. injection Hcore as Hs2 Hv2 Hr2 _ Hm2.
    wp_run; apply wp_next_backoff; apply wp_disconnect_tail. fields.
    apply INV_backoff_update; [congruence | congruence | rewrite Hm2; exact Hm].
  - wp_run; apply wp_next_backoff; apply wp_disconnect_tail. fields. apply INV_backoff_update; auto.
Qed.

Lemma try_send_INV (w : world) :
  INV strict (rc w) -> wp try_send (fun _ w' => INV strict (rc w')) w.
Proof.
  intros Hinv. unfold try_send. wp_run.
  destruct (txq (rc w)) as [| head next]; wp_run.
  unfold vconn_send. destruct (vconn (rc w)) as [v |] eqn:Hv; wp_run.
  destruct (negb (_ =? 0)).
  - destruct (negb (_ =? EAGAIN)); wp_run; [| exact Hinv].
    eapply wp_call; [apply disconnect_INV; fields; now apply INV_pre_disconnect |].
    intros [] w1 H1. wp_run. exact H1.
  - wp_run. eapply wp_call; [apply counter_dec_opt_core |].
    intros [] w1 Hrc. wp_run. rewrite Hrc. fields.
    eapply INV_core; [| exact Hinv]. reflexivity.
Qed.

Lemma tx_loop_INV (fuel : nat) :
  forall w, INV strict (rc w) -> wp (tx_loop fuel) (fun _ w' => INV strict (rc w')) w.
Proof.
  induction fuel as [| fuel IH]; intros w Hinv; simpl tx_loop; wp_run;
    (destruct (txq_n (rc w) >? 0); wp_run; try exact Hinv).
  eapply wp_call; [apply try_send_INV; exact Hinv |].
  intros e w1 H1. destruct (negb (e =? 0)); wp_run; [exact H1 | now apply IH].
Qed.

Lemma do_tx_work_INV (w : world) :
  INV strict (rc w) -> wp do_tx_work (fun _ w' => INV strict (rc w')) w.
Proof.
  intros Hinv. unfold do_tx_work. wp_run.
  destruct (txq_n (rc w) =? 0); wp_run; [exact Hinv |].
  eapply wp_call; [apply tx_loop_INV; exact Hinv |].
  intros [] w1 H1. wp_run. destruct (txq_n (rc w1) =? 0); wp_run; exact H1.
Qed.

Lemma rconn_send_INV (b : ofpbuf) (counter : option nat) (w : world) :
  INV strict (rc w) -> wp (rconn_send b counter) (fun _ w' => INV strict (rc w')) w.
Proof.
  intros Hinv. unfold rconn_send. wp_run.
  destruct (rconn_is_connected (rc w)); wp_run; [| exact Hinv].
  eapply wp_call; [apply copy_to_monitor_core |].
  intros [] w1 Hcore. cbv zeta.
  assert (H1 : INV strict (rc w1)) by (eapply INV_core; eauto).
  assert (Hpush : forall w2, rc w2 = rc w1 ->
    wp (modify (fun r => set_txq (txq r ++ [{| data := data b; private_p := counter |}]) r);;
        r' <- get;;
        when (txq_n r' =? 1) (_ <- try_send;; ret tt);;
        ret 0)
       (fun _ w' => INV strict (rc w')) w2).
  { intros w2 Hrc. wp_run. rewrite Hrc.
    assert (H3 : INV strict (set_txq (txq (rc w1) ++ [{| data := data b; private_p := counter |}])
                    (rc w1))) by (eapply INV_core; [| exact H1]; reflexivity).
    destruct (txq_n _ =? 1); wp_run; [| exact H3].
    eapply wp_call; [apply try_send_INV; exact H3 |].
    intros e w3 H. wp_run. exact H. }
  destruct counter as [c |].
  - unfold rconn_packet_counter_inc. apply wp_bind_assoc.
    apply wp_counter_load_bind. intros pc Hpc. wp_step. apply Hpush. reflexivity.
  - wp_step. apply Hpush. reflexivity.
Qed.

Lemma INV_stay_open (r r' : rconn) (s : rstate) :
  INV strict r -> state_in (state r) open_mask = true ->
  s = S_ACTIVE \/ s = S_IDLE ->
  core r' = (s, vconn r, reliable r, backoff r, max_backoff r) ->
  INV strict r'.
Proof.
  intros [[Hv Hr] Hb] Hopen Hs [= Hst Hvc Hrel Hbk Hmax].
  unfold INV, conn_inv, backoff_inv. rewrite Hst, Hvc, Hmax.
  split; [split |].
  - split; [intros H; apply Hv in H; congruence |].
    destruct Hs as [-> | ->]; discriminate.
  - destruct Hs as [-> | ->]; intros [[=] | [=]].
  - intros Hstrict. destruct (Hb Hstrict) as [Hm _].
    split; [assumption |]. destruct Hs as [-> | ->]; intros [=].
Qed.

Lemma rconn_recv_INV (w : world) :
  INV strict (rc w) -> wp rconn_recv (fun _ w' => INV strict (rc w')) w.
Proof.
  intros Hinv. unfold rconn_recv. wp_run.
  destruct (state_in (state (rc w)) connected_mask) eqn:Hconn; wp_run; [| exact Hinv].
  unfold vconn_recv. destruct (vconn (rc w)) as [v |]; wp_run.
  destruct (_ =? 0).
  - eapply wp_call; [apply copy_to_monitor_core |].
    intros [] w1 Hcore. wp_run.
    assert (H1 : INV strict (rc w1)) by (eapply INV_core; eauto).
    eapply wp_call with (R := fun _ w2 => w2 = w1).
    { destruct (probably_admitted (rc w1)); wp_run; [reflexivity |].
      unfold is_admitted_msg. destruct (ofp_type _); wp_run.
      destruct (admitted_type _); wp_run; reflexivity. }
    intros admitted w2 ->.
    eapply wp_call with (R := fun _ w2 => core (rc w2) = core (rc w1)).
    { destruct admitted; wp_run; reflexivity. }
    intros [] w2 H2. wp_run. fields.
    destruct (state_eqb (state (rc w2)) S_IDLE) eqn:Hidle; wp_run.
    + apply state_eqb_eq in Hidle.
      assert (H2' : INV strict (rc w2)) by (eapply INV_core; eauto).
      eapply INV_stay_open with (s := S_ACTIVE); [exact H2' | | auto |].
      * rewrite Hidle. reflexivity.
      * unfold core. fields. reflexivity.
    + eapply INV_core; [| exact H1]. rewrite <- H2. reflexivity.
  - destruct (negb _); wp_run; [| exact Hinv].
    eapply wp_call; [apply disconnect_INV; fields; now apply INV_pre_disconnect |].
    intros [] w1 H1. wp_run. exact H1.
Qed.

Lemma reconnect_INV (w : world) :
  reliable (rc w) = true -> (strict = true -> 1 <= max_backoff (rc w)) ->
  wp reconnect (fun _ w' => INV strict (rc w')) w.
Proof.
  intros Hrel Hmax. unfold reconnect, vconn_open. wp_run.
  destruct (a_retval (peer w (calls w)) =? 0); wp_run.
  - unfold INV, conn_inv, backoff_inv. fields.
    split; [split; [split; discriminate | auto] |].
    intros Hs. split; [auto | intros [=]].
  - eapply wp_call; [apply disconnect_INV |].
    + split; fields; auto.
    + intros [] w1 H1. wp_run. exact H1.
Qed.

Lemma run_state_INV (w : world) :
  INV strict (rc w) -> wp (run_state (state (rc w))) (fun _ w' => INV strict (rc w')) w.
Proof.
  intros Hinv. pose proof Hinv as [[Hv Hr] Hb].
  destruct (state (rc w)) eqn:Hst; simpl run_state.
  - unfold run_VOID. wp_run. exact Hinv.
  - unfold run_BACKOFF. wp_run. destruct (timed_out _ _); wp_run; [| exact Hinv].
    eapply wp_call; [apply reconnect_INV |].
    + apply Hr. auto.
    + intros Hs. now destruct (Hb Hs).
    + intros e w1 H1. wp_run. exact H1.
  - unfold run_CONNECTING, vconn_connect. wp_run.
    destruct (vconn (rc w)) as [v |] eqn:Hvc; wp_run.
    destruct (_ =? 0); wp_run.
    + eapply INV_stay_open with (r := rc w) (s := S_ACTIVE);
        [exact Hinv | rewrite Hst; reflexivity | auto |].
      unfold core. fields. rewrite Hvc. reflexivity.
    + destruct (negb _).
      * apply disconnect_INV. fields. now apply INV_pre_disconnect.
      * wp_run. destruct (timed_out _ _); wp_run; [| exact Hinv].
        apply disconnect_INV. destruct (INV_pre_disconnect _ Hinv). split; fields; auto.
  - unfold run_ACTIVE. wp_run. destruct (timed_out _ _); wp_run.
    + eapply wp_call; [apply rconn_send_INV |].
      * fields. eapply INV_stay_open with (r := rc w) (s := S_IDLE);
          [exact Hinv | rewrite Hst; reflexivity | auto |].
        unfold core. fields. reflexivity.
      * intros e w1 H1. wp_run. exact H1.
    + now apply do_tx_work_INV.
  - unfold run_IDLE. wp_run. destruct (timed_out _ _); wp_run.
    + apply disconnect_INV. fields. destruct (INV_pre_disconnect _ Hinv).
      split; fields; auto.
    + now apply do_tx_work_INV.
Qed.

Lemma rconn_run_INV (fuel : nat) :
  forall w, INV strict (rc w) -> wp (rconn_run fuel) (fun _ w' => INV strict (rc w')) w.
Proof.
  induction fuel as [| fuel IH]; intros w Hinv; simpl rconn_run; wp_run.
  cbv zeta. eapply wp_call; [apply run_state_INV; exact Hinv |].
  intros [] w1 H1. wp_run. destruct (negb _); wp_run; [now apply IH | exact H1].
Qed.

Lemma rconn_connect_INV (nm : string) (w : world) :
  INV strict (rc w) -> wp (rconn_connect nm) (fun _ w' => INV strict (rc w')) w.
Proof.
  intros Hinv. unfold rconn_connect.
  eapply wp_call; [apply rconn_disconnect_INV; now apply INV_pre_disconnect |].
  intros [] w1 ([_ Hb] & _ & _). wp_run.
  apply reconnect_INV; fields; [reflexivity |].
  intros Hs. now destruct (Hb Hs).
Qed.

Lemma rconn_connect_unreliably_INV (nm : string) (v : vconn_t) (w : world) :
  INV strict (rc w) ->
  wp (rconn_connect_unreliably nm v) (fun _ w' => INV strict (rc w')) w.
Proof.
  intros Hinv. unfold rconn_connect_unreliably.
  eapply wp_call; [apply rconn_disconnect_INV; now apply INV_pre_disconnect |].
  intros [] w1 ([_ Hb] & _ & _). wp_run.
  unfold INV, conn_inv, backoff_inv. fields.
  split; [split; [split; discriminate | intros [[=] | [=]]] |].
  intros Hs. destruct (Hb Hs). split; [assumption | intros [=]].
Qed.

Lemma rconn_set_max_backoff_INV (now m : Z) (r : rconn) :
  (strict = true -> 1 <= m) -> INV strict r -> INV strict (rconn_set_max_backoff now m r).
Proof.
  intros Hm [Hc Hb]. unfold rconn_set_max_backoff. cbv zeta. fields.
  split.
  - destruct (_ && _); [destruct (backoff_deadline r >? _) |]; exact Hc.
  - intros Hs. specialize (Hm Hs). destruct (Hb Hs) as [Hmax Hbk].
    assert (HM : MAX 1 m = m) by (rewrite MAX_max; lia).
    destruct (state_eqb (state r) S_BACKOFF && (backoff r >? m)) eqn:Hcond.
    + apply andb_true_iff in Hcond as [Hst Hgt]. apply state_eqb_eq in Hst.
      assert (Hset : backoff_inv (set_backoff m (set_max_backoff (MAX 1 m) r))).
      { unfold backoff_inv. fields. rewrite HM. split; [lia | intros _; lia]. }
      destruct (backoff_deadline r >? _); exact Hset.
    + unfold backoff_inv. fields. rewrite HM. split; [lia |].
      intros Hst. specialize (Hbk Hst).
      apply andb_false_iff in Hcond as [Hne | Hle].
      * apply state_eqb_eq in Hst. congruence.
      * rewrite Z.gtb_ltb in Hle. apply Z.ltb_ge in Hle. lia.
Qed.

Lemma exec_INV (c : call) (w : world) :
  call_ok strict c -> INV strict (rc w) -> wp (exec c) (fun _ w' => INV strict (rc w')) w.
Proof.
  intros Hok Hinv. destruct c; simpl exec; unfold discard.
  - eapply wp_call; [apply rconn_connect_INV; exact Hinv |]. intros; wp_run; assumption.
  - now apply rconn_connect_unreliably_INV.
  - unfold rconn_reconnect. wp_run. destruct (state_in _ _); wp_run; [| exact Hinv].
    apply disconnect_INV. now apply INV_pre_disconnect.
  - eapply wp_mono; [apply rconn_disconnect_INV; now apply INV_pre_disconnect |].
    intros ? ? H. apply H.
  - now apply rconn_run_INV.
  - eapply wp_call; [apply rconn_recv_INV; exact Hinv |]. intros; wp_run; assumption.
  - eapply wp_call; [apply rconn_send_INV; exact Hinv |]. intros; wp_run; assumption.
  - unfold rconn_send_with_limit. destruct counter as [k |]; wp_run.
    apply wp_counter_load_bind. intros pc Hpc. apply wp_bind_assoc.
    eapply wp_call with (R := fun _ w1 => INV strict (rc w1)).
    { destruct (_ >=? _); wp_run; [exact Hinv | now apply rconn_send_INV]. }
    intros e w1 H1. destruct (negb _); simpl when; wp_run; exact H1.
  - wp_run. apply rconn_set_max_backoff_INV; [apply Hok | exact Hinv].
  - wp_run. eapply INV_core; [| exact Hinv]. reflexivity.
  - unfold rconn_add_monitor. wp_run. destruct (_ <? _)%nat; simpl vconn_close; wp_run;
      [eapply INV_core; [| exact Hinv]; reflexivity | exact Hinv].
  - unfold rconn_is_connectivity_questionable. wp_run.
    eapply INV_core; [| exact Hinv]. reflexivity.
  - unfold wp, bind, rconn_packet_counter_create, ret. exact Hinv.
  - unfold rconn_packet_counter_destroy. destruct counter as [k |]; wp_run; [| exact Hinv].
    apply wp_counter_load_bind. intros pc Hpc. destruct (_ >? 0); wp_run.
    cbv zeta. wp_run. destruct (_ && _); wp_run; exact Hinv.
  - unfold wp, sleep. exact Hinv.
Qed.

Lemma rconn_create_INV (now probe_interval max_backoff : Z) :
  create_ok strict now probe_interval max_backoff ->
  INV strict (rconn_create now probe_interval max_backoff).
Proof.
  intros (_ & _ & _ & Hm). unfold rconn_create, rconn_set_probe_interval.
  unfold INV, conn_inv, backoff_inv. fields.
  split; [split; [split; reflexivity | intros [[=] | [=]]] |].
  intros Hs. split; [| intros [=]].
  destruct (Z.eqb_spec max_backoff 0); simpl; destruct (Hm Hs); lia.
Qed.

Theorem reachable_INV (w : world) : reachable_from strict w -> INV strict (rc w).
Proof.
  induction 1 as [p now pi mb Hok | w w' c _ IH Hc Hrun].
  - now apply rconn_create_INV.
  - exact (wp_Ok _ _ _ _ _ (exec_INV c w Hc IH) Hrun).
Qed.
End Invariants.

(** ** The bounds on the backoff *)

Ltac in_range :=
  unfold create_ok, call_ok, time_ok, int_ok, uint_ok,
    TIME_MIN, TIME_MAX, INT_MIN, INT_MAX, UINT_MAX;
  repeat split; try lia; try discriminate.

(** As long as every maximum backoff handed to the rconn is a documented
    value, the backoff of a waiting rconn lies between 1 and the maximum. *)
Lemma backoff_bounded_when_strict (w : world) :
  reachable_from true w -> state (rc w) = S_BACKOFF ->
  1 <= backoff (rc w) <= max_backoff (rc w).
Proof.
  intros Hreach Hst. destruct (reachable_INV true w Hreach) as [_ Hb].
  destruct (Hb eq_refl) as [_ H]. auto.
Qed.

(** Scenario 1, then the client lowers the maximum backoff to 0. *)
Definition w_clamped : world := after (exec (SetMaxBackoff 0)) w_backoff1.

(** Created with a negative maximum backoff, then connected to a peer that
    cannot be opened. *)
Definition w_negative : world :=
  after (exec (Connect "tcp:10.0.0.2")) (boot (peer_always 111) 100 0 (-3)).

Lemma reachable_w_backoff1 : reachable w_backoff1.
Proof.
  apply (reach_call false (boot (peer_always 111) 100 0 8) w_backoff1
           (Connect "tcp:10.0.0.2"));
    [apply reach_create; in_range | exact I | vm_compute; reflexivity].
Qed.

(** C3 fails on the code.  In BACKOFF with backoff 1,
    [rconn_set_max_backoff(rc, 0)] stores the clamped maximum 1 but compares
    and assigns the unclamped argument, leaving backoff 0; and
    [rconn_create] keeps a negative maximum as it is, after which the first
    failed connection attempt waits in BACKOFF with that negative backoff. *)
Theorem set_max_backoff_breaks_backoff_bound :
  (reachable w_clamped
   /\ state (rc w_clamped) = S_BACKOFF
   /\ backoff (rc w_clamped) = 0
   /\ max_backoff (rc w_clamped) = 1
   /\ ~ (1 <= backoff (rc w_clamped) <= max_backoff (rc w_clamped)))
  /\ (reachable w_negative
      /\ state (rc w_negative) = S_BACKOFF
      /\ backoff (rc w_negative) = -3
      /\ max_backoff (rc w_negative) = -3
      /\ ~ (1 <= backoff (rc w_negative) <= max_backoff (rc w_negative))).
Proof.
  split.
  - split; [| do 3 (split; [vm_compute; reflexivity |]);
               vm_compute; intros [H _]; apply H; reflexivity].
    apply (reach_call false w_backoff1 w_clamped (SetMaxBackoff 0));
      [exact reachable_w_backoff1 | in_range | vm_compute; reflexivity].
  - split; [| do 3 (split; [vm_compute; reflexivity |]);
               vm_compute; intros [H _]; apply H; reflexivity].
    apply (reach_call false (boot (peer_always 111) 100 0 (-3)) w_negative
             (Connect "tcp:10.0.0.2"));
      [apply reach_create; in_range | exact I | vm_compute; reflexivity].
Qed.

(** ** Timeouts with the probe disabled *)

(** With the probe disabled an ACTIVE rconn does not time out before the
    clock reaches [UINT_MAX], the value [timeout_ACTIVE] uses for "never". *)
Lemma active_probe_disabled (now : Z) (r : rconn) :
  state r = S_ACTIVE -> probe_interval r = 0 -> now < UINT_MAX ->
  timed_out now r = false.
Proof.
  intros Hst Hp Hnow. unfold timed_out, timeout. rewrite Hst.
  unfold timeout_ACTIVE. rewrite Hp. simpl negb. cbv iota.
  rewrite (sat_add_max _ (to_uint_range _)).
  rewrite Z.geb_leb. apply Z.leb_gt. exact Hnow.
Qed.

(** With the probe disabled an IDLE rconn has timed out as soon as it is
    looked at: [timeout_IDLE] is the probe interval itself, 0. *)
Lemma idle_probe_disabled (now : Z) (r : rconn) :
  state r = S_IDLE -> probe_interval r = 0 ->
  0 <= state_entered r <= now -> state_entered r <= UINT_MAX ->
  timed_out now r = true.
Proof.
  intros Hst Hp Hse Hu. unfold timed_out, timeout. rewrite Hst.
  unfold timeout_IDLE. rewrite Hp.
  assert (Hx : uint_ok (state_entered r)) by (unfold uint_ok; lia).
  rewrite (to_uint_exact _ Hx). unfold sat_add.
  change (to_uint 0) with 0. rewrite Z.add_0_r, (to_uint_exact _ Hx).
  replace (state_entered r >=? state_entered r) with true
    by (symmetry; apply Z.geb_le; lia).
  apply Z.geb_le. lia.
Qed.

(** The connection of [w_active] after 5 silent seconds: the probe has been
    sent and the rconn is IDLE. *)
Definition w_idle : world := after (rconn_run 3) (after (sleep 5) w_active).

(** The client then disables the probe. *)
Definition w_idle_no_probe : world := after (exec (SetProbeInterval 0)) w_idle.

Lemma reachable_w_active : reachable w_active.
Proof.
  apply (reach_call false w_connecting w_active (Run 3));
    [| exact I | vm_compute; reflexivity].
  apply (reach_call false (boot (peer_script [0; 0; 0; 0] EAGAIN) 100 5 8) w_connecting
           (Connect "tcp:10.0.0.2")); [| exact I | vm_compute; reflexivity].
  apply reach_create. in_range.
Qed.

Lemma reachable_w_idle_no_probe : reachable w_idle_no_probe.
Proof.
  apply (reach_call false w_idle w_idle_no_probe (SetProbeInterval 0));
    [| in_range | vm_compute; reflexivity].
  apply (reach_call false (after (sleep 5) w_active) w_idle (Run 3));
    [| exact I | vm_compute; reflexivity].
  apply (reach_call false w_active (after (sleep 5) w_active) (Sleep 5));
    [| exact I | vm_compute; reflexivity].
  exact reachable_w_active.
Qed.

(** C2 fails on the code for the IDLE half.  A reliable rconn that went IDLE
    with a probe interval of 5 and then had the probe disabled is in IDLE
    with [probe_interval = 0]; the very next [rconn_run], with no time
    passed, finds the IDLE timeout expired, closes the transport and goes to
    BACKOFF. *)
Theorem idle_timeout_fires_with_probe_disabled :
  reachable w_idle_no_probe
  /\ probe_interval (rc w_idle_no_probe) = 0
  /\ state (rc w_idle_no_probe) = S_IDLE
  /\ state_entered (rc w_idle_no_probe) = clock w_idle_no_probe
  /\ timed_out (clock w_idle_no_probe) (rc w_idle_no_probe) = true
  /\ exists w', rconn_run 3 w_idle_no_probe = Ok tt w'
       /\ state (rc w') = S_BACKOFF
       /\ vconn (rc w') = None
       /\ In (EvClose sample_vconn) (log w').
Proof.
  split; [exact reachable_w_idle_no_probe |].
  do 4 (split; [vm_compute; reflexivity |]).
  exists (after (rconn_run 3) w_idle_no_probe).
  do 3 (split; [vm_compute; reflexivity |]).
  vm_compute. left. reflexivity.
Qed.

(** ** The doubling of the backoff *)

(** A connection that flaps.  Two attempts fail, at times 100 and 101, the
    second leaving a backoff of 2 seconds; the third, at time 103, succeeds
    at once, and a second later, inside the backoff deadline of 105, the
    peer hangs up. *)
Definition w_flapping : world :=
  after (sleep 1)
    (after (rconn_run 3)
       (after (sleep 2)
          (after (rconn_run 3)
             (after (sleep 1)
                (after (rconn_connect "tcp:10.0.0.2")
                   (boot (peer_script [111; 111; 0; 0] EOF) 100 5 8)))))).

Lemma disconnect_backoff_policy_witness :
  state (rc w_flapping) = S_ACTIVE /\ backoff (rc w_flapping) = 2
  /\ clock w_flapping = 104 /\ backoff_deadline (rc w_flapping) = 105
  /\ exists w', disconnect EOF w_flapping = Ok tt w'
       /\ state (rc w') = S_BACKOFF /\ backoff (rc w') = 4
       /\ backoff_deadline (rc w') = 108.
Proof.
  do 4 (split; [vm_compute; reflexivity |]).
  destruct (disconnect_backoff_policy EOF w_flapping)
    as (w' & Hrun & _ & H2 & Hd & Hst).
  - vm_compute. reflexivity.
  - apply charges_ok_nil.
  - right. vm_compute. split; discriminate.
  - exists w'. split; [exact Hrun |]. split; [exact Hst |].
    assert (Hb : backoff (rc w') = 4) by (rewrite H2; vm_compute; reflexivity).
    split; [exact Hb |]. rewrite Hd; rewrite Hb; vm_compute; [reflexivity |].
    split; discriminate.
Defined.

(** ** The CONNECTING timeout *)

(** X21: the CONNECTING timeout doubles the backoff where the double is
    defined.  In every reachable world in CONNECTING, when the transport's
    connect answers try-again, the state has timed out and [int] holds
    [2 * backoff], [run_CONNECTING] returns in BACKOFF with the backoff
    doubled, [min(max_backoff, max(1, 2 * backoff))], and not reset to 1:
    the deadline was set to [TIME_MAX], which the clock has not reached.  A
    backoff of at least 1 under a maximum of at least 2 so becomes at least
    2. *)
Theorem connecting_timeout_doubles_backoff (w : world) :
  reachable w ->
  state (rc w) = S_CONNECTING ->
  a_retval (peer w (calls w)) = EAGAIN ->
  timed_out (clock w) (rc w) = true ->
  clock w < TIME_MAX ->
  charges_ok (counters w) (txq (rc w)) ->
  int_ok (2 * backoff (rc w)) ->
  exists w', run_state (state (rc w)) w = Ok tt w'
    /\ state (rc w') = S_BACKOFF
    /\ backoff (rc w')
       = Z.min (max_backoff (rc w)) (Z.max 1 (2 * backoff (rc w)))
    /\ (1 <= backoff (rc w) -> 2 <= max_backoff (rc w) -> 2 <= backoff (rc w'))
    /\ (time_ok (clock w + backoff (rc w')) ->
        backoff_deadline (rc w') = clock w + backoff (rc w')).
Proof.
  intros Hreach Hst Hans Hto Hnow Hok Hint.
  destruct (reachable_INV false w Hreach) as [[Hv Hr] _].
  assert (Hrel : reliable (rc w) = true) by (apply Hr; auto).
  destruct (vconn (rc w)) as [v |] eqn:Hvc;
    [| destruct Hv as [Hv _]; specialize (Hv eq_refl); rewrite Hst in Hv; discriminate].
  set (w1 := with_log (EvConnect v EAGAIN :: log w) (with_calls (S (calls w)) w)).
  set (w2 := with_rc (set_backoff_deadline TIME_MAX (rc w)) w1).
  destruct (disconnect_reliable 0 w2 Hrel Hok) as (w3 & Hrun & Hrc & _);
    [right; exact Hint |].
  exists (with_rc (backoff_update (clock w2) (rc w3)) w3).
  split.
  - rewrite <- Hrun, Hst. simpl run_state.
    unfold run_CONNECTING, bind, get. rewrite Hvc.
    unfold vconn_connect, bind, ask, emit, ret, time_now.
    cbn [rc clock peer calls log with_rc with_log with_calls].
    rewrite Hans. change (EAGAIN =? 0) with false. change (EAGAIN =? EAGAIN) with true.
    cbn [negb rc with_rc with_log with_calls]. rewrite Hto. reflexivity.
  - cbn [rc with_rc].
    rewrite backoff_update_state, backoff_update_backoff_deadline, backoff_update_backoff.
    rewrite Hrc. destruct (closed_backoff_fields (rc w2)) as (-> & -> & ->).
    subst w2 w1. cbn [rc clock with_rc with_log with_calls backoff max_backoff
                      backoff_deadline set_backoff_deadline].
    replace (clock w >=? TIME_MAX) with false
      by (symmetry; rewrite Z.geb_leb; apply Z.leb_gt; exact Hnow).
    rewrite MIN_min, MAX_max.
    split; [reflexivity |]. split; [reflexivity |]. split; [lia |].
    intros Ht. now apply to_time_exact.
Qed.

(** The second attempt of a connection stalls: the first open failed at
    time 100, leaving a backoff of 1 second; the open at time 101 succeeded,
    and a second later the handshake is still in progress. *)
Definition w_connect_pending : world :=
  after (sleep 1)
    (after (rconn_run 3)
       (after (sleep 1)
          (after (rconn_connect "tcp:10.0.0.2")
             (boot (peer_script [111; 0] EAGAIN) 100 0 8)))).

Lemma reachable_w_connect_pending : reachable w_connect_pending.
Proof.
  set (w0 := boot (peer_script [111; 0] EAGAIN) 100 0 8).
  set (w1 := after (rconn_connect "tcp:10.0.0.2") w0).
  set (w2 := after (sleep 1) w1).
  set (w3 := after (rconn_run 3) w2).
  apply (reach_call false w3 w_connect_pending (Sleep 1));
    [| exact I | vm_compute; reflexivity].
  apply (reach_call false w2 w3 (Run 3)); [| exact I | vm_compute; reflexivity].
  apply (reach_call false w1 w2 (Sleep 1)); [| exact I | vm_compute; reflexivity].
  apply (reach_call false w0 w1 (Connect "tcp:10.0.0.2"));
    [| exact I | vm_compute; reflexivity].
  apply reach_create. in_range.
Qed.

Lemma connecting_timeout_doubles_backoff_witness :
  backoff (rc w_connect_pending) = 1
  /\ exists w', run_state (state (rc w_connect_pending)) w_connect_pending = Ok tt w'
       /\ state (rc w') = S_BACKOFF
       /\ backoff (rc w') = 2.
Proof.
  split; [vm_compute; reflexivity |].
  destruct (connecting_timeout_doubles_backoff w_connect_pending)
    as (w' & Hrun & Hst & Hb & _).
  - exact reachable_w_connect_pending.
  - vm_compute. reflexivity.
  - vm_compute. reflexivity.
  - vm_compute. reflexivity.
  - vm_compute. reflexivity.
  - apply charges_ok_nil.
  - vm_compute. split; discriminate.
  - exists w'. split; [exact Hrun |]. split; [exact Hst |].
    rewrite Hb. vm_compute. reflexivity.
Defined.

(** ** Where the doubling overflows *)

(** [seconds] pass, as in [sleep], with the seconds in binary. *)
Definition pass (seconds : Z) : M unit :=
  fun w => Ok tt (with_clock (clock w + Z.max 0 seconds) w).

Lemma pass_sleep (seconds : Z) (w : world) : sleep (Z.to_nat seconds) w = pass seconds w.
Proof. unfold sleep, pass. do 2 f_equal. lia. Qed.

Lemma pass_reachable (strict : bool) (seconds : Z) (w w' : world) :
  reachable_from strict w -> pass seconds w = Ok tt w' -> reachable_from strict w'.
Proof.
  intros Hreach Hrun.
  apply (reach_call strict w w' (Sleep (Z.to_nat seconds))); [exact Hreach | exact I |].
  change (sleep (Z.to_nat seconds) w = Ok tt w'). now rewrite pass_sleep.
Qed.

(** [n] times over: wait for the backoff to pass, then run. *)
Fixpoint wait_and_run (n : nat) : M unit :=
  match n with
  | O => ret tt
  | S n' =>
      r <- get;;
      pass (backoff r);;
      rconn_run 3;;
      wait_and_run n'
  end.

Lemma wait_and_run_S (n : nat) (w : world) :
  wait_and_run (S n) w
  = match rconn_run 3 (with_clock (clock w + Z.max 0 (backoff (rc w))) w) with
    | Ok _ w' => wait_and_run n w'
    | Crash f => Crash f
    end.
Proof. reflexivity. Qed.

Lemma wait_and_run_reachable (strict : bool) (n : nat) :
  forall w w', reachable_from strict w -> wait_and_run n w = Ok tt w' ->
    reachable_from strict w'.
Proof.
  induction n as [| n IH]; intros w w' Hreach Hrun.
  - injection Hrun as <-. exact Hreach.
  - rewrite wait_and_run_S in Hrun.
    destruct (rconn_run 3 _) as [[] w2 | f] eqn:E2 in Hrun; [| discriminate].
    apply (IH w2 w'); [| exact Hrun].
    eapply (reach_call strict _ w2 (Run 3)); [| exact I | exact E2].
    now apply (pass_reachable strict (backoff (rc w)) w).
Qed.

(** A client that sets no limit on the backoff to speak of, and a peer that
    refuses its first 31 connections: the backoff is then 2^30 seconds. *)
Definition refused (then_ : list Z) (at_last : Z) : world :=
  after (rconn_connect "tcp:10.0.0.2")
    (boot (peer_script (repeat 111 31 ++ then_) at_last) 100 0 INT_MAX).

Lemma refused_reachable (strict : bool) (then_ : list Z) (at_last : Z) :
  reachable_from strict (refused then_ at_last).
Proof.
  apply (reach_call strict (boot (peer_script (repeat 111 31 ++ then_) at_last) 100 0 INT_MAX)
           _ (Connect "tcp:10.0.0.2")); [| exact I | vm_compute; reflexivity].
  apply reach_create. unfold create_ok, time_ok, int_ok, TIME_MIN, TIME_MAX, INT_MIN, INT_MAX.
  repeat split; lia.
Qed.

(** The 32nd connection is accepted at once, after 34 years. *)
Definition w_flapping_late : world := after (wait_and_run 31) (refused [0; 0] EOF).

(** The 32nd connection is opened, and a backoff later the handshake is
    still in progress. *)
Definition w_stalled_late : world :=
  after (r <- get;; pass (backoff r)) (after (wait_and_run 31) (refused [0] EAGAIN)).

Lemma reachable_w_flapping_late (strict : bool) : reachable_from strict w_flapping_late.
Proof.
  apply (wait_and_run_reachable strict 31 (refused [0; 0] EOF));
    [apply refused_reachable | vm_compute; reflexivity].
Qed.

Lemma reachable_w_stalled_late (strict : bool) : reachable_from strict w_stalled_late.
Proof.
  apply (pass_reachable strict (2 ^ 30) (after (wait_and_run 31) (refused [0] EAGAIN)));
    [| vm_compute; reflexivity].
  apply (wait_and_run_reachable strict 31 (refused [0] EAGAIN));
    [apply refused_reachable | vm_compute; reflexivity].
Qed.

(** C1 fails on the code where [int] does not hold the double of the
    backoff: [disconnect] doubles before it clamps.  With the maximum
    backoff at [INT_MAX], a documented value, and 31 connections refused,
    the backoff is 2^30; when the next connection is accepted and the peer
    hangs up before the backoff deadline, [disconnect] computes
    [2 * backoff] in [int], which C leaves undefined: the new backoff
    [min(max_backoff, max(1, 2 * backoff))], here [INT_MAX], does not come
    of it. *)
Theorem disconnect_doubling_overflows :
  reachable_from true w_flapping_late
  /\ state (rc w_flapping_late) = S_ACTIVE
  /\ reliable (rc w_flapping_late) = true
  /\ txq (rc w_flapping_late) = []
  /\ clock w_flapping_late < backoff_deadline (rc w_flapping_late)
  /\ backoff (rc w_flapping_late) = 2 ^ 30
  /\ max_backoff (rc w_flapping_late) = INT_MAX
  /\ Z.min (max_backoff (rc w_flapping_late)) (Z.max 1 (2 * backoff (rc w_flapping_late)))
     = INT_MAX
  /\ disconnect EOF w_flapping_late = Crash SignedOverflow
  /\ rconn_recv w_flapping_late = Crash SignedOverflow
  /\ ~ (exists w', disconnect EOF w_flapping_late = Ok tt w'
          /\ backoff (rc w')
             = Z.min (max_backoff (rc w_flapping_late))
                 (Z.max 1 (2 * backoff (rc w_flapping_late)))).
Proof.
  split; [exact (reachable_w_flapping_late true) |].
  do 9 (split; [vm_compute; reflexivity |]).
  intros (w' & Hrun & _). revert Hrun. vm_compute. discriminate.
Qed.

(** C4 fails on the code in the same place.  With the backoff at 2^30 the
    32nd connection is opened and its handshake does not finish within the
    timeout: every premise of the claim holds, and [run_CONNECTING] calls
    [disconnect], whose [2 * backoff] overflows [int]; the doubled backoff
    [min(max_backoff, max(1, 2 * backoff))], here [INT_MAX], does not come
    of it. *)
Theorem connecting_timeout_overflows :
  reachable_from true w_stalled_late
  /\ state (rc w_stalled_late) = S_CONNECTING
  /\ a_retval (peer w_stalled_late (calls w_stalled_late)) = EAGAIN
  /\ timed_out (clock w_stalled_late) (rc w_stalled_late) = true
  /\ clock w_stalled_late < TIME_MAX
  /\ txq (rc w_stalled_late) = []
  /\ backoff (rc w_stalled_late) = 2 ^ 30
  /\ max_backoff (rc w_stalled_late) = INT_MAX
  /\ Z.min (max_backoff (rc w_stalled_late)) (Z.max 1 (2 * backoff (rc w_stalled_late)))
     = INT_MAX
  /\ run_state (state (rc w_stalled_late)) w_stalled_late = Crash SignedOverflow
  /\ rconn_run 3 w_stalled_late = Crash SignedOverflow
  /\ ~ (exists w', run_state (state (rc w_stalled_late)) w_stalled_late = Ok tt w'
          /\ state (rc w') = S_BACKOFF
          /\ backoff (rc w')
             = Z.min (max_backoff (rc w_stalled_late))
                 (Z.max 1 (2 * backoff (rc w_stalled_late)))).
Proof.
  split; [exact (reachable_w_stalled_late true) |].
  do 10 (split; [vm_compute; reflexivity |]).
  intros (w' & Hrun & _). revert Hrun. vm_compute. discriminate.
Qed.

(** ** The cached addresses *)

Definition addresses (r : rconn) : Z * Z * Z := (local_ip r, remote_ip r, remote_port r).

Definition vconn_addresses (v : vconn_t) : Z * Z * Z :=
  (v_local_ip v, v_remote_ip v, v_remote_port v).

(** From [w] to [w'] a reliable rconn stays reliable, and its cached
    addresses are the ones it had, or those of a transport that a successful
    [vconn_open] yielded in between. *)
Definition retained (w w' : world) : Prop :=
  exists l, log w' = l ++ log w
    /\ (reliable (rc w) = true ->
        reliable (rc w') = true
        /\ (addresses (rc w') = addresses (rc w)
            \/ exists nm v, In (EvOpen nm 0 (Some v)) l
                 /\ addresses (rc w') = vconn_addresses v)).

Lemma retained_same (w w' : world) :
  (exists l, log w' = l ++ log w) ->
  reliable (rc w') = reliable (rc w) -> addresses (rc w') = addresses (rc w) ->
  retained w w'.
Proof.
  intros [l Hl] Hr Ha. exists l. split; [assumption |]. intros H. split; [congruence | auto].
Qed.

Lemma retained_refl (w : world) : retained w w.
Proof. apply retained_same; auto. now exists []. Qed.

Lemma retained_trans (w1 w2 w3 : world) :
  retained w1 w2 -> retained w2 w3 -> retained w1 w3.
Proof.
  intros (l1 & Hl1 & H1) (l2 & Hl2 & H2). exists (l2 ++ l1).
  split; [rewrite Hl2, Hl1, app_assoc; reflexivity |].
  intros Hr. destruct (H1 Hr) as [Hr2 Ha1]. destruct (H2 Hr2) as [Hr3 Ha2].
  split; [assumption |].
  destruct Ha2 as [Hsame | (nm & v & Hin & Hv)].
  - destruct Ha1 as [Hsame1 | (nm & v & Hin & Hv)]; [left; congruence |].
    right. exists nm, v. split; [apply in_or_app; auto | congruence].
  - right. exists nm, v. split; [apply in_or_app; auto | assumption].
Qed.

Ltac log_ext :=
  first [ now exists []
        | eexists [_]; reflexivity
        | eexists [_; _]; reflexivity
        | eexists [_; _; _]; reflexivity ].

(** An rconn step that assigns neither [reliable] nor an address. *)
Ltac retained_step := apply retained_same; fields; [log_ext | reflexivity | reflexivity].

Ltac retained_chain := cbv beta in *; eapply retained_trans; eauto.

Lemma wp_conj {A : Type} (m : M A) (Q1 Q2 : A -> world -> Prop) (w : world) :
  wp m Q1 w -> wp m Q2 w -> wp m (fun a w' => Q1 a w' /\ Q2 a w') w.
Proof. unfold wp. destruct (m w); auto. Qed.

Lemma backoff_update_addresses (now : Z) (r : rconn) :
  addresses (backoff_update now r) = addresses r.
Proof.
  unfold addresses, backoff_update. cbv zeta.
  destruct (to_time _ >? 60).
  - destruct (question_connectivity_addresses now
      (state_transition now S_BACKOFF
         (set_backoff_deadline
            (to_time (now + backoff
               (if now >=? backoff_deadline r then set_backoff 1 r
                else set_backoff (MIN (max_backoff r) (MAX 1 (2 * backoff r))) r)))
            (if now >=? backoff_deadline r then set_backoff 1 r
             else set_backoff (MIN (max_backoff r) (MAX 1 (2 * backoff r))) r))))
      as (-> & -> & ->).
    destruct (state_transition_addresses now S_BACKOFF
      (set_backoff_deadline
         (to_time (now + backoff
            (if now >=? backoff_deadline r then set_backoff 1 r
             else set_backoff (MIN (max_backoff r) (MAX 1 (2 * backoff r))) r)))
         (if now >=? backoff_deadline r then set_backoff 1 r
          else set_backoff (MIN (max_backoff r) (MAX 1 (2 * backoff r))) r)))
      as (-> & -> & ->).
    destruct (now >=? backoff_deadline r); reflexivity.
  - destruct (state_transition_addresses now S_BACKOFF
      (set_backoff_deadline
         (to_time (now + backoff
            (if now >=? backoff_deadline r then set_backoff 1 r
             else set_backoff (MIN (max_backoff r) (MAX 1 (2 * backoff r))) r)))
         (if now >=? backoff_deadline r then set_backoff 1 r
          else set_backoff (MIN (max_backoff r) (MAX 1 (2 * backoff r))) r)))
      as (-> & -> & ->).
    destruct (now >=? backoff_deadline r); reflexivity.
Qed.

Lemma flush_loop_rc (fuel : nat) :
  forall w, wp (flush_loop fuel) (fun _ w' => exists q, rc w' = set_txq q (rc w)) w.
Proof.
  induction fuel as [| fuel IH]; intros w; simpl flush_loop; wp_run;
    (destruct (txq (rc w)) as [| b rest] eqn:Hq; wp_run;
     try (exists []; rewrite <- Hq, set_txq_same; reflexivity)).
  eapply wp_call; [apply counter_dec_opt_core |].
  intros [] w1 Hrc. simpl ofpbuf_delete. wp_run.
  eapply wp_mono; [apply IH |]. intros ? w' [q H]. exists q.
  rewrite H. fields. rewrite Hrc. reflexivity.
Qed.

Lemma flush_queue_rc (w : world) :
  wp flush_queue (fun _ w' => exists q, rc w' = set_txq q (rc w)) w.
Proof.
  unfold flush_queue. wp_run. destruct (txq_n (rc w) =? 0); wp_run.
  - exists (txq (rc w)). now rewrite set_txq_same.
  - eapply wp_call; [apply flush_loop_rc |]. intros [] w1 H. wp_run. exact H.
Qed.

Lemma disconnect_addresses (error : Z) (w : world) :
  wp (disconnect error) (fun _ w' =>
    reliable (rc w) = true ->
    reliable (rc w') = true /\ addresses (rc w') = addresses (rc w)) w.
Proof.
  unfold disconnect. wp_run.
  destruct (reliable (rc w)) eqn:Hrel;
    [| unfold wp; destruct (rconn_disconnect w); [discriminate | exact I]].
  wp_run.
  assert (Htail : forall w1, reliable (rc w1) = true -> addresses (rc w1) = addresses (rc w) ->
    wp (modify (fun r =>
          if clock w >=? backoff_deadline r then set_backoff 1 r
          else set_backoff (MIN (max_backoff r) (MAX 1 (2 * backoff r))) r);;
        modify (fun r => set_backoff_deadline (to_time (clock w + backoff r)) r);;
        modify (state_transition (clock w) S_BACKOFF);;
        r' <- get;;
        when (to_time (clock w - last_connected r') >? 60)
          (modify (question_connectivity (clock w))))
       (fun _ w' => true = true ->
          reliable (rc w') = true /\ addresses (rc w') = addresses (rc w)) w1).
  { intros w1 Hr Ha. apply wp_disconnect_tail. fields. intros _.
    rewrite backoff_update_addresses.
    destruct (backoff_update_frame (clock w) (rc w1)) as (_ & -> & _). auto. }
  destruct (state_in (state (rc w)) open_mask); wp_run;
    [| apply wp_next_backoff; now apply Htail].
  eapply wp_call with (R := fun _ w1 => rc w1 = rc w).
  { destruct (vconn (rc w)); simpl vconn_close; wp_run; reflexivity. }
  intros [] w1 Hrc. wp_run.
  eapply wp_call; [apply flush_queue_rc |].
  intros [] w2 [q Hq]. wp_run. apply wp_next_backoff.
  apply Htail; fields; rewrite Hq, Hrc; fields; auto.
Qed.

Lemma disconnect_retains (error : Z) (w : world) :
  wp (disconnect error) (fun _ w' => retained w w') w.
Proof.
  eapply wp_mono;
    [apply wp_conj; [apply disconnect_accounts | apply disconnect_addresses] |].
  intros ? w' [(l & Hl & _) Ha]. exists l. split; [assumption |].
  intros Hr. destruct (Ha Hr). auto.
Qed.

Lemma retained_of_monitors_only (w w' : world) : monitors_only w w' -> retained w w'.
Proof.
  intros ([ms Hrc] & _ & _ & _ & _ & Hl).
  apply retained_same; [assumption | |]; rewrite Hrc; reflexivity.
Qed.

Lemma try_send_retains (w : world) : wp try_send (fun _ w' => retained w w') w.
Proof.
  unfold try_send. wp_run. destruct (txq (rc w)) as [| head next]; wp_run.
  unfold vconn_send. destruct (vconn (rc w)) as [v |]; wp_run.
  set (w1 := with_log _ _).
  assert (H1 : retained w w1) by (subst w1; retained_step).
  destruct (negb (_ =? 0)).
  - destruct (negb (_ =? EAGAIN)); wp_run; [| exact H1].
    eapply wp_call; [apply disconnect_retains |].
    intros [] w2 H2. wp_run. retained_chain.
  - wp_run. eapply wp_call; [apply counter_dec_opt_frame |].
    intros [] w2 [cs ->]. wp_run. retained_step.
Qed.

Lemma tx_loop_retains (fuel : nat) :
  forall w, wp (tx_loop fuel) (fun _ w' => retained w w') w.
Proof.
  induction fuel as [| fuel IH]; intros w; simpl tx_loop; wp_run;
    (destruct (txq_n (rc w) >? 0); wp_run; try apply retained_refl).
  eapply wp_call; [apply try_send_retains |].
  intros e w1 H1. destruct (negb (e =? 0)); wp_run; [exact H1 |].
  eapply wp_mono; [apply IH |]. intros ? w2 H2. retained_chain.
Qed.

Lemma do_tx_work_retains (w : world) : wp do_tx_work (fun _ w' => retained w w') w.
Proof.
  unfold do_tx_work. wp_run. destruct (txq_n (rc w) =? 0); wp_run; [apply retained_refl |].
  eapply wp_call; [apply tx_loop_retains |].
  intros [] w1 H1. wp_run. destruct (txq_n (rc w1) =? 0); wp_run; [| exact H1].
  eapply retained_trans; [exact H1 | retained_step].
Qed.

Lemma rconn_send_retains (b : ofpbuf) (counter : option nat) (w : world) :
  wp (rconn_send b counter) (fun _ w' => retained w w') w.
Proof.
  unfold rconn_send. wp_run.
  destruct (rconn_is_connected (rc w)); wp_run; [| apply retained_refl].
  eapply wp_call; [apply copy_to_monitor_frame |].
  intros [] w1 Hmon. apply retained_of_monitors_only in Hmon. cbv zeta.
  assert (Hpush : forall w2, retained w w2 ->
    wp (modify (fun r => set_txq (txq r ++ [{| data := data b; private_p := counter |}]) r);;
        r' <- get;;
        when (txq_n r' =? 1) (_ <- try_send;; ret tt);;
        ret 0)
       (fun _ w' => retained w w') w2).
  { intros w2 H2. wp_run. set (w3 := with_rc _ w2).
    assert (H3 : retained w w3).
    { eapply retained_trans; [exact H2 | subst w3; retained_step]. }
    destruct (txq_n _ =? 1); wp_run; [| exact H3].
    eapply wp_call; [apply try_send_retains |].
    intros e w4 H4. wp_run. retained_chain. }
  destruct counter as [c |].
  - unfold rconn_packet_counter_inc. apply wp_bind_assoc.
    apply wp_counter_load_bind. intros pc Hpc. wp_step. apply Hpush.
    eapply retained_trans; [exact Hmon | retained_step].
  - wp_step. now apply Hpush.
Qed.

Lemma state_transition_local_ip now s r :
  local_ip (state_transition now s r) = local_ip r.
Proof. apply state_transition_addresses. Qed.
Lemma state_transition_remote_ip now s r :
  remote_ip (state_transition now s r) = remote_ip r.
Proof. apply state_transition_addresses. Qed.
Lemma state_transition_remote_port now s r :
  remote_port (state_transition now s r) = remote_port r.
Proof. apply state_transition_addresses. Qed.
Lemma question_connectivity_local_ip now r :
  local_ip (question_connectivity now r) = local_ip r.
Proof. apply question_connectivity_addresses. Qed.
Lemma question_connectivity_remote_ip now r :
  remote_ip (question_connectivity now r) = remote_ip r.
Proof. apply question_connectivity_addresses. Qed.
Lemma question_connectivity_remote_port now r :
  remote_port (question_connectivity now r) = remote_port r.
Proof. apply question_connectivity_addresses. Qed.

#[global] Hint Rewrite
  state_transition_local_ip state_transition_remote_ip state_transition_remote_port
  question_connectivity_local_ip question_connectivity_remote_ip
  question_connectivity_remote_port : rconn_fields.

Ltac retained_fields := unfold addresses; fields.

Lemma rconn_recv_retains (w : world) : wp rconn_recv (fun _ w' => retained w w') w.
Proof.
  unfold rconn_recv. wp_run.
  destruct (state_in (state (rc w)) connected_mask); wp_run; [| apply retained_refl].
  unfold vconn_recv. destruct (vconn (rc w)) as [v |]; wp_run.
  set (w0 := with_log _ _).
  assert (H0 : retained w w0) by (subst w0; retained_step).
  destruct (_ =? 0).
  - eapply wp_call; [apply copy_to_monitor_frame |].
    intros [] w1 Hmon. apply retained_of_monitors_only in Hmon.
    assert (H1 : retained w w1) by retained_chain.
    wp_run.
    eapply wp_call with (R := fun _ w2 => w2 = w1).
    { destruct (probably_admitted (rc w1)); wp_run; [reflexivity |].
      unfold is_admitted_msg. destruct (ofp_type _); wp_run.
      destruct (admitted_type _); wp_run; reflexivity. }
    intros admitted w2 ->.
    eapply wp_call with (R := fun _ w2 => retained w1 w2).
    { destruct admitted; wp_run; [retained_step | apply retained_refl]. }
    intros [] w2 H2. wp_run.
    destruct (state_eqb _ S_IDLE); wp_run;
      (eapply retained_trans; [exact H1 |]); (eapply retained_trans; [exact H2 |]);
      apply retained_same; retained_fields; solve [log_ext | reflexivity].
  - destruct (negb _); wp_run; [| exact H0].
    eapply wp_call; [apply disconnect_retains |].
    intros [] w1 H1. wp_run. retained_chain.
Qed.

Lemma reconnect_retains (w : world) : wp reconnect (fun _ w' => retained w w') w.
Proof.
  unfold reconnect, vconn_open. wp_run. cbv zeta. wp_run.
  destruct (Z.eqb_spec (a_retval (peer w (calls w))) 0) as [Hret | Hne]; wp_run.
  - eexists [_]. split; [reflexivity |]. fields. intros Hr. split; [exact Hr |].
    right. exists (name (rc w)), (a_vconn (peer w (calls w))).
    split; [left; now rewrite Hret |]. retained_fields. reflexivity.
  - set (w1 := with_rc _ _).
    assert (H1 : retained w w1).
    { subst w1. apply retained_same; retained_fields; solve [log_ext | reflexivity]. }
    eapply wp_call; [apply disconnect_retains |].
    intros [] w2 H2. wp_run. retained_chain.
Qed.

Lemma run_state_retains (s : rstate) (w : world) :
  wp (run_state s) (fun _ w' => retained w w') w.
Proof.
  destruct s; simpl run_state.
  - unfold run_VOID. wp_run. apply retained_refl.
  - unfold run_BACKOFF. wp_run. destruct (timed_out _ _); wp_run; [| apply retained_refl].
    eapply wp_call; [apply reconnect_retains |]. intros e w1 H1. wp_run. exact H1.
  - unfold run_CONNECTING, vconn_connect. wp_run.
    destruct (vconn (rc w)) as [v |]; wp_run.
    set (w0 := with_log _ _).
    assert (H0 : retained w w0) by (subst w0; retained_step).
    destruct (_ =? 0); wp_run.
    + eapply retained_trans; [exact H0 |].
      apply retained_same; retained_fields; solve [log_ext | reflexivity].
    + destruct (negb _).
      * eapply wp_mono; [apply disconnect_retains |]. intros ? w1 H1. retained_chain.
      * wp_run. destruct (timed_out _ _); wp_run; [| exact H0].
        set (w1 := with_rc _ w0).
        assert (H1 : retained w w1).
        { eapply retained_trans; [exact H0 | subst w1; retained_step]. }
        eapply wp_mono; [apply disconnect_retains |]. intros ? w2 H2. retained_chain.
  - unfold run_ACTIVE. wp_run. destruct (timed_out _ _); wp_run.
    + set (w1 := with_rc _ w).
      assert (H1 : retained w w1).
      { subst w1. apply retained_same; retained_fields; solve [log_ext | reflexivity]. }
      eapply wp_call; [apply rconn_send_retains |].
      intros e w2 H2. wp_run. retained_chain.
    + apply do_tx_work_retains.
  - unfold run_IDLE. wp_run. destruct (timed_out _ _); wp_run.
    + set (w1 := with_rc _ w).
      assert (H1 : retained w w1).
      { subst w1. apply retained_same; retained_fields; solve [log_ext | reflexivity]. }
      eapply wp_mono; [apply disconnect_retains |]. intros ? w2 H2. retained_chain.
    + apply do_tx_work_retains.
Qed.

Lemma rconn_run_retains (fuel : nat) :
  forall w, wp (rconn_run fuel) (fun _ w' => retained w w') w.
Proof.
  induction fuel as [| fuel IH]; intros w; simpl rconn_run; wp_run.
  cbv zeta. eapply wp_call; [apply run_state_retains |].
  intros [] w1 H1. wp_run. destruct (negb _); wp_run; [| exact H1].
  eapply wp_mono; [apply IH |]. intros ? w2 H2. retained_chain.
Qed.

(** The calls that give the rconn a new peer name. *)
Definition renames (c : call) : bool :=
  match c with
  | Connect _ | ConnectUnreliably _ _ | Disconnect => true
  | _ => false
  end.

Lemma exec_retains (c : call) (w : world) :
  renames c = false -> wp (exec c) (fun _ w' => retained w w') w.
Proof.
  intros Hc. destruct c; try discriminate; simpl exec; unfold discard.
  - unfold rconn_reconnect. wp_run. destruct (state_in _ _); wp_run;
      [apply disconnect_retains | apply retained_refl].
  - apply rconn_run_retains.
  - eapply wp_call; [apply rconn_recv_retains |]. intros; wp_run; assumption.
  - eapply wp_call; [apply rconn_send_retains |]. intros; wp_run; assumption.
  - unfold rconn_send_with_limit. destruct counter as [k |]; wp_run.
    apply wp_counter_load_bind. intros pc Hpc. apply wp_bind_assoc.
    eapply wp_call with (R := fun _ w1 => retained w w1).
    { destruct (_ >=? _); wp_run; [apply retained_refl | apply rconn_send_retains]. }
    intros e w1 H1. destruct (negb _); simpl when; wp_run; [| exact H1].
    eapply retained_trans; [exact H1 | retained_step].
  - wp_run. apply retained_same; [log_ext | |];
      unfold addresses, rconn_set_max_backoff; cbv zeta; fields;
      (destruct (_ && _); [destruct (backoff_deadline _ >? _) |]); reflexivity.
  - wp_run. retained_step.
  - unfold rconn_add_monitor. wp_run. destruct (_ <? _)%nat; simpl vconn_close; wp_run;
      retained_step.
  - unfold rconn_is_connectivity_questionable. wp_run. retained_step.
  - unfold wp, bind, rconn_packet_counter_create, ret. retained_step.
  - unfold rconn_packet_counter_destroy. destruct counter as [k |]; wp_run;
      [| apply retained_refl].
    apply wp_counter_load_bind. intros pc Hpc. destruct (_ >? 0); wp_run.
    cbv zeta. wp_run. destruct (_ && _); wp_run; retained_step.
  - unfold wp, sleep. retained_step.
Qed.

(** C9: on a reliable rconn [disconnect] returns in BACKOFF with
    [local_ip], [remote_ip] and [remote_port] as they were; the one way
    it has of not returning is to double a backoff whose double [int] does
    not hold, which C leaves undefined.  Through every
    later call that does not rename the peer (every call but connect,
    connect_unreliably and disconnect), and so through the whole backoff and
    reconnect cycle driven by [rconn_run], the rconn stays reliable and the
    three fields keep their values until a [vconn_open] succeeds, whose
    transport then provides them.  Renaming the peer clears them. *)
Theorem disconnect_retains_addresses (error : Z) (w : world) :
  reliable (rc w) = true ->
  charges_ok (counters w) (txq (rc w)) ->
  match disconnect error w with
  | Ok _ w' =>
      state (rc w') = S_BACKOFF
      /\ reliable (rc w') = true
      /\ local_ip (rc w') = local_ip (rc w)
      /\ remote_ip (rc w') = remote_ip (rc w)
      /\ remote_port (rc w') = remote_port (rc w)
  | Crash f => f = SignedOverflow /\ ~ doubling_defined (clock w) (rc w)
  end
  /\ (forall c w1 w2, renames c = false -> reliable (rc w1) = true ->
      exec c w1 = Ok tt w2 ->
      reliable (rc w2) = true
      /\ (addresses (rc w2) = addresses (rc w1)
          \/ exists l nm v, log w2 = l ++ log w1 /\ In (EvOpen nm 0 (Some v)) l
               /\ addresses (rc w2) = vconn_addresses v))
  /\ (forall nm r, addresses (set_vconn_name nm r) = (0, 0, 0)).
Proof.
  intros Hrel Hok. split; [| split].
  - destruct (disconnect_outcome error w Hrel Hok) as (w1 & Hrun & Hrc & _).
    rewrite Hrun. destruct (doubling_definedb (clock w) (rc w)) eqn:E.
    + cbn [rc with_rc].
      pose proof (backoff_update_addresses (clock w) (rc w1)) as Ha.
      destruct (backoff_update_frame (clock w) (rc w1)) as (_ & Hr & _).
      rewrite backoff_update_state, Hr. unfold addresses in Ha.
      injection Ha as -> -> ->. rewrite Hrc. unfold closed.
      destruct (state_in _ _); fields; auto.
    + split; [reflexivity |]. intros Hdef.
      apply doubling_defined_spec in Hdef. congruence.
  - intros c w1 w2 Hc Hr Hrun.
    destruct (wp_Ok _ _ _ _ _ (exec_retains c w1 Hc) Hrun) as (l & Hl & H).
    destruct (H Hr) as [Hr2 [Hsame | (nm & v & Hin & Hv)]]; split; auto.
    right. exists l, nm, v. auto.
  - reflexivity.
Qed.

(** The connection of [w_active] when the peer hangs up: [rconn_recv] meets
    end of file. *)
Definition w_active_eof : world :=
  after (rconn_run 3)
    (after (rconn_connect "tcp:10.0.0.2") (boot (peer_script [0; 0] EOF) 100 5 8)).

Lemma disconnect_retains_addresses_witness :
  exists w', disconnect EOF w_active_eof = Ok tt w'
    /\ state (rc w') = S_BACKOFF
    /\ reliable (rc w') = true
    /\ local_ip (rc w') = local_ip (rc w_active_eof)
    /\ remote_ip (rc w') = remote_ip (rc w_active_eof)
    /\ remote_port (rc w') = remote_port (rc w_active_eof).
Proof.
  assert (Hrel : reliable (rc w_active_eof) = true) by (vm_compute; reflexivity).
  destruct (disconnect_retains_addresses EOF w_active_eof Hrel (charges_ok_nil _))
    as [H _].
  destruct (disconnect EOF w_active_eof) as [[] w' | f].
  - exists w'. split; [reflexivity | exact H].
  - exfalso. apply (proj2 H). left. vm_compute. discriminate.
Defined.

(** * Footprint of the calls *)

(** ** Elementary assignments *)

(** The assignments the functions of rconn.c make to [struct rconn], one
    constructor per assignment statement (up to the value stored, where no
    property below depends on it), at clock reading [now]. *)
Inductive update (now : Z) (r : rconn) : rconn -> Prop :=
  | u_txq q : update now r (set_txq q r)
  | u_vconn vc : update now r (set_vconn vc r)
  | u_vconn_name nm : update now r (set_vconn_name nm r)
  | u_reliable b : update now r (set_reliable b r)
  | u_backoff v : update now r (set_backoff v r)
  | u_backoff_deadline v : update now r (set_backoff_deadline v r)
  | u_packets_sent v : update now r (set_packets_sent v r)
  | u_packets_received v : update now r (set_packets_received v r)
  | u_n_attempted_connections v : update now r (set_n_attempted_connections v r)
  | u_n_successful_connections v : update now r (set_n_successful_connections v r)
  | u_last_received : update now r (set_last_received now r)
  | u_last_connected_now : update now r (set_last_connected now r)
  | u_last_connected_entered : update now r (set_last_connected (state_entered r) r)
  | u_admit : update now r (set_last_admitted now (set_probably_admitted true r))
  | u_state_transition s : update now r (state_transition now s r)
  | u_question_connectivity : update now r (question_connectivity now r)
  | u_questionable_cleared : update now r (set_questionable_connectivity false r)
  | u_local_ip v : update now r (set_local_ip v r)
  | u_remote_ip v : update now r (set_remote_ip v r)
  | u_remote_port v : update now r (set_remote_port v r)
  | u_drop_monitor i : update now r (set_monitors (drop_monitor i (monitors r)) r)
  | u_add_monitor v :
      (length (monitors r) < MAX_MONITORS)%nat ->
      update now r (set_monitors (monitors r ++ [v]) r)
  | u_probe_interval p : update now r (rconn_set_probe_interval p r)
  | u_max_backoff m : update now r (rconn_set_max_backoff now m r).

(** The elementary effects on the world. *)
Inductive micro : world -> world -> Prop :=
  | m_update w r' : update (clock w) (rc w) r' -> micro w (with_rc r' w)
  | m_log w e : micro w (with_log (e :: log w) w)
  | m_ask w : micro w (with_calls (S (calls w)) w)
  | m_counters w cs : micro w (with_counters cs w).

(** [w'] comes from [w] by elementary effects. *)
Definition evolves (w w' : world) : Prop := rtc micro w w'.

Lemma micro_clock (w w' : world) : micro w w' -> clock w' = clock w /\ peer w' = peer w.
Proof. destruct 1; auto. Qed.

Lemma evolves_clock (w w' : world) : evolves w w' -> clock w' = clock w.
Proof.
  induction 1 as [| w1 w2 w3 H12 _ IH]; [reflexivity |].
  destruct (micro_clock _ _ H12). congruence.
Qed.

Lemma evolves_peer (w w' : world) : evolves w w' -> peer w' = peer w.
Proof.
  induction 1 as [| w1 w2 w3 H12 _ IH]; [reflexivity |].
  destruct (micro_clock _ _ H12). congruence.
Qed.

Lemma evolves_refl (w : world) : evolves w w.
Proof. apply rtc_refl. Qed.

Lemma evolves_trans (w1 w2 w3 : world) : evolves w1 w2 -> evolves w2 w3 -> evolves w1 w3.
Proof. apply rtc_trans. Qed.

Lemma evolves_step (w1 w2 w3 : world) : evolves w1 w2 -> micro w2 w3 -> evolves w1 w3.
Proof. apply rtc_r. Qed.

Ltac update_one :=
  try match goal with |- update _ _ (if ?c then _ else _) => destruct c end;
  first
    [ apply u_txq | apply u_vconn | apply u_vconn_name | apply u_reliable
    | apply u_backoff | apply u_backoff_deadline | apply u_packets_sent
    | apply u_packets_received | apply u_n_attempted_connections
    | apply u_n_successful_connections | apply u_last_received
    | apply u_last_connected_now | apply u_last_connected_entered | apply u_admit
    | apply u_state_transition | apply u_question_connectivity
    | apply u_questionable_cleared | apply u_local_ip | apply u_remote_ip
    | apply u_remote_port | apply u_drop_monitor | apply u_probe_interval
    | apply u_max_backoff ].

(** Peel the effects off the final world of a [wp] goal, last one first. *)
Ltac evolves_peel :=
  lazymatch goal with
  | |- evolves ?w ?w => apply evolves_refl
  | |- evolves _ (with_log (?e :: _) ?W) =>
      apply (evolves_step _ W); [| exact (m_log W e)]
  | |- evolves _ (with_calls _ ?W) => apply (evolves_step _ W); [| exact (m_ask W)]
  | |- evolves _ (with_counters ?cs ?W) =>
      apply (evolves_step _ W); [| exact (m_counters W cs)]
  | |- evolves _ (with_rc ?r ?W) =>
      apply (evolves_step _ W);
      [| apply (m_update W r);
         cbn [rc clock with_rc with_counters with_clock with_calls with_log];
         update_one]
  | |- evolves _ _ => eassumption
  end.

Ltac evolves_auto := cbv beta in *; repeat evolves_peel.

Ltac evolves_chain := cbv beta in *; eapply evolves_trans; eauto.

Lemma counter_dec_opt_evolves (counter : option nat) (w : world) :
  wp (counter_dec_opt counter) (fun _ w' => evolves w w') w.
Proof.
  eapply wp_mono; [apply counter_dec_opt_frame |]. intros ? w' [cs ->]. evolves_auto.
Qed.

Lemma flush_loop_evolves (fuel : nat) :
  forall w, wp (flush_loop fuel) (fun _ w' => evolves w w') w.
Proof.
  induction fuel as [| fuel IH]; intros w; simpl flush_loop; wp_run;
    (destruct (txq (rc w)) as [| b rest]; wp_run; try apply evolves_refl).
  eapply wp_call; [apply counter_dec_opt_evolves |].
  intros [] w1 H1. simpl ofpbuf_delete. wp_run.
  eapply wp_mono; [apply IH |]. intros ? w2 H2.
  assert (H0 : evolves w (with_rc (set_txq rest (rc w)) w)) by evolves_auto.
  assert (H3 : evolves w1 (with_log (EvDelete b :: log w1) w1)) by evolves_auto.
  cbv beta in *. eapply evolves_trans; [exact H0 |].
  eapply evolves_trans; [exact H1 |]. eapply evolves_trans; eauto.
Qed.

Lemma flush_queue_evolves (w : world) : wp flush_queue (fun _ w' => evolves w w') w.
Proof.
  unfold flush_queue. wp_run. destruct (txq_n (rc w) =? 0); wp_run; [apply evolves_refl |].
  eapply wp_call; [apply flush_loop_evolves |]. intros [] w1 H1. wp_run. evolves_auto.
Qed.

Lemma rconn_disconnect_evolves (w : world) :
  wp rconn_disconnect (fun _ w' => evolves w w') w.
Proof.
  unfold rconn_disconnect. wp_run. destruct (negb _); wp_run; [| apply evolves_refl].
  eapply wp_call with (R := fun _ w1 => evolves w w1).
  { destruct (vconn (rc w)); simpl vconn_close; wp_run; evolves_auto. }
  intros [] w1 H1. wp_run. evolves_auto.
Qed.

Lemma disconnect_evolves (error : Z) (w : world) :
  wp (disconnect error) (fun _ w' => evolves w w') w.
Proof.
  unfold disconnect. wp_run.
  destruct (reliable (rc w)); [| apply rconn_disconnect_evolves].
  wp_run.
  eapply wp_call with (R := fun _ w1 => evolves w w1).
  { destruct (state_in _ _); simpl when; wp_run; [| apply evolves_refl].
    eapply wp_call with (R := fun _ w1 => evolves w w1).
    { destruct (vconn (rc w)); simpl vconn_close; wp_run; evolves_auto. }
    intros [] w1 H1. wp_run.
    eapply wp_mono; [apply flush_queue_evolves |].
    intros ? w2 H2. cbv beta in *. eapply evolves_trans; [| exact H2]. evolves_auto. }
  intros [] w1 H1. pose proof (evolves_clock _ _ H1) as Hc. rewrite <- Hc.
  wp_run. apply wp_next_backoff. wp_run. destruct (_ >? 60); wp_run; evolves_auto.
Qed.

Lemma try_send_evolves (w : world) : wp try_send (fun _ w' => evolves w w') w.
Proof.
  unfold try_send. wp_run. destruct (txq (rc w)) as [| head next]; wp_run.
  unfold vconn_send. destruct (vconn (rc w)) as [v |]; wp_run.
  set (w1 := with_log _ _).
  assert (H1 : evolves w w1) by (subst w1; evolves_auto).
  destruct (negb (_ =? 0)).
  - destruct (negb (_ =? EAGAIN)); wp_run; [| exact H1].
    eapply wp_call; [apply disconnect_evolves |].
    intros [] w2 H2. wp_run. evolves_chain.
  - wp_run. eapply wp_call; [apply counter_dec_opt_evolves |].
    intros [] w2 H2. wp_run.
    assert (H3 : evolves w w2).
    { cbv beta in *. eapply evolves_trans; [| exact H2]. subst w1. evolves_auto. }
    evolves_auto.
Qed.

Lemma tx_loop_evolves (fuel : nat) :
  forall w, wp (tx_loop fuel) (fun _ w' => evolves w w') w.
Proof.
  induction fuel as [| fuel IH]; intros w; simpl tx_loop; wp_run;
    (destruct (txq_n (rc w) >? 0); wp_run; try apply evolves_refl).
  eapply wp_call; [apply try_send_evolves |].
  intros e w1 H1. destruct (negb (e =? 0)); wp_run; [exact H1 |].
  eapply wp_mono; [apply IH |]. intros ? w2 H2. evolves_chain.
Qed.

Lemma do_tx_work_evolves (w : world) : wp do_tx_work (fun _ w' => evolves w w') w.
Proof.
  unfold do_tx_work. wp_run. destruct (txq_n (rc w) =? 0); wp_run; [apply evolves_refl |].
  eapply wp_call; [apply tx_loop_evolves |].
  intros [] w1 H1. wp_run. destruct (txq_n (rc w1) =? 0); wp_run; evolves_auto.
Qed.

Lemma monitor_loop_evolves (fuel : nat) :
  forall b i clone w, wp (monitor_loop fuel b i clone) (fun _ w' => evolves w w') w.
Proof.
  induction fuel as [| fuel IH]; intros b i clone w; simpl monitor_loop.
  - wp_run. destruct (monitors (rc w) !! i); wp_run. apply evolves_refl.
  - wp_run. destruct (monitors (rc w) !! i) as [v |]; [| wp_run; apply evolves_refl].
    assert (Hrest : forall c retval w2, evolves w w2 ->
      wp (if retval =? 0 then monitor_loop fuel b (S i) None
          else if negb (retval =? EAGAIN)
               then modify (fun r => set_monitors (drop_monitor i (monitors r)) r);;
                    monitor_loop fuel b i (Some c)
               else monitor_loop fuel b (S i) (Some c))
         (fun _ w' => evolves w w') w2).
    { intros c retval w2 H2.
      destruct (_ =? 0).
      - eapply wp_mono; [apply IH |]. intros ? w' H'. evolves_chain.
      - destruct (negb _).
        + wp_run. eapply wp_mono; [apply IH |]. intros ? w' H'.
          cbv beta in *. eapply evolves_trans; [| exact H']. evolves_auto.
        + eapply wp_mono; [apply IH |]. intros ? w' H'. evolves_chain. }
    destruct clone as [c |].
    + wp_run. apply Hrest. evolves_auto.
    + unfold ofpbuf_clone. wp_run. apply Hrest. evolves_auto.
Qed.

Lemma copy_to_monitor_evolves (b : ofpbuf) (w : world) :
  wp (copy_to_monitor b) (fun _ w' => evolves w w') w.
Proof.
  unfold copy_to_monitor. wp_run.
  eapply wp_call; [apply monitor_loop_evolves |].
  intros clone w1 H1. destruct clone as [c |]; simpl ofpbuf_delete; wp_run; evolves_auto.
Qed.

Lemma rconn_send_evolves (b : ofpbuf) (counter : option nat) (w : world) :
  wp (rconn_send b counter) (fun _ w' => evolves w w') w.
Proof.
  unfold rconn_send. wp_run.
  destruct (rconn_is_connected (rc w)); wp_run; [| apply evolves_refl].
  eapply wp_call; [apply copy_to_monitor_evolves |].
  intros [] w1 H1. cbv zeta.
  assert (Hpush : forall w2, evolves w w2 ->
    wp (modify (fun r => set_txq (txq r ++ [{| data := data b; private_p := counter |}]) r);;
        r' <- get;;
        when (txq_n r' =? 1) (_ <- try_send;; ret tt);;
        ret 0)
       (fun _ w' => evolves w w') w2).
  { intros w2 H2. wp_run. set (w3 := with_rc _ w2).
    assert (H3 : evolves w w3) by (subst w3; evolves_auto).
    destruct (txq_n _ =? 1); wp_run; [| exact H3].
    eapply wp_call; [apply try_send_evolves |].
    intros e w4 H4. wp_run. evolves_chain. }
  destruct counter as [c |].
  - unfold rconn_packet_counter_inc. apply wp_bind_assoc.
    apply wp_counter_load_bind. intros pc Hpc. wp_step. apply Hpush. evolves_auto.
  - wp_step. now apply Hpush.
Qed.

Lemma rconn_recv_evolves (w : world) : wp rconn_recv (fun _ w' => evolves w w') w.
Proof.
  unfold rconn_recv. wp_run.
  destruct (state_in (state (rc w)) connected_mask); wp_run; [| apply evolves_refl].
  unfold vconn_recv. destruct (vconn (rc w)) as [v |]; wp_run.
  set (w0 := with_log _ _).
  assert (H0 : evolves w w0) by (subst w0; evolves_auto).
  destruct (_ =? 0).
  - eapply wp_call; [apply copy_to_monitor_evolves |].
    intros [] w1 Hmon.
    assert (H1 : evolves w w1) by evolves_chain.
    pose proof (evolves_clock _ _ H1) as Hc.
    wp_run.
    eapply wp_call with (R := fun _ w2 => w2 = w1).
    { destruct (probably_admitted (rc w1)); wp_run; [reflexivity |].
      unfold is_admitted_msg. destruct (ofp_type _); wp_run.
      destruct (admitted_type _); wp_run; reflexivity. }
    intros adm w2 ->.
    destruct adm; wp_run; (destruct (state_eqb _ S_IDLE); wp_run); evolves_auto.
  - destruct (negb _); wp_run; [| exact H0].
    eapply wp_call; [apply disconnect_evolves |].
    intros [] w1 H1. wp_run. evolves_chain.
Qed.

Lemma reconnect_evolves (w : world) : wp reconnect (fun _ w' => evolves w w') w.
Proof.
  unfold reconnect, vconn_open. wp_run. cbv zeta. wp_run.
  destruct (a_retval (peer w (calls w)) =? 0); wp_run.
  - evolves_auto.
  - set (w1 := with_rc _ _).
    assert (H1 : evolves w w1) by (subst w1; evolves_auto).
    eapply wp_call; [apply disconnect_evolves |].
    intros [] w2 H2. wp_run. evolves_chain.
Qed.

Lemma run_state_evolves (s : rstate) (w : world) :
  wp (run_state s) (fun _ w' => evolves w w') w.
Proof.
  destruct s; simpl run_state.
  - unfold run_VOID. wp_run. apply evolves_refl.
  - unfold run_BACKOFF. wp_run. destruct (timed_out _ _); wp_run; [| apply evolves_refl].
    eapply wp_call; [apply reconnect_evolves |]. intros e w1 H1. wp_run. exact H1.
  - unfold run_CONNECTING, vconn_connect. wp_run.
    destruct (vconn (rc w)) as [v |]; wp_run.
    set (w0 := with_log _ _).
    assert (H0 : evolves w w0) by (subst w0; evolves_auto).
    destruct (_ =? 0); wp_run.
    + subst w0. evolves_auto.
    + destruct (negb _).
      * eapply wp_mono; [apply disconnect_evolves |]. intros ? w1 H1. evolves_chain.
      * wp_run. destruct (timed_out _ _); wp_run; [| exact H0].
        set (w1 := with_rc _ w0).
        assert (H1 : evolves w w1) by (subst w1 w0; evolves_auto).
        eapply wp_mono; [apply disconnect_evolves |]. intros ? w2 H2. evolves_chain.
  - unfold run_ACTIVE. wp_run. destruct (timed_out _ _); wp_run.
    + set (w1 := with_rc _ w).
      assert (H1 : evolves w w1) by (subst w1; evolves_auto).
      eapply wp_call; [apply rconn_send_evolves |].
      intros e w2 H2. wp_run. evolves_chain.
    + apply do_tx_work_evolves.
  - unfold run_IDLE. wp_run. destruct (timed_out _ _); wp_run.
    + set (w1 := with_rc _ w).
      assert (H1 : evolves w w1) by (subst w1; evolves_auto).
      eapply wp_mono; [apply disconnect_evolves |]. intros ? w2 H2. evolves_chain.
    + apply do_tx_work_evolves.
Qed.

Lemma rconn_run_evolves (fuel : nat) :
  forall w, wp (rconn_run fuel) (fun _ w' => evolves w w') w.
Proof.
  induction fuel as [| fuel IH]; intros w; simpl rconn_run; wp_run.
  cbv zeta. eapply wp_call; [apply run_state_evolves |].
  intros [] w1 H1. wp_run. destruct (negb _); wp_run; [| exact H1].
  eapply wp_mono; [apply IH |]. intros ? w2 H2. evolves_chain.
Qed.

Lemma rconn_connect_evolves (nm : string) (w : world) :
  wp (rconn_connect nm) (fun _ w' => evolves w w') w.
Proof.
  unfold rconn_connect.
  eapply wp_call; [apply rconn_disconnect_evolves |].
  intros [] w1 H1. wp_run. set (w2 := with_rc _ _).
  assert (H2 : evolves w w2) by (subst w2; evolves_auto).
  eapply wp_mono; [apply reconnect_evolves |]. intros ? w3 H3. evolves_chain.
Qed.

Lemma rconn_connect_unreliably_evolves (nm : string) (v : vconn_t) (w : world) :
  wp (rconn_connect_unreliably nm v) (fun _ w' => evolves w w') w.
Proof.
  unfold rconn_connect_unreliably.
  eapply wp_call; [apply rconn_disconnect_evolves |].
  intros [] w1 H1. wp_run. evolves_auto.
Qed.

(** Every call that returns is a sequence of elementary effects: nothing
    else happens to the rconn, whatever the peer answers. *)
Lemma exec_evolves (c : call) (w : world) :
  (forall seconds, c <> Sleep seconds) -> wp (exec c) (fun _ w' => evolves w w') w.
Proof.
  intros Hc. destruct c; simpl exec; unfold discard.
  - eapply wp_call; [apply rconn_connect_evolves |]. intros; wp_run; assumption.
  - apply rconn_connect_unreliably_evolves.
  - unfold rconn_reconnect. wp_run. destruct (state_in _ _); wp_run;
      [apply disconnect_evolves | apply evolves_refl].
  - apply rconn_disconnect_evolves.
  - apply rconn_run_evolves.
  - eapply wp_call; [apply rconn_recv_evolves |]. intros; wp_run; assumption.
  - eapply wp_call; [apply rconn_send_evolves |]. intros; wp_run; assumption.
  - unfold rconn_send_with_limit. destruct counter as [k |]; wp_run.
    apply wp_counter_load_bind. intros pc Hpc. apply wp_bind_assoc.
    eapply wp_call with (R := fun _ w1 => evolves w w1).
    { destruct (_ >=? _); wp_run; [apply evolves_refl | apply rconn_send_evolves]. }
    intros e w1 H1. destruct (negb _); simpl when; wp_run; evolves_auto.
  - wp_run. evolves_auto.
  - wp_run. evolves_auto.
  - unfold rconn_add_monitor. wp_run.
    destruct (Nat.ltb_spec (n_monitors (rc w)) MAX_MONITORS); simpl vconn_close; wp_run.
    + apply (evolves_step _ w); [apply evolves_refl |]. apply m_update.
      now apply u_add_monitor.
    + evolves_auto.
  - unfold rconn_is_connectivity_questionable. wp_run. evolves_auto.
  - unfold wp, bind, rconn_packet_counter_create, ret. evolves_auto.
  - unfold rconn_packet_counter_destroy. destruct counter as [k |]; wp_run;
      [| apply evolves_refl].
    apply wp_counter_load_bind. intros pc Hpc. destruct (_ >? 0); wp_run.
    cbv zeta. wp_run. destruct (_ && _); wp_run; evolves_auto.
  - exfalso. now apply (Hc seconds).
Qed.

(** ** Invariants from the footprint *)

Lemma evolves_invariant (P : world -> Prop) :
  (forall w w', micro w w' -> P w -> P w') ->
  forall w w', evolves w w' -> P w -> P w'.
Proof. intros Hstep w w' H. induction H; eauto. Qed.

Lemma evolves_rconn_invariant (P : rconn -> Prop) :
  (forall now r r', update now r r' -> P r -> P r') ->
  forall w w', evolves w w' -> P (rc w) -> P (rc w').
Proof.
  intros Hstep. apply (evolves_invariant (fun w => P (rc w))).
  intros w w' Hm. destruct Hm; simpl; eauto.
Qed.

Lemma classic_sleep (c : call) :
  (exists seconds, c = Sleep seconds) \/ (forall seconds, c <> Sleep seconds).
Proof. destruct c; try (right; discriminate). left. eauto. Qed.

Lemma reachable_invariant (P : world -> Prop) :
  (forall p now probe_interval max_backoff,
     create_ok false now probe_interval max_backoff ->
     P (boot p now probe_interval max_backoff)) ->
  (forall w w', micro w w' -> P w -> P w') ->
  (forall w seconds, P w -> P (with_clock (clock w + Z.of_nat seconds) w)) ->
  forall w, reachable w -> P w.
Proof.
  intros Hboot Hmicro Hsleep w H.
  induction H as [p now pi mb Hok | w w' c _ IH Hc Hrun]; [now apply Hboot |].
  destruct (classic_sleep c) as [[seconds ->] | Hns].
  - simpl in Hrun. injection Hrun as <-. now apply Hsleep.
  - eapply evolves_invariant; [exact Hmicro | | exact IH].
    exact (wp_Ok _ _ _ _ _ (exec_evolves c w Hns) Hrun).
Qed.

Lemma state_transition_last_received now s r :
  last_received (state_transition now s r) = last_received r.
Proof. frame_state_transition. Qed.
Lemma state_transition_last_questioned now s r :
  last_questioned (state_transition now s r) = last_questioned r.
Proof. frame_state_transition. Qed.
Lemma state_transition_creation_time now s r :
  creation_time (state_transition now s r) = creation_time r.
Proof. frame_state_transition. Qed.
Lemma state_transition_name now s r : name (state_transition now s r) = name r.
Proof. frame_state_transition. Qed.
Lemma question_connectivity_state_entered now r :
  state_entered (question_connectivity now r) = state_entered r.
Proof. frame_question_connectivity. Qed.
Lemma question_connectivity_last_received now r :
  last_received (question_connectivity now r) = last_received r.
Proof. frame_question_connectivity. Qed.
Lemma question_connectivity_last_connected now r :
  last_connected (question_connectivity now r) = last_connected r.
Proof. frame_question_connectivity. Qed.
Lemma question_connectivity_last_admitted now r :
  last_admitted (question_connectivity now r) = last_admitted r.
Proof. frame_question_connectivity. Qed.
Lemma question_connectivity_seqno now r :
  seqno (question_connectivity now r) = seqno r.
Proof. frame_question_connectivity. Qed.
Lemma question_connectivity_monitors now r :
  monitors (question_connectivity now r) = monitors r.
Proof. frame_question_connectivity. Qed.
Lemma question_connectivity_creation_time now r :
  creation_time (question_connectivity now r) = creation_time r.
Proof. frame_question_connectivity. Qed.

#[global] Hint Rewrite
  state_transition_state_entered state_transition_last_received
  state_transition_last_questioned state_transition_creation_time state_transition_name
  question_connectivity_state_entered question_connectivity_last_received
  question_connectivity_last_connected question_connectivity_last_admitted
  question_connectivity_seqno question_connectivity_monitors
  question_connectivity_creation_time : rconn_fields.

(** Case analysis on the assignment behind an [update]. *)
Ltac by_update H :=
  destruct H; unfold rconn_set_probe_interval, rconn_set_max_backoff; cbv zeta;
  case_ifs; fields.

Definition probe_ok (r : rconn) : Prop := probe_interval r = 0 \/ 5 <= probe_interval r.

Lemma update_probe_ok (now : Z) (r r' : rconn) : update now r r' -> probe_ok r -> probe_ok r'.
Proof.
  intros Hu. unfold probe_ok. by_update Hu; auto.
  - right. rewrite MAX_max. lia.
Qed.

Lemma drop_monitor_length (i : nat) (ms : list vconn_t) :
  (length (drop_monitor i ms) <= length ms)%nat.
Proof.
  unfold drop_monitor. destruct (ms !! _); [| lia].
  rewrite length_take, length_insert. lia.
Qed.

Definition monitors_ok (r : rconn) : Prop := (length (monitors r) <= MAX_MONITORS)%nat.

Lemma update_monitors_ok (now : Z) (r r' : rconn) :
  update now r r' -> monitors_ok r -> monitors_ok r'.
Proof.
  intros Hu. unfold monitors_ok. by_update Hu; auto.
  - intros H. pose proof (drop_monitor_length i (monitors r)). lia.
  - intros _. rewrite length_app. simpl. lia.
Qed.

Definition seqno_ok (r : rconn) : Prop :=
  Z.odd (seqno r) = state_eqb (state r) S_ACTIVE.

Lemma update_seqno_ok (now : Z) (r r' : rconn) : update now r r' -> seqno_ok r -> seqno_ok r'.
Proof.
  intros Hu. unfold seqno_ok. by_update Hu; auto.
  intros H. rewrite state_transition_seqno, to_uint_odd, Z.odd_add, H.
  destruct (state_eqb (state r) S_ACTIVE), (state_eqb s S_ACTIVE); reflexivity.
Qed.

(** X1: the probe interval of an rconn is always 0 (no probing) or at least
    5 seconds: [rconn_create] and [rconn_set_probe_interval] raise any other
    value to 5 and nothing else assigns the field; reading it back after
    setting [x] gives 0 for 0 and [max(5, x)] otherwise. *)
Theorem probe_interval_zero_or_at_least_5 (w : world) :
  reachable w ->
  (probe_interval (rc w) = 0 \/ 5 <= probe_interval (rc w))
  /\ (forall x,
        rconn_get_probe_interval (rconn_set_probe_interval x (rc w))
        = if decide (x = 0) then 0 else Z.max 5 x).
Proof.
  intros Hreach. split.
  - revert w Hreach. apply (reachable_invariant (fun w => probe_ok (rc w))).
    + intros p now pi mb _. unfold probe_ok, boot, rconn_create, rconn_set_probe_interval.
      fields. destruct (pi =? 0); simpl; [auto | right; rewrite MAX_max; lia].
    + intros w w' Hm. destruct Hm; simpl; eauto using update_probe_ok.
    + auto.
  - intros x. unfold rconn_get_probe_interval, rconn_set_probe_interval. fields.
    destruct (decide (x = 0)) as [-> | Hne]; [reflexivity |].
    replace (x =? 0) with false by (symmetry; now apply Z.eqb_neq).
    simpl. apply MAX_max.
Qed.

Lemma probe_interval_zero_or_at_least_5_witness :
  probe_interval (rc w_idle_no_probe) = 0 \/ 5 <= probe_interval (rc w_idle_no_probe).
Proof.
  apply (probe_interval_zero_or_at_least_5 w_idle_no_probe).
  exact reachable_w_idle_no_probe.
Defined.

(** X2: an rconn never has more than 8 monitors, and a monitor offered to
    an rconn that has 8 is closed at once, the rconn staying as it is. *)
Theorem monitors_at_most_8 (w : world) :
  reachable w ->
  (length (monitors (rc w)) <= 8)%nat
  /\ (forall v, length (monitors (rc w)) = 8%nat ->
        rconn_add_monitor v w = Ok tt (with_log (EvClose v :: log w) w)).
Proof.
  intros Hreach. split.
  - revert w Hreach. apply (reachable_invariant (fun w => monitors_ok (rc w))).
    + intros p now pi mb _. unfold monitors_ok, MAX_MONITORS. simpl. lia.
    + intros w w' Hm. destruct Hm; simpl; eauto using update_monitors_ok.
    + auto.
  - intros v H8. unfold rconn_add_monitor, bind, get, n_monitors. rewrite H8. reflexivity.
Qed.

(** A monitor connection. *)
Definition monitor (k : nat) : vconn_t :=
  {| v_id := k; v_local_ip := 167772161; v_remote_ip := 167772163; v_remote_port := 6634 |}.

Fixpoint add_monitors (vs : list vconn_t) : M unit :=
  match vs with
  | [] => ret tt
  | v :: vs' => rconn_add_monitor v;; add_monitors vs'
  end.

Lemma add_monitors_reachable (vs : list vconn_t) :
  forall w w', reachable w -> add_monitors vs w = Ok tt w' -> reachable w'.
Proof.
  induction vs as [| v vs IH]; intros w w' Hreach Hrun.
  - injection Hrun as <-. exact Hreach.
  - simpl add_monitors in Hrun. unfold bind in Hrun.
    destruct (rconn_add_monitor v w) as [[] w1 | f] eqn:E; [| discriminate].
    apply (IH w1 w'); [| exact Hrun].
    now apply (reach_call false w w1 (AddMonitor v)).
Qed.

(** The connection of [w_active] with eight monitors. *)
Definition w_monitored : world :=
  after (add_monitors (map monitor [2; 3; 4; 5; 6; 7; 8; 9]%nat)) w_active.

Lemma reachable_w_monitored : reachable w_monitored.
Proof.
  apply (add_monitors_reachable (map monitor [2; 3; 4; 5; 6; 7; 8; 9]%nat) w_active);
    [exact reachable_w_active | vm_compute; reflexivity].
Qed.

Lemma monitors_at_most_8_witness :
  length (monitors (rc w_monitored)) = 8%nat
  /\ (length (monitors (rc w_monitored)) <= 8)%nat
  /\ rconn_add_monitor (monitor 10) w_monitored
     = Ok tt (with_log (EvClose (monitor 10) :: log w_monitored) w_monitored).
Proof.
  destruct (monitors_at_most_8 w_monitored reachable_w_monitored) as [Hle H8].
  split; [vm_compute; reflexivity |]. split; [exact Hle |].
  apply H8. vm_compute. reflexivity.
Defined.

(** X3: the connection sequence number is odd exactly while the rconn is
    ACTIVE: it starts at 0 in VOID and [state_transition], the only place
    that assigns the state, adds one exactly when entering or leaving
    ACTIVE. *)
Theorem seqno_odd_iff_active (w : world) :
  reachable w -> (Z.odd (seqno (rc w)) = true <-> state (rc w) = S_ACTIVE).
Proof.
  intros Hreach.
  assert (H : seqno_ok (rc w)).
  { revert w Hreach. apply (reachable_invariant (fun w => seqno_ok (rc w))).
    - intros p now pi mb _. reflexivity.
    - intros w w' Hm. destruct Hm; simpl; eauto using update_seqno_ok.
    - auto. }
  unfold seqno_ok in H. rewrite H. apply state_eqb_eq.
Qed.

Lemma seqno_odd_iff_active_witness :
  Z.odd (seqno (rc w_active)) = true <-> state (rc w_active) = S_ACTIVE.
Proof. apply (seqno_odd_iff_active w_active). exact reachable_w_active. Defined.

(** ** Timestamps *)

Lemma question_connectivity_last_questioned now r :
  last_questioned (question_connectivity now r) = last_questioned r
  \/ last_questioned (question_connectivity now r) = now.
Proof. unfold question_connectivity. destruct (_ >? 60); auto. Qed.

(** No timestamp of the rconn lies ahead of the clock. *)
Definition time_inv (w : world) : Prop :=
  state_entered (rc w) <= clock w
  /\ last_received (rc w) <= clock w
  /\ last_connected (rc w) <= clock w
  /\ last_admitted (rc w) <= clock w
  /\ last_questioned (rc w) <= clock w
  /\ creation_time (rc w) <= clock w.

(** From [w] to [w'] no timestamp but [last_connected] moved back, and the
    creation time stayed. *)
Definition ages (w w' : world) : Prop :=
  state_entered (rc w) <= state_entered (rc w')
  /\ last_received (rc w) <= last_received (rc w')
  /\ last_admitted (rc w) <= last_admitted (rc w')
  /\ last_questioned (rc w) <= last_questioned (rc w')
  /\ creation_time (rc w') = creation_time (rc w).

Lemma update_time (now : Z) (r r' : rconn) :
  update now r r' ->
  state_entered r <= now -> last_received r <= now -> last_connected r <= now ->
  last_admitted r <= now -> last_questioned r <= now -> creation_time r <= now ->
  (state_entered r' <= now /\ last_received r' <= now /\ last_connected r' <= now
   /\ last_admitted r' <= now /\ last_questioned r' <= now /\ creation_time r' <= now)
  /\ (state_entered r <= state_entered r' /\ last_received r <= last_received r'
      /\ last_admitted r <= last_admitted r' /\ last_questioned r <= last_questioned r'
      /\ creation_time r' = creation_time r).
Proof.
  intros Hu H1 H2 H3 H4 H5 H6.
  destruct Hu; unfold rconn_set_probe_interval, rconn_set_max_backoff; cbv zeta;
    case_ifs; fields; try lia.
  destruct (question_connectivity_last_questioned now r) as [-> | ->]; lia.
Qed.

Lemma micro_time (w w' : world) : micro w w' -> time_inv w -> time_inv w' /\ ages w w'.
Proof.
  unfold time_inv, ages. intros Hm (H1 & H2 & H3 & H4 & H5 & H6).
  destruct Hm as [w r' Hu | w e | w | w cs]; simpl; try lia.
  exact (update_time _ _ _ Hu H1 H2 H3 H4 H5 H6).
Qed.

Lemma ages_trans (w1 w2 w3 : world) : ages w1 w2 -> ages w2 w3 -> ages w1 w3.
Proof. unfold ages. intros (? & ? & ? & ? & ?) (? & ? & ? & ? & ?). repeat split; lia. Qed.

Lemma evolves_time (w w' : world) : evolves w w' -> time_inv w -> time_inv w' /\ ages w w'.
Proof.
  induction 1 as [w | w1 w2 w3 H12 _ IH]; intros Hinv.
  - split; [assumption |]. unfold ages. repeat split; lia.
  - destruct (micro_time _ _ H12 Hinv) as [H2 Ha]. destruct (IH H2) as [H3 Hb].
    split; [assumption | eapply ages_trans; eauto].
Qed.

Lemma reachable_time_inv (w : world) : reachable w -> time_inv w.
Proof.
  revert w. apply reachable_invariant.
  - intros p now pi mb _. unfold time_inv, boot, rconn_create, rconn_set_probe_interval.
    simpl. lia.
  - intros w w' Hm Hinv. now destruct (micro_time _ _ Hm Hinv).
  - unfold time_inv. simpl. intros w seconds. lia.
Qed.

(** X4: no timestamp of an rconn ([state_entered], [last_received],
    [last_connected], [last_admitted], [last_questioned], [creation_time])
    is ever ahead of the clock; and over any call that returns,
    [state_entered], [last_received], [last_admitted] and [last_questioned]
    do not go back and the creation time does not change. *)
Theorem timestamps_follow_the_clock (w : world) :
  reachable w ->
  time_inv w
  /\ (forall c w', exec c w = Ok tt w' -> ages w w').
Proof.
  intros Hreach. pose proof (reachable_time_inv w Hreach) as Hinv.
  split; [assumption |]. intros c w' Hrun.
  destruct (classic_sleep c) as [[seconds ->] | Hns].
  - simpl in Hrun. injection Hrun as <-. unfold ages. simpl. repeat split; lia.
  - pose proof (wp_Ok _ _ _ _ _ (exec_evolves c w Hns) Hrun) as Hev.
    now destruct (evolves_time _ _ Hev Hinv).
Qed.

Lemma timestamps_follow_the_clock_witness :
  time_inv w_idle_no_probe
  /\ (forall c w', exec c w_idle_no_probe = Ok tt w' -> ages w_idle_no_probe w').
Proof.
  exact (timestamps_follow_the_clock w_idle_no_probe reachable_w_idle_no_probe).
Defined.

(** ** Receiving *)

Lemma state_transition_packets_received now s r :
  packets_received (state_transition now s r) = packets_received r.
Proof. frame_state_transition. Qed.
Lemma state_transition_packets_sent now s r :
  packets_sent (state_transition now s r) = packets_sent r.
Proof. frame_state_transition. Qed.
Lemma state_transition_n_attempted_connections now s r :
  n_attempted_connections (state_transition now s r) = n_attempted_connections r.
Proof. frame_state_transition. Qed.
Lemma state_transition_n_successful_connections now s r :
  n_successful_connections (state_transition now s r) = n_successful_connections r.
Proof. frame_state_transition. Qed.
Lemma state_transition_questionable_connectivity now s r :
  questionable_connectivity (state_transition now s r) = questionable_connectivity r.
Proof. frame_state_transition. Qed.

#[global] Hint Rewrite
  state_transition_packets_received state_transition_packets_sent
  state_transition_n_attempted_connections state_transition_n_successful_connections
  state_transition_questionable_connectivity : rconn_fields.

Lemma rconn_recv_effects (w : world) :
  wp rconn_recv (fun res w' =>
    forall b, res = Some b ->
      (state (rc w) = S_ACTIVE \/ state (rc w) = S_IDLE)
      /\ a_retval (peer w (calls w)) = 0 /\ b = a_buf (peer w (calls w))
      /\ state (rc w') = S_ACTIVE
      /\ last_received (rc w') = clock w
      /\ last_connected (rc w') = last_connected (rc w)
      /\ packets_received (rc w') = to_uint (packets_received (rc w) + 1)
      /\ txq (rc w') = txq (rc w)
      /\ clock w' = clock w) w.
Proof.
  unfold rconn_recv. wp_run.
  destruct (state_in (state (rc w)) connected_mask) eqn:Hconn; [| wp_run; discriminate].
  assert (Hst : state (rc w) = S_ACTIVE \/ state (rc w) = S_IDLE)
    by (now apply is_connected_state_spec).
  unfold vconn_recv. destruct (vconn (rc w)) as [v |]; [| wp_run].
  wp_run. set (a := peer w (calls w)).
  destruct (Z.eqb_spec (a_retval a) 0) as [Hret | Hne];
    [| eapply wp_call with (R := fun _ _ => True);
       [unfold wp; destruct (when _ _ _); exact I | intros; wp_run; discriminate]].
  eapply wp_call; [apply copy_to_monitor_frame |].
  intros [] w1 ([ms Hrc] & _ & Hclock & _). simpl in Hclock, Hrc.
  wp_run. rewrite Hclock.
  eapply wp_call with (R := fun _ w2 => w2 = w1).
  { destruct (probably_admitted (rc w1)); wp_run; [reflexivity |].
    unfold is_admitted_msg. destruct (ofp_type _); wp_run.
    destruct (admitted_type _); wp_run; reflexivity. }
  intros adm w2 ->.
  destruct adm; wp_run; rewrite Hrc; fields;
    (destruct Hst as [Hs | Hs]; rewrite Hs; simpl state_eqb; wp_run;
     intros b [= <-]; fields; cbn [clock with_rc]; rewrite ?Hs, ?Hclock; auto 10).
Qed.

(** X5: [rconn_recv] outside ACTIVE and IDLE returns no message and does
    nothing.  When it returns a message, that is the buffer the transport
    handed over with result 0, the rconn was ACTIVE or IDLE and is ACTIVE
    now, [last_received] is the current time, [packets_received] went up by
    one (in [unsigned int]) and neither [last_connected] nor the send queue
    changed. *)
Theorem rconn_recv_message (w : world) :
  (state (rc w) <> S_ACTIVE -> state (rc w) <> S_IDLE -> rconn_recv w = Ok None w)
  /\ (forall b w', rconn_recv w = Ok (Some b) w' ->
        (state (rc w) = S_ACTIVE \/ state (rc w) = S_IDLE)
        /\ a_retval (peer w (calls w)) = 0 /\ b = a_buf (peer w (calls w))
        /\ state (rc w') = S_ACTIVE
        /\ last_received (rc w') = clock w
        /\ last_connected (rc w') = last_connected (rc w)
        /\ packets_received (rc w') = to_uint (packets_received (rc w) + 1)
        /\ txq (rc w') = txq (rc w)
        /\ clock w' = clock w).
Proof.
  split.
  - intros Ha Hi. unfold rconn_recv, bind, get.
    replace (state_in (state (rc w)) connected_mask) with false; [reflexivity |].
    symmetry. apply not_true_is_false. intros H.
    apply is_connected_state_spec in H. tauto.
  - intros b w' Hrun. exact (wp_Ok _ _ _ _ _ (rconn_recv_effects w) Hrun b eq_refl).
Qed.

Lemma rconn_recv_message_witness :
  rconn_recv w_backoff1 = Ok None w_backoff1
  /\ state (rc (after rconn_recv w_idle)) = S_ACTIVE.
Proof.
  split.
  - apply (proj1 (rconn_recv_message w_backoff1)); vm_compute; discriminate.
  - assert (Hrun : rconn_recv w_idle = Ok (Some make_echo_request) (after rconn_recv w_idle))
      by (vm_compute; reflexivity).
    destruct (proj2 (rconn_recv_message w_idle) _ _ Hrun) as (_ & _ & _ & H & _).
    exact H.
Defined.

(** X6: once [rconn_recv] has returned a message that counts as admission,
    [rconn_is_admitted] holds and [rconn_failure_duration] is 0. *)
Theorem admitted_after_recv (w w' : world) (b : ofpbuf) :
  reachable w ->
  rconn_recv w = Ok (Some b) w' ->
  time_ok (clock w - last_connected (rc w)) ->
  admits w b ->
  rconn_is_admitted (rc w') = true
  /\ rconn_failure_duration (clock w') (rc w') = 0.
Proof.
  intros Hreach Hrun Hok Hadm.
  destruct (reachable_time_inv w Hreach) as (_ & _ & Hlc & _).
  destruct (wp_Ok _ _ _ _ _ (rconn_recv_effects w) Hrun b eq_refl)
    as (_ & _ & _ & Hst & _ & Hlc' & _).
  destruct (wp_Ok _ _ _ _ _ (rconn_recv_spec w Hok) Hrun b eq_refl) as [Hyes _].
  destruct (Hyes Hadm) as [_ Hla].
  assert (Hia : rconn_is_admitted (rc w') = true).
  { unfold rconn_is_admitted, rconn_is_connected. rewrite Hst, Hla, Hlc'.
    simpl. apply Z.geb_le. lia. }
  split; [assumption |]. unfold rconn_failure_duration. now rewrite Hia.
Qed.

Lemma admitted_after_recv_witness :
  rconn_is_admitted (rc (after rconn_recv (with_clock 130 w_active))) = true
  /\ rconn_failure_duration (clock (after rconn_recv (with_clock 130 w_active)))
       (rc (after rconn_recv (with_clock 130 w_active))) = 0.
Proof.
  apply (admitted_after_recv (with_clock 130 w_active)
           (after rconn_recv (with_clock 130 w_active)) make_echo_request).
  - apply (reach_call false w_active (with_clock 130 w_active) (Sleep 30));
      [exact reachable_w_active | exact I | vm_compute; reflexivity].
  - vm_compute. reflexivity.
  - vm_compute. split; discriminate.
  - right. right. vm_compute. discriminate.
Defined.

(** ** Null transports and empty queues *)

(** [m] run from [w] does not end in a fault of the kind [bad]. *)
Definition avoids (bad : fault -> bool) {A : Type} (m : M A) (w : world) : Prop :=
  match m w with
  | Ok _ _ => True
  | Crash f => bad f = false
  end.

(** [m] avoids [bad] whatever the world. *)
Definition never (bad : fault -> bool) {A : Type} (m : M A) : Prop :=
  forall w, avoids bad m w.

Section Avoiding.
Variable bad : fault -> bool.

Lemma avoids_call {A B : Type} (m : M A) (k : A -> M B) (R : A -> world -> Prop) (w : world) :
  avoids bad m w -> wp m R w -> (forall a w', R a w' -> avoids bad (k a) w') ->
  avoids bad (bind m k) w.
Proof.
  intros Hm HR Hk. unfold avoids, wp, bind in *.
  destruct (m w) as [a w' | f]; [exact (Hk a w' HR) | exact Hm].
Qed.

Lemma avoids_then {A B : Type} (m : M A) (k : A -> M B) (w : world) :
  avoids bad m w -> (forall a, never bad (k a)) -> avoids bad (bind m k) w.
Proof. unfold never, avoids, bind. intros Hm Hk. destruct (m w); [apply Hk | exact Hm]. Qed.

Lemma avoids_bind_assoc {A B C : Type} (m : M A) (k1 : A -> M B) (k2 : B -> M C) (w : world) :
  avoids bad (bind m (fun a => bind (k1 a) k2)) w -> avoids bad (bind (bind m k1) k2) w.
Proof. unfold avoids, bind. destruct (m w); auto. Qed.

Lemma avoids_counter_load_bind {B : Type} (c : nat) (k : rconn_packet_counter -> M B)
    (w : world) :
  bad DanglingCounter = false ->
  (forall pc, counters w !! c = Some pc -> avoids bad (k pc) w) ->
  avoids bad (bind (counter_load c) k) w.
Proof.
  intros Hd H. unfold avoids, bind, counter_load.
  destruct (counters w !! c) as [pc |] eqn:E; [apply (H pc eq_refl) | exact Hd].
Qed.

Lemma never_bind {A B : Type} (m : M A) (k : A -> M B) :
  never bad m -> (forall a, never bad (k a)) -> never bad (bind m k).
Proof. intros Hm Hk w. apply avoids_then; auto. Qed.

Lemma never_when (c : bool) (m : M unit) : never bad m -> never bad (when c m).
Proof. intros H. destruct c; [exact H | intros w; exact I]. Qed.

End Avoiding.

Ltac never_leaf := let w := fresh "w" in intros w; first [exact I | reflexivity].

Ltac never_step :=
  lazymatch goal with
  | |- never _ (bind _ _) => apply never_bind; [| intros ?]
  | |- never _ (when _ _) => apply never_when
  | |- never _ (if ?c then _ else _) => destruct c
  | |- never _ (match ?x with _ => _ end) => destruct x
  | |- never _ (crash _) => never_leaf
  | |- never _ (ret _) => never_leaf
  | |- never _ get => never_leaf
  | |- never _ (modify _) => never_leaf
  | |- never _ (emit _) => never_leaf
  | |- never _ time_now => never_leaf
  | |- never _ ask => never_leaf
  | |- never _ poll_immediate_wake => never_leaf
  | |- never _ (report_error _) => never_leaf
  | |- never _ (counter_store _ _) => never_leaf
  | |- never _ (counter_free _) => never_leaf
  | |- never _ rconn_packet_counter_create => never_leaf
  | |- never _ (counter_load _) =>
      let w := fresh "w" in
      intros w; unfold avoids, counter_load; destruct (counters w !! _);
      [exact I | reflexivity]
  end.

Ltac never_auto := repeat never_step; eauto.

(** The primitive operations at the head of an [avoids] goal. *)
Ltac avoids_step :=
  lazymatch goal with
  | |- avoids ?bad (bind get ?k) ?w => change (avoids bad (k (rc w)) w)
  | |- avoids ?bad (bind time_now ?k) ?w => change (avoids bad (k (clock w)) w)
  | |- avoids ?bad (bind (modify ?f) ?k) ?w =>
      change (avoids bad (k tt) (with_rc (f (rc w)) w))
  | |- avoids ?bad (bind (emit ?e) ?k) ?w =>
      change (avoids bad (k tt) (with_log (e :: log w) w))
  | |- avoids ?bad (bind ask ?k) ?w =>
      change (avoids bad (k (peer w (calls w))) (with_calls (S (calls w)) w))
  | |- avoids ?bad (bind (ret ?a) ?k) ?w => change (avoids bad (k a) w)
  | |- avoids ?bad (bind (when true ?m) ?k) ?w => change (avoids bad (bind m k) w)
  | |- avoids ?bad (bind (when false _) ?k) ?w => change (avoids bad (k tt) w)
  | |- avoids _ (bind (bind _ _) _) _ => apply avoids_bind_assoc
  | |- avoids _ (ret _) _ => exact I
  | |- avoids _ (modify _) _ => exact I
  | |- avoids _ (emit _) _ => exact I
  | |- avoids _ (when false _) _ => exact I
  | |- avoids ?bad (when true ?m) ?w => change (avoids bad m w)
  end;
  cbv beta;
  cbn [rc counters clock peer calls log
       with_rc with_counters with_clock with_calls with_log fst snd].

Ltac avoids_run := repeat avoids_step.

(** A call to the transport through a null handle, or a read of the head of
    an empty queue. *)
Definition null_access (f : fault) : bool :=
  match f with
  | NullVconn | NullBuffer => true
  | _ => false
  end.

Lemma rconn_packet_counter_dec_quiet (c : nat) : never null_access (rconn_packet_counter_dec c).
Proof. unfold rconn_packet_counter_dec. never_auto. Qed.

Lemma rconn_packet_counter_inc_quiet (c : nat) : never null_access (rconn_packet_counter_inc c).
Proof. unfold rconn_packet_counter_inc. never_auto. Qed.

Lemma rconn_packet_counter_destroy_quiet (counter : option nat) :
  never null_access (rconn_packet_counter_destroy counter).
Proof. unfold rconn_packet_counter_destroy. never_auto. Qed.

Lemma counter_dec_opt_quiet (counter : option nat) : never null_access (counter_dec_opt counter).
Proof.
  destruct counter; simpl; [apply rconn_packet_counter_dec_quiet | never_auto].
Qed.

Lemma vconn_send_quiet (v : vconn_t) (b : ofpbuf) : never null_access (vconn_send (Some v) b).
Proof. unfold vconn_send. never_auto. Qed.

Lemma vconn_close_quiet (vc : option vconn_t) : never null_access (vconn_close vc).
Proof. unfold vconn_close. never_auto. Qed.

Lemma ofpbuf_delete_quiet (b : option ofpbuf) : never null_access (ofpbuf_delete b).
Proof. unfold ofpbuf_delete. never_auto. Qed.

Lemma flush_loop_quiet (fuel : nat) : never null_access (flush_loop fuel).
Proof.
  induction fuel as [| fuel IH]; simpl flush_loop; never_auto;
    auto using counter_dec_opt_quiet, ofpbuf_delete_quiet.
Qed.

Lemma flush_queue_quiet : never null_access flush_queue.
Proof. unfold flush_queue. never_auto. apply flush_loop_quiet. Qed.

Lemma rconn_disconnect_quiet : never null_access rconn_disconnect.
Proof. unfold rconn_disconnect. never_auto; apply vconn_close_quiet. Qed.

Lemma disconnect_quiet (error : Z) : never null_access (disconnect error).
Proof.
  unfold disconnect, int_mul. never_auto;
    auto using vconn_close_quiet, flush_queue_quiet, rconn_disconnect_quiet.
Qed.

Lemma monitor_loop_quiet (fuel : nat) :
  forall b i clone, never null_access (monitor_loop fuel b i clone).
Proof.
  induction fuel as [| fuel IH]; intros b i clone; simpl monitor_loop;
    unfold ofpbuf_clone; never_auto; auto using vconn_send_quiet.
Qed.

Lemma copy_to_monitor_quiet (b : ofpbuf) : never null_access (copy_to_monitor b).
Proof.
  unfold copy_to_monitor. never_auto;
    auto using monitor_loop_quiet, ofpbuf_delete_quiet.
Qed.

(** [vconn_open] hands back a transport whenever it returns 0, so
    [reconnect] reads the addresses of a transport that is there. *)
Lemma reconnect_quiet : never null_access reconnect.
Proof.
  intros w. unfold reconnect, vconn_open. avoids_run.
  destruct (a_retval (peer w (calls w)) =? 0); avoids_run.
  apply avoids_then; [apply disconnect_quiet | intros ?; never_leaf].
Qed.

(** The rest of [try_send] once the transport has answered. *)
Lemma try_send_tail_quiet (counter : option nat) (next : list ofpbuf) (retval : Z) :
  never null_access (if negb (retval =? 0) then
           when (negb (retval =? EAGAIN)) (report_error retval;; disconnect retval);;
           ret retval
         else
           modify (fun r => set_packets_sent (to_uint (packets_sent r + 1)) r);;
           counter_dec_opt counter;;
           modify (set_txq next);;
           ret 0).
Proof. never_auto; auto using disconnect_quiet, counter_dec_opt_quiet. Qed.

Lemma try_send_sound (w : world) :
  vconn (rc w) <> None -> txq (rc w) <> [] -> avoids null_access try_send w.
Proof.
  intros Hv Hq. unfold try_send. avoids_run.
  destruct (txq (rc w)) as [| head next]; [congruence |].
  destruct (vconn (rc w)) as [v |]; [| congruence].
  cbv zeta. apply avoids_then; [apply vconn_send_quiet |].
  intros retval. apply try_send_tail_quiet.
Qed.

(** A send that went through leaves the transport in place. *)
Lemma try_send_keeps_vconn (w : world) :
  wp try_send (fun e w' => e = 0 -> vconn (rc w') = vconn (rc w)) w.
Proof.
  unfold try_send. wp_run.
  destruct (txq (rc w)) as [| head next]; wp_run.
  unfold vconn_send. destruct (vconn (rc w)) as [v |] eqn:Hv; wp_run.
  destruct (Z.eqb_spec (a_retval (peer w (calls w))) 0) as [Hz | Hnz]; simpl negb; cbv iota.
  - wp_run. eapply wp_call; [apply counter_dec_opt_core |].
    intros [] w1 Hrc. wp_run. intros _. rewrite Hrc. fields. congruence.
  - eapply wp_call with (R := fun _ _ => True);
      [unfold wp; destruct (when _ _ _); exact I |].
    intros [] w1 _. wp_run. congruence.
Qed.

Lemma tx_loop_sound (fuel : nat) :
  forall w, vconn (rc w) <> None -> avoids null_access (tx_loop fuel) w.
Proof.
  induction fuel as [| fuel IH]; intros w Hv; simpl tx_loop; avoids_run.
  - destruct (txq_n (rc w) >? 0); [reflexivity | exact I].
  - unfold txq_n. destruct (Z.gtb_spec (Z.of_nat (length (txq (rc w)))) 0) as [Hpos | _];
      [| exact I].
    eapply avoids_call; [| apply try_send_keeps_vconn |].
    + apply try_send_sound; [exact Hv |]. destruct (txq (rc w)); [simpl in Hpos; lia | easy].
    + intros e w1 H1. cbv beta in H1.
      destruct (Z.eqb_spec e 0) as [-> | _]; simpl negb; cbv iota; [| exact I].
      apply IH. rewrite H1 by reflexivity. exact Hv.
Qed.

Lemma do_tx_work_sound (w : world) : vconn (rc w) <> None -> avoids null_access do_tx_work w.
Proof.
  intros Hv. unfold do_tx_work. avoids_run.
  destruct (txq_n (rc w) =? 0); [exact I |].
  apply avoids_then; [now apply tx_loop_sound |].
  intros []. never_auto.
Qed.

Lemma rconn_send_sound (b : ofpbuf) (counter : option nat) (w : world) :
  (rconn_is_connected (rc w) = true -> vconn (rc w) <> None) ->
  avoids null_access (rconn_send b counter) w.
Proof.
  intros Hv. unfold rconn_send. avoids_run.
  destruct (rconn_is_connected (rc w)); [| exact I].
  specialize (Hv eq_refl).
  eapply avoids_call; [apply copy_to_monitor_quiet | apply copy_to_monitor_core |].
  intros [] w1 Hcore. cbv beta zeta in *.
  assert (Hv1 : vconn (rc w1) <> None).
  { unfold same_core, core in Hcore. injection Hcore as _ Hvc _ _ _. congruence. }
  assert (Hpush : forall w2, rc w2 = rc w1 ->
    avoids null_access
      (modify (fun r => set_txq (txq r ++ [{| data := data b; private_p := counter |}]) r);;
           r' <- get;;
           when (txq_n r' =? 1) (_ <- try_send;; ret tt);;
           ret 0) w2).
  { intros w2 Hrc. avoids_run. rewrite Hrc.
    destruct (txq_n _ =? 1); avoids_run.
    apply avoids_then; [| intros ?; never_auto].
    apply try_send_sound; fields; [exact Hv1 |].
    destruct (txq (rc w1)); discriminate. }
  destruct counter as [c |].
  - unfold rconn_packet_counter_inc. apply avoids_bind_assoc.
    apply avoids_counter_load_bind; [reflexivity |]. intros pc Hpc.
    change (avoids null_access
              (modify (fun r =>
                         set_txq (txq r ++ [{| data := data b; private_p := Some c |}]) r);;
                   r' <- get;;
                   when (txq_n r' =? 1) (_ <- try_send;; ret tt);;
                   ret 0)
              (with_counters (<[c := {| n := to_int (n pc + 1); ref_cnt := ref_cnt pc |}]>
                                (counters w1)) w1)).
    apply Hpush. reflexivity.
  - avoids_step. apply Hpush. reflexivity.
Qed.

Lemma rconn_recv_sound (w : world) :
  (rconn_is_connected (rc w) = true -> vconn (rc w) <> None) -> avoids null_access rconn_recv w.
Proof.
  intros Hv. unfold rconn_recv. avoids_run.
  fold (is_connected_state (state (rc w))). fold (rconn_is_connected (rc w)).
  destruct (rconn_is_connected (rc w)); [| exact I].
  destruct (vconn (rc w)) as [v |]; [| now specialize (Hv eq_refl)].
  apply avoids_then; [unfold vconn_recv; intros; avoids_run; exact I |].
  intros res. cbv zeta. unfold is_admitted_msg.
  never_auto; auto using copy_to_monitor_quiet, disconnect_quiet.
Qed.

Lemma run_state_sound (w : world) :
  conn_inv (rc w) -> avoids null_access (run_state (state (rc w))) w.
Proof.
  intros [Hv _].
  assert (Hopen : state_in (state (rc w)) open_mask = true -> vconn (rc w) <> None).
  { intros Ho Hn. apply Hv in Hn. congruence. }
  destruct (state (rc w)) eqn:Hst; simpl run_state.
  - exact I.
  - unfold run_BACKOFF. avoids_run. destruct (timed_out _ _); avoids_run.
    apply avoids_then; [apply reconnect_quiet | intros ?; never_leaf].
  - specialize (Hopen eq_refl). unfold run_CONNECTING. avoids_run.
    destruct (vconn (rc w)) as [v |]; [| congruence].
    apply avoids_then; [unfold vconn_connect; intros; avoids_run; exact I |].
    intros retval. never_auto; auto using disconnect_quiet.
  - specialize (Hopen eq_refl). unfold run_ACTIVE. avoids_run.
    destruct (timed_out _ _); avoids_run; [| now apply do_tx_work_sound].
    apply avoids_then; [| intros ?; never_leaf].
    apply rconn_send_sound. fields. intros _. exact Hopen.
  - specialize (Hopen eq_refl). unfold run_IDLE. avoids_run.
    destruct (timed_out _ _); avoids_run; [apply disconnect_quiet | now apply do_tx_work_sound].
Qed.

Lemma rconn_run_sound (fuel : nat) :
  forall w, INV false (rc w) -> avoids null_access (rconn_run fuel) w.
Proof.
  induction fuel as [| fuel IH]; intros w Hinv; simpl rconn_run; [reflexivity |].
  avoids_run. cbv zeta.
  eapply avoids_call; [apply run_state_sound; apply Hinv | apply (run_state_INV false w Hinv) |].
  intros [] w1 H1. avoids_run. destruct (negb _); [now apply IH | exact I].
Qed.

Lemma connected_has_vconn (r : rconn) :
  conn_inv r -> rconn_is_connected r = true -> vconn r <> None.
Proof.
  intros [Hv _] Hc Hn. apply Hv in Hn.
  apply is_connected_state_spec in Hc. destruct Hc as [Hs | Hs]; rewrite Hs in Hn; discriminate.
Qed.

Lemma rconn_connect_quiet (nm : string) : never null_access (rconn_connect nm).
Proof.
  unfold rconn_connect. never_auto; auto using rconn_disconnect_quiet, reconnect_quiet.
Qed.

Lemma rconn_connect_unreliably_quiet (nm : string) (v : vconn_t) :
  never null_access (rconn_connect_unreliably nm v).
Proof. unfold rconn_connect_unreliably. never_auto. apply rconn_disconnect_quiet. Qed.

Lemma rconn_reconnect_quiet : never null_access rconn_reconnect.
Proof. unfold rconn_reconnect. never_auto. apply disconnect_quiet. Qed.

Lemma rconn_add_monitor_quiet (v : vconn_t) : never null_access (rconn_add_monitor v).
Proof. unfold rconn_add_monitor. never_auto. apply vconn_close_quiet. Qed.

Lemma exec_sound (c : call) (w : world) : INV false (rc w) -> avoids null_access (exec c) w.
Proof.
  intros Hinv. pose proof (connected_has_vconn _ (proj1 Hinv)) as Hv.
  destruct c; simpl exec; unfold discard.
  - apply avoids_then; [apply rconn_connect_quiet | intros ?; never_leaf].
  - apply rconn_connect_unreliably_quiet.
  - apply rconn_reconnect_quiet.
  - apply rconn_disconnect_quiet.
  - now apply rconn_run_sound.
  - apply avoids_then; [now apply rconn_recv_sound | intros ?; never_leaf].
  - apply avoids_then; [now apply rconn_send_sound | intros ?; never_leaf].
  - apply avoids_then; [| intros ?; never_leaf].
    unfold rconn_send_with_limit. destruct counter as [k |]; [| reflexivity].
    apply avoids_counter_load_bind; [reflexivity |]. intros pc Hpc.
    apply avoids_then; [| intros ?; never_auto; apply ofpbuf_delete_quiet].
    destruct (_ >=? _); [exact I | now apply rconn_send_sound].
  - exact I.
  - exact I.
  - apply rconn_add_monitor_quiet.
  - exact I.
  - exact I.
  - apply rconn_packet_counter_destroy_quiet.
  - exact I.
Qed.

(** An rconn that claims to be ACTIVE without a transport, with one buffer
    queued: a state the rconn never gets into. *)
Definition w_broken : world :=
  with_rc (set_txq [make_echo_request] (set_state S_ACTIVE (rc (boot (peer_always 0) 100 0 8))))
    (boot (peer_always 0) 100 0 8).

(** X7: the rconn never calls the transport through a null handle and never
    reads the head of an empty send queue: no call a client can make on an
    rconn it has created ends in either fault.  The transport is held
    exactly in CONNECTING, ACTIVE and IDLE, which is what keeps it so; an
    rconn that was ACTIVE without a transport would fault in [rconn_run]. *)
Theorem no_null_transport_no_empty_head (w : world) :
  reachable w ->
  (forall c, exec c w <> Crash NullVconn /\ exec c w <> Crash NullBuffer)
  /\ (vconn (rc w) = None <-> state (rc w) = S_VOID \/ state (rc w) = S_BACKOFF)
  /\ rconn_run 1 w_broken = Crash NullVconn.
Proof.
  intros Hreach. pose proof (reachable_INV false w Hreach) as Hinv.
  split; [| split; [| reflexivity]].
  - intros c. pose proof (exec_sound c w Hinv) as Hs. unfold avoids in Hs.
    destruct (exec c w) as [a w' | f]; [split; discriminate |].
    split; intros [= ->]; discriminate.
  - destruct Hinv as [[Hv _] _]. rewrite Hv.
    destruct (state (rc w)); vm_compute; intuition congruence.
Qed.

Lemma no_null_transport_no_empty_head_witness :
  exec (Run 3) w_active <> Crash NullVconn /\ exec (Run 3) w_active <> Crash NullBuffer.
Proof.
  exact (proj1 (no_null_transport_no_empty_head w_active reachable_w_active) (Run 3)).
Defined.

(** ** Time spent connected *)

Lemma to_ulong_idem (z : Z) : to_ulong (to_ulong z) = to_ulong z.
Proof. unfold to_ulong. apply Z.mod_mod. lia. Qed.

Lemma to_ulong_range (z : Z) : 0 <= to_ulong z < 2 ^ 64.
Proof. unfold to_ulong. apply Z.mod_pos_bound. lia. Qed.

Lemma to_ulong_exact (z : Z) : 0 <= z < 2 ^ 64 -> to_ulong z = z.
Proof. unfold to_ulong. intros H. apply Z.mod_small. exact H. Qed.

Lemma state_transition_total_time_connected now s r :
  total_time_connected (state_transition now s r)
  = if rconn_is_connected r
    then to_ulong (total_time_connected r + elapsed_in_this_state now r)
    else total_time_connected r.
Proof.
  unfold state_transition, rconn_is_connected, elapsed_in_this_state. cbv zeta.
  destruct (is_connected_state s), (is_connected_state (state r)) eqn:E;
    cbn; rewrite ?E; cbn; rewrite ?E; cbn; reflexivity.
Qed.

Lemma question_connectivity_total_time_connected now r :
  total_time_connected (question_connectivity now r) = total_time_connected r.
Proof. frame_question_connectivity. Qed.

Lemma elapsed_at_entry (now : Z) (s : rstate) (r : rconn) :
  elapsed_in_this_state now (state_transition now s r) = 0.
Proof.
  unfold elapsed_in_this_state. rewrite state_transition_state_entered, Z.sub_diag.
  reflexivity.
Qed.

(** A state transition moves the seconds of the state it leaves into the
    total, so the reading does not jump. *)
Lemma state_transition_total now s r :
  rconn_get_total_time_connected now (state_transition now s r)
  = rconn_get_total_time_connected now r.
Proof.
  unfold rconn_get_total_time_connected.
  rewrite elapsed_at_entry, state_transition_total_time_connected.
  destruct (rconn_is_connected (state_transition now s r)), (rconn_is_connected r);
    rewrite ?Z.add_0_r, ?to_ulong_idem; reflexivity.
Qed.

Lemma update_total (now : Z) (r r' : rconn) :
  update now r r' ->
  rconn_get_total_time_connected now r' = rconn_get_total_time_connected now r
  /\ (0 <= total_time_connected r < 2 ^ 64 -> 0 <= total_time_connected r' < 2 ^ 64).
Proof.
  intros Hu. destruct Hu; try (split; [reflexivity | exact id]).
  - split; [apply state_transition_total |].
    rewrite state_transition_total_time_connected.
    destruct (rconn_is_connected r); [intros _; apply to_ulong_range | exact id].
  - unfold question_connectivity. destruct (_ >? 60); split; solve [reflexivity | exact id].
  - unfold rconn_set_max_backoff. cbv zeta. case_ifs; split; solve [reflexivity | exact id].
Qed.

Lemma evolves_total (w w' : world) :
  evolves w w' ->
  rconn_get_total_time_connected (clock w') (rc w')
  = rconn_get_total_time_connected (clock w) (rc w).
Proof.
  induction 1 as [w | w1 w2 w3 H12 _ IH]; [reflexivity |].
  rewrite IH. destruct H12 as [w r' Hu | w e | w | w cs]; try reflexivity.
  simpl. now destruct (update_total _ _ _ Hu).
Qed.

Lemma reachable_total_range (w : world) :
  reachable w -> 0 <= total_time_connected (rc w) < 2 ^ 64.
Proof.
  revert w. apply (reachable_invariant (fun w => 0 <= total_time_connected (rc w) < 2 ^ 64)).
  - intros p now pi mb _. simpl. lia.
  - intros w w' Hm. destruct Hm as [w r' Hu | w e | w | w cs]; simpl; auto.
    now destruct (update_total _ _ _ Hu).
  - auto.
Qed.

(** X8: the reading of [rconn_get_total_time_connected] changes only with
    the clock.  No call on the rconn changes it; while the rconn is not
    connected it stands still as time passes; while the rconn is ACTIVE or
    IDLE it grows by one per second, as long as neither the seconds in the
    state leave [unsigned int] nor the total [unsigned long].  And
    [rconn_get_state_elapsed] is the time since the state was entered. *)
Theorem connected_time_follows_the_clock (w : world) :
  reachable w ->
  (forall c w', (forall seconds, c <> Sleep seconds) -> exec c w = Ok tt w' ->
     rconn_get_total_time_connected (clock w') (rc w')
     = rconn_get_total_time_connected (clock w) (rc w))
  /\ (forall d, rconn_is_connected (rc w) = false ->
        rconn_get_total_time_connected (clock w + d) (rc w)
        = rconn_get_total_time_connected (clock w) (rc w))
  /\ (forall d, rconn_is_connected (rc w) = true -> 0 <= d ->
        clock w + d - state_entered (rc w) <= UINT_MAX ->
        total_time_connected (rc w) + (clock w + d - state_entered (rc w)) < 2 ^ 64 ->
        rconn_get_state_elapsed (clock w + d) (rc w) = clock w + d - state_entered (rc w)
        /\ rconn_get_total_time_connected (clock w + d) (rc w)
           = rconn_get_total_time_connected (clock w) (rc w) + d).
Proof.
  intros Hreach. split; [| split].
  - intros c w' Hns Hrun. apply evolves_total.
    destruct (classic_sleep c) as [[seconds ->] | H]; [now destruct (Hns seconds) |].
    exact (wp_Ok _ _ _ _ _ (exec_evolves c w H) Hrun).
  - intros d Hc. unfold rconn_get_total_time_connected. now rewrite Hc.
  - intros d Hc Hd Hu Ht.
    destruct (reachable_time_inv w Hreach) as (Hse & _).
    pose proof (reachable_total_range w Hreach) as Hr.
    assert (Hel : forall e, 0 <= e <= d ->
              elapsed_in_this_state (clock w + e) (rc w) = clock w + e - state_entered (rc w)).
    { intros e He. unfold elapsed_in_this_state.
      rewrite to_time_exact by (unfold time_ok, TIME_MIN, TIME_MAX, UINT_MAX in *; lia).
      apply to_uint_exact. unfold uint_ok. lia. }
    unfold rconn_get_state_elapsed, rconn_get_total_time_connected. rewrite Hc.
    rewrite (Hel d) by lia. split; [reflexivity |].
    pose proof (Hel 0 ltac:(lia)) as H0. rewrite Z.add_0_r in H0. rewrite H0.
    rewrite !to_ulong_exact by lia. lia.
Qed.

Lemma connected_time_follows_the_clock_witness :
  rconn_get_total_time_connected (clock w_active + 7) (rc w_active)
  = rconn_get_total_time_connected (clock w_active) (rc w_active) + 7.
Proof.
  destruct (connected_time_follows_the_clock w_active reachable_w_active) as (_ & _ & H).
  apply (H 7); vm_compute; congruence.
Defined.

(** ** Waiting *)

Lemma sat_sub_zero (x y : Z) : sat_sub x y = 0 <-> x <= y.
Proof. unfold sat_sub. destruct (Z.geb_spec x y); lia. Qed.

Lemma sat_mul_1000_zero (x : Z) : 0 <= x -> (sat_mul x 1000 = 0 <-> x = 0).
Proof.
  unfold sat_mul. change (UINT_MAX / 1000) with 4294967. unfold UINT_MAX. intros Hx.
  destruct (Z.leb_spec x 4294967); lia.
Qed.

Lemma sat_sub_nonneg (x y : Z) : 0 <= sat_sub x y.
Proof. unfold sat_sub. destruct (Z.geb_spec x y); lia. Qed.

(** The timer that [rconn_run_wait] asks for. *)
Definition wait_msec (now : Z) (r : rconn) : Z :=
  sat_mul (sat_sub (sat_add (to_uint (state_entered r)) (timeout r)) (to_uint now)) 1000.

Lemma wait_msec_zero (now : Z) (r : rconn) :
  uint_ok now -> (wait_msec now r = 0 <-> timed_out now r = true).
Proof.
  intros Hnow. unfold wait_msec, timed_out.
  rewrite sat_mul_1000_zero by apply sat_sub_nonneg.
  rewrite sat_sub_zero, (to_uint_exact now Hnow), Z.geb_le. reflexivity.
Qed.

Lemma wait_msec_exact (now : Z) (r : rconn) :
  uint_ok now -> uint_ok (state_entered r) -> uint_ok (timeout r) ->
  state_entered r + timeout r <= UINT_MAX ->
  now <= state_entered r + timeout r ->
  state_entered r + timeout r - now <= 4294967 ->
  wait_msec now r = 1000 * (state_entered r + timeout r - now).
Proof.
  unfold uint_ok, UINT_MAX. intros Hn Hs Ht Hsum Hle Hsmall.
  unfold wait_msec, sat_add.
  rewrite (to_uint_exact (state_entered r)), (to_uint_exact now),
    (to_uint_exact (state_entered r + timeout r)) by (unfold uint_ok, UINT_MAX; lia).
  destruct (Z.geb_spec (state_entered r + timeout r) (state_entered r)); [| lia].
  unfold sat_sub. destruct (Z.geb_spec (state_entered r + timeout r) now); [| lia].
  unfold sat_mul. change (UINT_MAX / 1000) with 4294967.
  destruct (Z.leb_spec (state_entered r + timeout r - now) 4294967); lia.
Qed.

(** X9: what [rconn_run_wait] and [rconn_recv_wait] ask the poll loop for,
    on an rconn a client can have and with the clock within [unsigned int].
    Both return and change nothing.  [rconn_run_wait] arms a timer exactly
    when the state has a timeout (it is not [UINT_MAX]), and the timer is 0
    milliseconds exactly when [timed_out] holds, so that the process does
    not sleep over a timeout that [rconn_run] would act on; while the time
    left is positive and below 4294967 seconds the timer is 1000 times that
    many seconds.  It waits for the transport to take a send exactly when
    the rconn is connected with a non-empty send queue.  [rconn_recv_wait]
    waits for a receive exactly in CONNECTING, ACTIVE and IDLE. *)
Theorem waits_match_the_state (w : world) :
  reachable w -> uint_ok (clock w) ->
  (exists reqs,
     rconn_run_wait w = Ok reqs w
     /\ (forall ms, In (TimerWait ms) reqs <->
           timeout (rc w) <> UINT_MAX /\ ms = wait_msec (clock w) (rc w))
     /\ (timeout (rc w) <> UINT_MAX ->
           (wait_msec (clock w) (rc w) = 0 <-> timed_out (clock w) (rc w) = true)
           /\ (uint_ok (state_entered (rc w)) -> uint_ok (timeout (rc w)) ->
               state_entered (rc w) + timeout (rc w) <= UINT_MAX ->
               clock w <= state_entered (rc w) + timeout (rc w) ->
               state_entered (rc w) + timeout (rc w) - clock w <= 4294967 ->
               wait_msec (clock w) (rc w)
               = 1000 * (state_entered (rc w) + timeout (rc w) - clock w)))
     /\ (forall v what, In (VconnWait v what) reqs <->
           what = WAIT_SEND /\ vconn (rc w) = Some v
           /\ rconn_is_connected (rc w) = true /\ txq (rc w) <> []))
  /\ (exists reqs,
        rconn_recv_wait w = Ok reqs w
        /\ (forall q, In q reqs <->
              exists v, q = VconnWait v WAIT_RECV /\ vconn (rc w) = Some v
                /\ (state (rc w) = S_CONNECTING \/ state (rc w) = S_ACTIVE
                    \/ state (rc w) = S_IDLE))).
Proof.
  intros Hreach Hnow. pose proof (reachable_INV false w Hreach) as [Hconn _].
  pose proof (connected_has_vconn _ Hconn) as Hv. destruct Hconn as [Hopen _].
  split.
  - unfold rconn_run_wait, bind, get, time_now, poll_timer_wait, ret.
    fold (wait_msec (clock w) (rc w)). cbv zeta.
    fold (is_connected_state (state (rc w))). fold (rconn_is_connected (rc w)).
    assert (Hq : negb (txq_n (rc w) =? 0) = true <-> txq (rc w) <> []).
    { unfold txq_n. destruct (txq (rc w)); simpl; split; congruence. }
    destruct (Z.eqb_spec (timeout (rc w)) UINT_MAX) as [Hmax | Hmax]; simpl negb; cbv iota;
      (destruct (rconn_is_connected (rc w)) eqn:Hc; simpl andb;
       [destruct (negb (txq_n (rc w) =? 0)) eqn:Hn;
        [destruct (vconn (rc w)) as [v0 |] eqn:Hvc; [| now destruct (Hv eq_refl)] |] |]);
      simpl; eexists; (split; [reflexivity |]);
      (split; [| split]);
      try (intros _; split; [now apply wait_msec_zero | now apply wait_msec_exact]);
      try (intros H; now destruct (H Hmax));
      try (intros H; congruence).
    all: try (intros ms; simpl; split;
              [intros H; repeat destruct H as [H | H]; try discriminate; try easy;
               injection H as <-; auto
              | intros [H1 ->]; try congruence; auto]).
    all: intros v what; simpl; split;
      [ intros H; repeat destruct H as [H | H]; try discriminate; try easy;
        try (injection H as <- <-; repeat split; auto; now apply Hq)
      | intros (-> & Hs & Hcc & Hne); try congruence;
        try (apply Hq in Hne; congruence);
        try (injection Hs as <-; auto) ].
  - unfold rconn_recv_wait, bind, get.
    destruct (vconn (rc w)) as [v |] eqn:Hvc; simpl; eexists; (split; [reflexivity |]).
    + intros q. simpl. split.
      * intros [<- | []]. exists v. split; [reflexivity | split; [reflexivity |]].
        apply open_mask_spec. destruct (state_in (state (rc w)) open_mask) eqn:E;
          [reflexivity |]. destruct Hopen as [_ H]. discriminate (H eq_refl).
      * intros (v' & -> & [= <-] & _). auto.
    + intros q. simpl. split; [intros [] | intros (v' & _ & [=] & _)].
Qed.

Lemma waits_match_the_state_witness :
  exists reqs, rconn_recv_wait w_active = Ok reqs w_active.
Proof.
  destruct (waits_match_the_state w_active reachable_w_active) as [_ (reqs & H & _)].
  - vm_compute. split; discriminate.
  - exists reqs. exact H.
Defined.

(** ** The life of a packet counter *)

(** [m], [k] times in a row. *)
Fixpoint times (k : nat) (m : M unit) : M unit :=
  match k with
  | O => ret tt
  | S k' => m;; times k' m
  end.

Lemma with_counters_same (w : world) : with_counters (counters w) w = w.
Proof. destruct w; reflexivity. Qed.

Lemma counter_eta (pc : rconn_packet_counter) : {| n := n pc; ref_cnt := ref_cnt pc |} = pc.
Proof. destruct pc; reflexivity. Qed.

Lemma rconn_packet_counter_inc_dec (c : nat) (pc : rconn_packet_counter) (w : world) :
  counters w !! c = Some pc -> 0 <= n pc < INT_MAX -> ~ (n pc = 0 /\ ref_cnt pc = 0) ->
  (rconn_packet_counter_inc c;; rconn_packet_counter_dec c) w = Ok tt w.
Proof.
  intros Hc Hn Hlive.
  unfold rconn_packet_counter_inc, rconn_packet_counter_dec, bind, counter_load.
  rewrite Hc. unfold counter_store at 1. cbn [counters with_counters].
  rewrite lookup_insert_eq. cbn [n ref_cnt].
  rewrite (to_int_exact (n pc + 1)) by (unfold int_ok, INT_MIN, INT_MAX in *; lia).
  destruct (Z.gtb_spec (n pc + 1) 0) as [_ | ?]; [| lia].
  replace (n pc + 1 - 1) with (n pc) by lia.
  rewrite (to_int_exact (n pc)) by (unfold int_ok, INT_MIN, INT_MAX in *; lia).
  unfold counter_store. cbn [counters with_counters].
  replace ((n pc =? 0) && (ref_cnt pc =? 0)) with false
    by (symmetry; apply andb_false_iff;
        destruct (Z.eqb_spec (n pc) 0), (Z.eqb_spec (ref_cnt pc) 0); auto; tauto).
  unfold when, ret. cbn [rc counters clock peer calls log with_counters].
  rewrite insert_insert_eq, counter_eta, (insert_id _ _ _ Hc).
  destruct w; reflexivity.
Qed.

Lemma rconn_packet_counter_dec_unreferenced (c k : nat) (w : world) :
  counters w !! c = Some {| n := Z.of_nat (S k); ref_cnt := 0 |} ->
  Z.of_nat (S k) <= INT_MAX ->
  rconn_packet_counter_dec c w
  = Ok tt (with_counters
             (if decide (k = 0%nat) then delete c (counters w)
              else <[c := {| n := Z.of_nat k; ref_cnt := 0 |}]> (counters w)) w).
Proof.
  intros Hc Hk. unfold rconn_packet_counter_dec, bind, counter_load. rewrite Hc.
  cbn [n ref_cnt].
  destruct (Z.gtb_spec (Z.of_nat (S k)) 0) as [_ | ?]; [| lia].
  replace (Z.of_nat (S k) - 1) with (Z.of_nat k) by lia.
  rewrite (to_int_exact (Z.of_nat k)) by (unfold int_ok, INT_MIN, INT_MAX in *; lia).
  unfold counter_store, when, counter_free, ret.
  cbn [rc counters clock peer calls log with_counters].
  destruct (decide (k = 0%nat)) as [-> | Hne].
  - simpl. now rewrite delete_insert_eq.
  - replace (Z.of_nat k =? 0) with false by (symmetry; apply Z.eqb_neq; lia).
    reflexivity.
Qed.

Lemma times_dec_unreferenced (c : nat) (j : nat) :
  forall (k : nat) (w : world),
  counters w !! c = Some {| n := Z.of_nat k; ref_cnt := 0 |} ->
  (0 < k)%nat -> Z.of_nat k <= INT_MAX -> (j <= k)%nat ->
  times j (rconn_packet_counter_dec c) w
  = Ok tt (with_counters
             (if decide (j = k) then delete c (counters w)
              else <[c := {| n := Z.of_nat (k - j); ref_cnt := 0 |}]> (counters w)) w).
Proof.
  induction j as [| j IH]; intros k w Hc Hpos Hk Hj.
  - simpl. rewrite decide_False by lia. rewrite Nat.sub_0_r, (insert_id _ _ _ Hc).
    unfold ret. now rewrite with_counters_same.
  - destruct k as [| k]; [lia |].
    cbn [times]. unfold bind. rewrite (rconn_packet_counter_dec_unreferenced c k w Hc Hk).
    destruct (decide (k = 0%nat)) as [-> | Hne].
    + assert (j = 0)%nat as -> by lia. reflexivity.
    + set (w1 := with_counters (<[c := {| n := Z.of_nat k; ref_cnt := 0 |}]> (counters w)) w).
      assert (H1 : counters w1 !! c = Some {| n := Z.of_nat k; ref_cnt := 0 |})
        by apply lookup_insert_eq.
      rewrite (IH k w1 H1) by lia. subst w1.
      cbn [rc counters clock peer calls log with_counters].
      destruct (decide (j = k)) as [-> | Hjk].
      * rewrite decide_True by reflexivity. now rewrite delete_insert_eq.
      * rewrite decide_False by lia. rewrite insert_insert_eq. reflexivity.
Qed.

(** X10: the life of a packet counter.  A new counter is at a fresh address
    with [n = 0] and one reference.  Incrementing and then decrementing a
    live counter below [INT_MAX] leaves everything as it was.  Destroying
    the last reference while [k > 0] packets are in flight does not free the
    counter: it stays, unreferenced, through the first [k - 1] decrements
    and is freed by the [k]-th; with no packet in flight it is freed at
    once.  Destroying a null counter does nothing, and decrementing a
    counter at 0 or destroying one without a reference fails the
    assertion. *)
Theorem packet_counter_life (c : nat) (w : world) :
  (forall c' w', rconn_packet_counter_create w = Ok c' w' ->
     counters w !! c' = None
     /\ w' = with_counters (<[c' := {| n := 0; ref_cnt := 1 |}]> (counters w)) w)
  /\ (forall pc, counters w !! c = Some pc -> 0 <= n pc < INT_MAX ->
        ~ (n pc = 0 /\ ref_cnt pc = 0) ->
        (rconn_packet_counter_inc c;; rconn_packet_counter_dec c) w = Ok tt w)
  /\ (forall k j : nat,
        counters w !! c = Some {| n := Z.of_nat k; ref_cnt := 1 |} ->
        Z.of_nat k <= INT_MAX -> (j <= k)%nat ->
        (rconn_packet_counter_destroy (Some c);; times j (rconn_packet_counter_dec c)) w
        = Ok tt (with_counters
                   (if decide (j = k) then delete c (counters w)
                    else <[c := {| n := Z.of_nat (k - j); ref_cnt := 0 |}]> (counters w))
                   w))
  /\ rconn_packet_counter_destroy None w = Ok tt w
  /\ (forall pc, counters w !! c = Some pc -> n pc <= 0 ->
        rconn_packet_counter_dec c w = Crash AssertionFailed)
  /\ (forall pc, counters w !! c = Some pc -> ref_cnt pc <= 0 ->
        rconn_packet_counter_destroy (Some c) w = Crash AssertionFailed).
Proof.
  split; [| split; [| split; [| split; [| split]]]].
  - unfold rconn_packet_counter_create. intros c' w' [= <- <-].
    split; [| reflexivity]. apply not_elem_of_dom, is_fresh.
  - intros pc. apply rconn_packet_counter_inc_dec.
  - intros k j Hc Hk Hj.
    unfold rconn_packet_counter_destroy, bind, counter_load.
    rewrite Hc. cbn [n ref_cnt]. change (1 >? 0) with true. cbv beta iota zeta.
    change (to_int (1 - 1)) with 0. unfold counter_store.
    cbn [rc counters clock peer calls log with_counters].
    change (0 =? 0) with true. cbn [andb].
    destruct k as [| k].
    + assert (j = 0)%nat as -> by lia. simpl. unfold counter_free, ret.
      cbn [rc counters clock peer calls log with_counters]. now rewrite delete_insert_eq.
    + replace (Z.of_nat (S k) =? 0) with false by (symmetry; apply Z.eqb_neq; lia).
      unfold when, ret.
      set (w1 := with_counters (<[c := {| n := Z.of_nat (S k); ref_cnt := 0 |}]> (counters w)) w).
      assert (H1 : counters w1 !! c = Some {| n := Z.of_nat (S k); ref_cnt := 0 |})
        by apply lookup_insert_eq.
      rewrite (times_dec_unreferenced c j (S k) w1 H1) by lia. subst w1.
      cbn [rc counters clock peer calls log with_counters].
      destruct (decide (j = S k)); [now rewrite delete_insert_eq |].
      now rewrite insert_insert_eq.
  - reflexivity.
  - intros pc Hc Hn. unfold rconn_packet_counter_dec, bind, counter_load. rewrite Hc.
    destruct (Z.gtb_spec (n pc) 0); [lia | reflexivity].
  - intros pc Hc Hn. unfold rconn_packet_counter_destroy, bind, counter_load. rewrite Hc.
    destruct (Z.gtb_spec (ref_cnt pc) 0); [lia | reflexivity].
Qed.

(** A counter with two packets in flight. *)
Definition w_in_flight : world :=
  after (times 2 (rconn_packet_counter_inc (fresh (dom (counters w_backoff1))))) w_counter.

Lemma packet_counter_life_witness :
  (rconn_packet_counter_destroy (Some (fresh (dom (counters w_backoff1))));;
   times 2 (rconn_packet_counter_dec (fresh (dom (counters w_backoff1))))) w_in_flight
  = Ok tt (with_counters (delete (fresh (dom (counters w_backoff1))) (counters w_in_flight))
             w_in_flight).
Proof.
  destruct (packet_counter_life (fresh (dom (counters w_backoff1))) w_in_flight)
    as (_ & _ & H & _).
  apply (H 2%nat 2%nat); [vm_compute; reflexivity | vm_compute; discriminate | lia].
Defined.

(** ** Flushing the send queue *)

(** What becomes of a counter once [k] buffers charged to it have been given
    back. *)
Definition settle (k : nat) (o : option rconn_packet_counter) : option rconn_packet_counter :=
  match o with
  | Some pc =>
      if decide (k = 0%nat) then Some pc
      else if (n pc - Z.of_nat k =? 0) && (ref_cnt pc =? 0) then None
      else Some {| n := n pc - Z.of_nat k; ref_cnt := ref_cnt pc |}
  | None => None
  end.

Lemma rconn_packet_counter_dec_settles (w : world) (c : nat) (pc : rconn_packet_counter) :
  counters w !! c = Some pc -> 0 < n pc <= INT_MAX ->
  exists cs,
    rconn_packet_counter_dec c w = Ok tt (with_counters cs w)
    /\ cs !! c = settle 1 (Some pc)
    /\ (forall c', c' <> c -> cs !! c' = counters w !! c').
Proof.
  intros Hc Hn.
  unfold rconn_packet_counter_dec, bind, counter_load. rewrite Hc.
  destruct (Z.gtb_spec (n pc) 0) as [_ | ?]; [| lia].
  rewrite to_int_exact by (unfold int_ok, INT_MIN, INT_MAX in *; lia).
  unfold counter_store, when, counter_free, ret, settle.
  cbn [rc counters clock peer calls log with_counters].
  rewrite decide_False by lia. change (Z.of_nat 1) with 1.
  destruct ((n pc - 1 =? 0) && (ref_cnt pc =? 0)).
  - eexists. split; [reflexivity |]. cbn [counters with_counters].
    split; [apply lookup_delete_eq |].
    intros c' Hne. rewrite lookup_delete_ne by auto. now rewrite lookup_insert_ne by auto.
  - eexists. split; [reflexivity |]. cbn [counters with_counters].
    split; [apply lookup_insert_eq |].
    intros c' Hne. now rewrite lookup_insert_ne by auto.
Qed.

Lemma settle_settle (k : nat) (pc : rconn_packet_counter) :
  Z.of_nat (S k) <= n pc -> settle k (settle 1 (Some pc)) = settle (S k) (Some pc).
Proof.
  intros Hle. unfold settle at 2 3. rewrite !decide_False by lia.
  change (Z.of_nat 1) with 1.
  destruct ((n pc - 1 =? 0) && (ref_cnt pc =? 0)) eqn:E1.
  - apply andb_true_iff in E1 as [E1 E2]. apply Z.eqb_eq in E1.
    assert (k = 0)%nat as -> by lia. simpl settle. change (Z.of_nat 1) with 1.
    replace (n pc - 1 =? 0) with true by (symmetry; apply Z.eqb_eq; lia).
    now rewrite E2.
  - unfold settle. cbn [n ref_cnt]. destruct (decide (k = 0%nat)) as [-> | Hk].
    + change (Z.of_nat 1) with 1. now rewrite E1.
    + replace (n pc - 1 - Z.of_nat k) with (n pc - Z.of_nat (S k)) by lia. reflexivity.
Qed.

(** One step of the loop of [flush_queue], seen from the counters. *)
Lemma counter_dec_opt_settles (w : world) (b : ofpbuf) (rest : list ofpbuf) :
  charges_ok (counters w) (b :: rest) ->
  exists cs,
    counter_dec_opt (private_p b) w = Ok tt (with_counters cs w)
    /\ charges_ok cs rest
    /\ (forall c, settle (charged c rest) (cs !! c)
                  = settle (charged c (b :: rest)) (counters w !! c)).
Proof.
  intros Hok. destruct (private_p b) as [c0 |] eqn:Hb; simpl counter_dec_opt.
  - destruct (Hok c0) as (pc & Hpc & Hle).
    { rewrite charged_cons, decide_True by assumption. lia. }
    rewrite charged_cons, decide_True in Hle by assumption.
    destruct (rconn_packet_counter_dec_settles w c0 pc Hpc ltac:(lia))
      as (cs & Hrun & Hsame & Hother).
    exists cs. split; [exact Hrun |]. split.
    + eapply charges_ok_dec; eauto. rewrite Hsame. unfold settle.
      rewrite decide_False by lia. change (Z.of_nat 1) with 1.
      destruct ((n pc - 1 =? 0) && (ref_cnt pc =? 0)) eqn:E; [right | left; reflexivity].
      split; [reflexivity |]. apply andb_true_iff in E as [E _]. lia.
    + intros c. rewrite charged_cons. destruct (decide (private_p b = Some c)) as [Hc | Hc].
      * assert (c = c0) as -> by congruence.
        rewrite Hsame, Hpc. apply settle_settle. lia.
      * rewrite Hother by congruence. reflexivity.
  - exists (counters w). split; [unfold ret; now rewrite with_counters_same |].
    split; [eapply charges_ok_tail; eauto |].
    intros c. rewrite charged_cons, decide_False by congruence. reflexivity.
Qed.

Lemma flush_loop_settles (fuel : nat) :
  forall w, (length (txq (rc w)) <= fuel)%nat ->
  charges_ok (counters w) (txq (rc w)) ->
  exists cs,
    flush_loop fuel w
    = Ok tt (with_log (rev (map EvDelete (txq (rc w))) ++ log w)
               (with_counters cs (with_rc (set_txq [] (rc w)) w)))
    /\ (forall c, cs !! c = settle (charged c (txq (rc w))) (counters w !! c)).
Proof.
  assert (Hnil : forall w, txq (rc w) = [] ->
    exists cs,
      Ok tt w = Ok tt (with_log (rev (map EvDelete []) ++ log w)
                         (with_counters cs (with_rc (set_txq [] (rc w)) w)))
      /\ (forall c, cs !! c = settle (charged c []) (counters w !! c))).
  { intros w Hq. exists (counters w). split.
    - replace (set_txq [] (rc w)) with (rc w)
        by (rewrite <- Hq; symmetry; apply set_txq_same).
      destruct w; reflexivity.
    - intros c. unfold settle, charged. rewrite filter_nil. simpl.
      destruct (counters w !! c); reflexivity. }
  induction fuel as [| fuel IH]; intros w Hlen Hok.
  - destruct (txq (rc w)) eqn:Hq; [| simpl in Hlen; lia].
    simpl. unfold bind, get. rewrite Hq. exact (Hnil w Hq).
  - simpl. unfold bind at 1. unfold get at 1.
    destruct (txq (rc w)) as [| b rest] eqn:Hq.
    + exact (Hnil w Hq).
    + unfold bind at 1. unfold modify at 1.
      set (w1 := with_rc (set_txq rest (rc w)) w).
      destruct (counter_dec_opt_settles w1 b rest Hok) as (cs1 & Hrun & Hok1 & Hset).
      rewrite (bind_Ok _ _ _ _ _ Hrun).
      unfold bind at 1. simpl ofpbuf_delete. unfold emit at 1.
      destruct (IH (with_log (EvDelete b :: log (with_counters cs1 w1)) (with_counters cs1 w1)))
        as (cs & Hrun3 & Hcs).
      { simpl. simpl in Hlen. lia. }
      { exact Hok1. }
      exists cs. split.
      * rewrite Hrun3. subst w1. simpl. rewrite <- app_assoc. reflexivity.
      * intros c. rewrite Hcs. simpl. apply Hset.
Qed.

Lemma close_monitors_log (ms : list vconn_t) :
  forall w, close_monitors ms w = Ok tt (with_log (rev (map EvClose ms) ++ log w) w).
Proof.
  induction ms as [| v rest IH]; intros w.
  - simpl. unfold ret. destruct w; reflexivity.
  - simpl. unfold bind, emit. rewrite IH. simpl. rewrite <- app_assoc. reflexivity.
Qed.

(** The events of the poll loop and of the buffer pool that [flush_queue]
    causes on the queue [q], the latest first. *)
Definition flush_events (q : list ofpbuf) : list event :=
  match q with
  | [] => []
  | _ => EvWake :: rev (map EvDelete q)
  end.

Lemma flush_queue_settles (w : world) :
  charges_ok (counters w) (txq (rc w)) ->
  exists cs,
    flush_queue w
    = Ok tt (with_log (flush_events (txq (rc w)) ++ log w)
               (with_counters cs (with_rc (set_txq [] (rc w)) w)))
    /\ (forall c, cs !! c = settle (charged c (txq (rc w))) (counters w !! c)).
Proof.
  intros Hok. unfold flush_queue, bind at 1, get at 1, txq_n.
  destruct (txq (rc w)) as [| b rest] eqn:Hq.
  - simpl. exists (counters w). split.
    + unfold ret. replace (set_txq [] (rc w)) with (rc w)
        by (rewrite <- Hq; symmetry; apply set_txq_same).
      destruct w; reflexivity.
    + intros c. unfold settle, charged. rewrite filter_nil. simpl.
      destruct (counters w !! c); reflexivity.
  - replace (Z.of_nat (length (b :: rest)) =? 0) with false
      by (symmetry; apply Z.eqb_neq; simpl length; lia).
    destruct (flush_loop_settles (length (b :: rest)) w) as (cs & Hrun & Hcs).
    { rewrite Hq. lia. }
    { rewrite Hq. exact Hok. }
    rewrite (bind_Ok _ _ _ _ _ Hrun). unfold poll_immediate_wake, emit.
    exists cs. rewrite Hq in *. split; [reflexivity | exact Hcs].
Qed.

(** X11: [flush_queue] gives back every charge, and [rconn_destroy] closes
    everything once.  If every counter that a queued buffer is charged to is
    alive and counts at least the buffers queued against it, [flush_queue]
    returns with the queue empty; each buffer has been deleted once, in
    queue order; each counter has gone down by the number of buffers that
    were charged to it, and is freed exactly if that brings it to 0 with no
    reference left; the poll loop is woken exactly if the queue was not
    empty.  [rconn_destroy] on such an rconn closes the transport if there
    is one, does the same flush, and closes every monitor once, in order. *)
Theorem flush_returns_every_charge (w : world) :
  charges_ok (counters w) (txq (rc w)) ->
  exists cs,
    (forall c, cs !! c = settle (charged c (txq (rc w))) (counters w !! c))
    /\ flush_queue w
       = Ok tt (with_log (flush_events (txq (rc w)) ++ log w)
                  (with_counters cs (with_rc (set_txq [] (rc w)) w)))
    /\ rconn_destroy w
       = Ok tt (with_log (rev (map EvClose (monitors (rc w)))
                          ++ flush_events (txq (rc w))
                          ++ match vconn (rc w) with
                             | Some v => [EvClose v]
                             | None => []
                             end
                          ++ log w)
                  (with_counters cs (with_rc (set_txq [] (rc w)) w))).
Proof.
  intros Hok. destruct (flush_queue_settles w Hok) as (cs & Hrun & Hcs).
  exists cs. split; [exact Hcs |]. split; [exact Hrun |].
  unfold rconn_destroy, bind at 1, get at 1.
  destruct (vconn (rc w)) as [v |] eqn:Hv.
  - unfold bind at 1. simpl vconn_close. unfold emit at 1.
    destruct (flush_queue_settles (with_log (EvClose v :: log w) w) Hok) as (cs2 & Hrun2 & Hcs2).
    assert (cs2 = cs) as -> by (apply map_eq; intros c; rewrite Hcs, Hcs2; reflexivity).
    unfold bind at 1. rewrite Hrun2. unfold bind, get.
    rewrite close_monitors_log. reflexivity.
  - unfold bind at 1. simpl vconn_close. unfold ret at 1.
    unfold bind at 1. rewrite Hrun. unfold bind, get.
    rewrite close_monitors_log. reflexivity.
Qed.

(** [w_idle] after two sends against a new counter: the transport takes the
    first buffer and not yet the second. *)
Definition w_queued : world :=
  after (rconn_send make_echo_request (Some (fresh (dom (counters w_idle)))))
    (after (rconn_send make_echo_request (Some (fresh (dom (counters w_idle)))))
       (after rconn_packet_counter_create w_idle)).

Lemma flush_returns_every_charge_witness :
  exists cs,
    cs !! 0%nat = Some {| n := 0; ref_cnt := 1 |}
    /\ flush_queue w_queued
       = Ok tt (with_log (flush_events (txq (rc w_queued)) ++ log w_queued)
                  (with_counters cs (with_rc (set_txq [] (rc w_queued)) w_queued))).
Proof.
  destruct (flush_returns_every_charge w_queued) as (cs & Hcs & Hrun & _).
  - intros c Hpos. exists {| n := 1; ref_cnt := 1 |}.
    assert (Hq : txq (rc w_queued)
                 = [{| data := data make_echo_request; private_p := Some 0%nat |}])
      by (vm_compute; reflexivity).
    rewrite Hq in *. rewrite charged_cons in *. cbn [private_p] in *.
    destruct (decide (Some 0%nat = Some c)) as [[= <-] | Hne].
    + split; [vm_compute; reflexivity | vm_compute; split; discriminate].
    + vm_compute in Hpos. lia.
  - exists cs. split; [| exact Hrun]. rewrite Hcs. vm_compute. reflexivity.
Defined.

(** ** Sending the queue *)

(** How far the transport lets the queue [q] go when its answers are taken
    from [p], starting at the [i]-th: the number of buffers it accepts
    before the queue is empty or it asks to try again, or nothing if it
    reports an error first. *)
Fixpoint accepts (p : nat -> answer) (i : nat) (q : list ofpbuf) : option nat :=
  match q with
  | [] => Some 0%nat
  | _ :: rest =>
      if a_retval (p i) =? 0 then S <$> accepts p (S i) rest
      else if a_retval (p i) =? EAGAIN then Some 0%nat
      else None
  end.

(** The calls [do_tx_work] makes when the transport accepts [k] buffers of
    [q], the latest first, and their number. *)
Definition tx_loop_log (v : vconn_t) (q : list ofpbuf) (k : nat) : list event :=
  match drop k q with
  | [] => []
  | b :: _ => [EvSend v b EAGAIN]
  end ++ rev (map (fun b => EvSend v b 0) (take k q)).

Definition tx_log (v : vconn_t) (q : list ofpbuf) (k : nat) : list event :=
  match drop k q, q with
  | [], _ :: _ => [EvWake]
  | _, _ => []
  end ++ tx_loop_log v q k.

Definition tx_calls (q : list ofpbuf) (k : nat) : nat :=
  match drop k q with
  | [] => k
  | _ :: _ => S k
  end.

Lemma accepts_le (p : nat -> answer) (q : list ofpbuf) :
  forall i k, accepts p i q = Some k -> (k <= length q)%nat.
Proof.
  induction q as [| b rest IH]; intros i k; simpl.
  - intros [= <-]. lia.
  - destruct (a_retval (p i) =? 0).
    + destruct (accepts p (S i) rest) as [k' |] eqn:E; simpl; intros [= <-].
      specialize (IH _ _ E). lia.
    + destruct (a_retval (p i) =? EAGAIN); intros [= <-]. lia.
Qed.

Lemma charged_take (c : nat) (q : list ofpbuf) :
  forall k, (charged c (take k q) <= charged c q)%nat.
Proof.
  induction q as [| b rest IH]; intros [| k]; simpl take;
    rewrite ?charged_cons; unfold charged; simpl; try lia.
  fold (charged c (take k rest)). fold (charged c rest). specialize (IH k). lia.
Qed.

Lemma charges_ok_take (cs : gmap nat rconn_packet_counter) (q : list ofpbuf) (k : nat) :
  charges_ok cs q -> charges_ok cs (take k q).
Proof.
  intros Hok c Hpos. pose proof (charged_take c q k) as Hle.
  destruct (Hok c ltac:(lia)) as (pc & Hpc & Hn). exists pc. split; [assumption | lia].
Qed.

Lemma set_packets_sent_same (r : rconn) : set_packets_sent (packets_sent r) r = r.
Proof. destruct r; reflexivity. Qed.

Lemma to_uint_add_l (x y : Z) : to_uint (to_uint x + y) = to_uint (x + y).
Proof. unfold to_uint. apply Zplus_mod_idemp_l. Qed.

(** A buffer that the transport accepts. *)
Lemma try_send_accepted (w : world) (v : vconn_t) (b : ofpbuf) (rest : list ofpbuf) :
  txq (rc w) = b :: rest -> vconn (rc w) = Some v ->
  a_retval (peer w (calls w)) = 0 ->
  charges_ok (counters w) (b :: rest) ->
  exists cs,
    try_send w
    = Ok 0 (with_rc (set_txq rest
                       (set_packets_sent (to_uint (packets_sent (rc w) + 1)) (rc w)))
              (with_counters cs
                 (with_log (EvSend v b 0 :: log w) (with_calls (S (calls w)) w))))
    /\ charges_ok cs rest
    /\ (forall l, charges_ok (counters w) (b :: l) ->
          forall c, settle (charged c l) (cs !! c)
                    = settle (charged c (b :: l)) (counters w !! c)).
Proof.
  intros Hq Hv Ha Hok.
  set (w1 := with_rc (set_packets_sent (to_uint (packets_sent (rc w) + 1)) (rc w))
               (with_log (EvSend v b 0 :: log w) (with_calls (S (calls w)) w))).
  destruct (counter_dec_opt_settles w1 b rest Hok) as (cs & Hrun & Hok1 & _).
  exists cs. split; [| split; [exact Hok1 |]].
  - unfold try_send, bind at 1, get at 1. rewrite Hq, Hv.
    unfold vconn_send, bind, ask, emit. rewrite Ha. simpl negb. cbv iota.
    change (match counter_dec_opt (private_p b) w1 with
            | Ok _ w2 => Ok 0 (with_rc (set_txq rest (rc w2)) w2)
            | Crash f => Crash f
            end = Ok 0 (with_rc (set_txq rest (rc w1)) (with_counters cs w1))).
    rewrite Hrun. reflexivity.
  - intros l Hl c.
    destruct (counter_dec_opt_settles w1 b l Hl) as (cs' & Hrun' & _ & Hset).
    rewrite Hrun in Hrun'. injection Hrun' as Heq. subst cs'. apply Hset.
Qed.

(** A buffer that the transport does not take yet. *)
Lemma try_send_again (w : world) (v : vconn_t) (b : ofpbuf) (rest : list ofpbuf) :
  txq (rc w) = b :: rest -> vconn (rc w) = Some v ->
  a_retval (peer w (calls w)) = EAGAIN ->
  try_send w
  = Ok EAGAIN (with_log (EvSend v b EAGAIN :: log w) (with_calls (S (calls w)) w)).
Proof.
  intros Hq Hv Ha. unfold try_send, bind at 1, get at 1. rewrite Hq, Hv.
  unfold vconn_send, bind, ask, emit. rewrite Ha. reflexivity.
Qed.

Lemma tx_loop_sends (v : vconn_t) (q : list ofpbuf) :
  forall (fuel : nat) (w : world) (k : nat),
  txq (rc w) = q -> vconn (rc w) = Some v -> (length q <= fuel)%nat ->
  charges_ok (counters w) q -> uint_ok (packets_sent (rc w)) ->
  accepts (peer w) (calls w) q = Some k ->
  exists cs,
    tx_loop fuel w
    = Ok tt (with_rc (set_txq (drop k q)
                        (set_packets_sent (to_uint (packets_sent (rc w) + Z.of_nat k))
                           (rc w)))
               (with_counters cs
                  (with_log (tx_loop_log v q k ++ log w)
                     (with_calls (tx_calls q k + calls w) w))))
    /\ (forall c, cs !! c = settle (charged c (take k q)) (counters w !! c)).
Proof.
  induction q as [| b rest IH]; intros fuel w k Hq Hv Hlen Hok Hu Hacc.
  - simpl in Hacc. injection Hacc as <-. exists (counters w). split.
    + assert (Hrun : tx_loop fuel w = Ok tt w).
      { destruct fuel; simpl; unfold bind, get, txq_n; rewrite Hq; reflexivity. }
      rewrite Hrun. f_equal. simpl. rewrite Z.add_0_r, (to_uint_exact _ Hu).
      rewrite set_packets_sent_same, <- Hq, set_txq_same. destruct w; reflexivity.
    + intros c. unfold charged. simpl. destruct (counters w !! c); reflexivity.
  - destruct fuel as [| fuel]; [simpl in Hlen; lia |].
    simpl in Hacc. simpl tx_loop. unfold bind at 1, get at 1, txq_n. rewrite Hq.
    replace (Z.of_nat (length (b :: rest)) >? 0) with true
      by (symmetry; apply Z.gtb_lt; simpl length; lia).
    destruct (Z.eqb_spec (a_retval (peer w (calls w))) 0) as [Ha | Ha].
    + destruct (accepts (peer w) (S (calls w)) rest) as [k' |] eqn:E; [| discriminate].
      simpl in Hacc. injection Hacc as <-.
      destruct (try_send_accepted w v b rest Hq Hv Ha Hok) as (cs1 & Hrun1 & Hok1 & Hset).
      unfold bind at 1. rewrite Hrun1. change (negb (0 =? 0)) with false. cbv iota.
      match goal with |- context [tx_loop fuel ?W] => set (w1 := W) end.
      destruct (IH fuel w1 k') as (cs & Hrun & Hcs).
      { reflexivity. }
      { subst w1. cbn [rc with_rc]. fields. exact Hv. }
      { simpl in Hlen. lia. }
      { exact Hok1. }
      { subst w1. cbn [rc with_rc]. fields. apply to_uint_range. }
      { exact E. }
      exists cs. split.
      * rewrite Hrun. f_equal. subst w1.
        cbn [rc counters clock peer calls log
             with_rc with_counters with_clock with_calls with_log].
        fields. rewrite to_uint_add_l.
        replace (packets_sent (rc w) + 1 + Z.of_nat k')
          with (packets_sent (rc w) + Z.of_nat (S k')) by lia.
        unfold tx_loop_log, tx_calls. simpl drop. simpl take. simpl map. simpl rev.
        rewrite <- !app_assoc. simpl app.
        replace (match drop k' rest with [] => k' | _ :: _ => S k' end + S (calls w))%nat
          with (match drop k' rest with [] => S k' | _ :: _ => S (S k') end + calls w)%nat
          by (destruct (drop k' rest); lia).
        reflexivity.
      * intros c. rewrite Hcs. subst w1. cbn [counters with_rc with_counters].
        simpl take. apply Hset. change (b :: take k' rest) with (take (S k') (b :: rest)).
        now apply charges_ok_take.
    + destruct (Z.eqb_spec (a_retval (peer w (calls w))) EAGAIN) as [He | He];
        [| discriminate].
      injection Hacc as <-. unfold bind at 1.
      rewrite (try_send_again w v b rest Hq Hv He).
      change (negb (EAGAIN =? 0)) with true. cbv iota.
      exists (counters w). split.
      * unfold ret. f_equal. simpl. rewrite Z.add_0_r, (to_uint_exact _ Hu).
        rewrite set_packets_sent_same, <- Hq, set_txq_same. destruct w; reflexivity.
      * intros c. unfold charged. simpl. destruct (counters w !! c); reflexivity.
Qed.

(** X12: [do_tx_work] sends the queue in order and stops at the first
    buffer the transport does not take.  On an rconn with a transport,
    whose queued buffers are charged to live counters, if the transport
    accepts [k] buffers before the queue is empty or it answers [EAGAIN],
    then [do_tx_work] returns; exactly the first [k] buffers were handed to
    the transport, once each and in queue order, followed by the one
    refused attempt if any; the queue is what was behind them;
    [packets_sent] went up by [k]; every counter went down by the number of
    sent buffers charged to it; and the poll loop was woken exactly if the
    queue was drained. *)
Theorem do_tx_work_sends_in_order (w : world) (v : vconn_t) (k : nat) :
  vconn (rc w) = Some v ->
  charges_ok (counters w) (txq (rc w)) -> uint_ok (packets_sent (rc w)) ->
  accepts (peer w) (calls w) (txq (rc w)) = Some k ->
  exists cs,
    do_tx_work w
    = Ok tt (with_rc (set_txq (drop k (txq (rc w)))
                        (set_packets_sent (to_uint (packets_sent (rc w) + Z.of_nat k))
                           (rc w)))
               (with_counters cs
                  (with_log (tx_log v (txq (rc w)) k ++ log w)
                     (with_calls (tx_calls (txq (rc w)) k + calls w) w))))
    /\ (forall c, cs !! c = settle (charged c (take k (txq (rc w)))) (counters w !! c))
    /\ (k <= length (txq (rc w)))%nat.
Proof.
  intros Hv Hok Hu Hacc.
  destruct (tx_loop_sends v (txq (rc w)) (length (txq (rc w))) w k eq_refl Hv
              (Nat.le_refl _) Hok Hu Hacc) as (cs & Hrun & Hcs).
  pose proof (accepts_le _ _ _ _ Hacc) as Hk.
  exists cs. split; [| split; [exact Hcs | exact Hk]].
  unfold do_tx_work, bind at 1, get at 1, txq_n.
  destruct (txq (rc w)) as [| b rest] eqn:Hq.
  - simpl in Hacc. injection Hacc as <-.
    change (tx_loop (length []) w) with (tx_loop 0 w) in Hrun.
    assert (H0 : tx_loop 0 w = Ok tt w)
      by (simpl; unfold bind, get, txq_n; rewrite Hq; reflexivity).
    rewrite H0 in Hrun. simpl. unfold ret. exact Hrun.
  - replace (Z.of_nat (length (b :: rest)) =? 0) with false
      by (symmetry; apply Z.eqb_neq; simpl length; lia).
    unfold bind at 1. rewrite Hrun. unfold bind at 1, get at 1.
    cbn [rc with_rc]. fields. unfold tx_log.
    destruct (drop k (b :: rest)) as [| b' rest'] eqn:Hd; reflexivity.
Qed.

(** An IDLE rconn with three buffers queued, on a transport that takes two
    buffers and then asks to try again. *)
Definition w_backlog : world :=
  {| rc := set_txq [make_echo_request; make_echo_request; make_echo_request] (rc w_idle);
     counters := counters w_idle; clock := clock w_idle;
     peer := peer_script [0; 0] EAGAIN; calls := 0; log := [] |}.

Lemma do_tx_work_sends_in_order_witness :
  exists w', do_tx_work w_backlog = Ok tt w' /\ txq (rc w') = [make_echo_request].
Proof.
  destruct (do_tx_work_sends_in_order w_backlog sample_vconn 2) as (cs & Hrun & _).
  - vm_compute. reflexivity.
  - intros c Hpos. vm_compute in Hpos. lia.
  - vm_compute. split; discriminate.
  - vm_compute. reflexivity.
  - eexists. split; [exact Hrun | vm_compute; reflexivity].
Defined.

(** ** Copying to the monitors *)

Lemma insert_submseteq_snoc {A : Type} (l : list A) :
  forall (i : nat) (x y : A), l !! i = Some x -> <[i := y]> l ⊆+ l ++ [y].
Proof.
  induction l as [| a l IH]; intros [| i] x y H; try discriminate.
  - simpl. change (y :: l ⊆+ [a] ++ l ++ [y]).
    rewrite (Permutation_app_comm l [y]). apply submseteq_inserts_l. reflexivity.
  - simpl. apply submseteq_skip. eapply IH. exact H.
Qed.

Lemma drop_monitor_spec (i : nat) (ms : list vconn_t) (x : vconn_t) :
  ms !! i = Some x ->
  drop_monitor i ms ⊆+ ms /\ length ms = S (length (drop_monitor i ms)).
Proof.
  intros Hi. pose proof (lookup_lt_Some _ _ _ Hi) as Hlt.
  unfold drop_monitor.
  destruct (ms !! (length ms - 1)%nat) as [vl |] eqn:Hn;
    [| apply lookup_ge_None in Hn; lia].
  split; [| rewrite length_take, length_insert; lia].
  assert (Hms : exists init, ms = init ++ [vl]).
  { exists (take (length ms - 1) ms). rewrite <- (take_S_r _ _ _ Hn).
    rewrite take_ge; [reflexivity | lia]. }
  destruct Hms as [init ->]. rewrite length_app in *. simpl in *.
  replace (length init + 1 - 1)%nat with (length init) in * by lia.
  destruct (decide (i = length init)) as [-> | Hne].
  - rewrite list_insert_id by exact Hn. apply submseteq_take.
  - rewrite insert_app_l by lia.
    rewrite take_app_length' by (now rewrite length_insert).
    rewrite lookup_app_l in Hi by lia. eapply insert_submseteq_snoc. exact Hi.
Qed.

(** The clone that [copy_to_monitor] hands to the monitors. *)
Definition clone_of (b : ofpbuf) : ofpbuf := {| data := data b; private_p := None |}.

(** What [copy_to_monitor] may do with the buffer [b] and the monitors
    [ms]: clone [b], send a clone to one of [ms], delete a clone. *)
Definition monitor_event (ms : list vconn_t) (b : ofpbuf) (e : event) : Prop :=
  match e with
  | EvClone b' => b' = b
  | EvSend v c _ => v ∈ ms /\ c = clone_of b
  | EvDelete c => c = clone_of b
  | _ => False
  end.

Fixpoint count (f : event -> bool) (l : list event) : nat :=
  match l with
  | [] => 0
  | e :: l' => (if f e then 1 else 0) + count f l'
  end.

Definition is_clone (e : event) : bool :=
  match e with EvClone _ => true | _ => false end.
Definition is_delete (e : event) : bool :=
  match e with EvDelete _ => true | _ => false end.
Definition is_taken (e : event) : bool :=
  match e with EvSend _ _ r => r =? 0 | _ => false end.
Definition is_failed (e : event) : bool :=
  match e with EvSend _ _ r => negb (r =? 0) && negb (r =? EAGAIN) | _ => false end.

Definition held (clone : option ofpbuf) : nat :=
  match clone with Some _ => 1 | None => 0 end.

Lemma count_app (f : event -> bool) (l1 l2 : list event) :
  count f (l1 ++ l2) = (count f l1 + count f l2)%nat.
Proof. induction l1 as [| e l1 IH]; simpl; [reflexivity | rewrite IH; lia]. Qed.

(** From [w] to [w'] the loop of [copy_to_monitor] went from holding
    [clone] to holding [clone']. *)
Definition copied (b : ofpbuf) (clone clone' : option ofpbuf) (w w' : world) : Prop :=
  exists l,
    log w' = l ++ log w
    /\ Forall (monitor_event (monitors (rc w)) b) l
    /\ monitors (rc w') ⊆+ monitors (rc w)
    /\ (count is_clone l + held clone = count is_taken l + held clone')%nat
    /\ length (monitors (rc w)) = (length (monitors (rc w')) + count is_failed l)%nat
    /\ count is_delete l = 0%nat.

Lemma copied_refl (b : ofpbuf) (clone : option ofpbuf) (w : world) : copied b clone clone w w.
Proof. exists []. simpl. repeat split; auto; lia. Qed.

Lemma monitor_event_mono (ms ms' : list vconn_t) (b : ofpbuf) (e : event) :
  ms' ⊆+ ms -> monitor_event ms' b e -> monitor_event ms b e.
Proof.
  intros Hsub. destruct e; simpl; auto.
  intros [Hv Hc]. split; [eapply elem_of_submseteq; eauto | assumption].
Qed.

Lemma copied_trans (b : ofpbuf) (c1 c2 c3 : option ofpbuf) (w1 w2 w3 : world) :
  copied b c1 c2 w1 w2 -> copied b c2 c3 w2 w3 -> copied b c1 c3 w1 w3.
Proof.
  intros (l1 & Hl1 & Hf1 & Hs1 & Hc1 & Hn1 & Hd1) (l2 & Hl2 & Hf2 & Hs2 & Hc2 & Hn2 & Hd2).
  exists (l2 ++ l1). rewrite !count_app.
  split; [rewrite Hl2, Hl1, app_assoc; reflexivity |].
  split; [apply Forall_app; split; [| exact Hf1];
          eapply Forall_impl; [exact Hf2 | intros e; now apply monitor_event_mono] |].
  split; [etransitivity; eauto |]. repeat split; lia.
Qed.

Lemma monitor_event_send (ms : list vconn_t) (b : ofpbuf) (i : nat) (v : vconn_t) (r : Z) :
  ms !! i = Some v -> Forall (monitor_event ms b) [EvSend v (clone_of b) r].
Proof.
  intros Hi. apply Forall_cons_2; [| apply Forall_nil_2].
  split; [eapply list_elem_of_lookup_2; eauto | reflexivity].
Qed.

Lemma monitor_loop_total (fuel : nat) :
  forall (b : ofpbuf) (i : nat) (clone : option ofpbuf) (w : world),
  (length (monitors (rc w)) - i <= fuel)%nat ->
  exists clone' w',
    monitor_loop fuel b i clone w = Ok clone' w'
    /\ (clone = None \/ clone = Some (clone_of b) ->
        (clone' = None \/ clone' = Some (clone_of b)) /\ copied b clone clone' w w').
Proof.
  induction fuel as [| fuel IH]; intros b i clone w Hfuel.
  - simpl. unfold bind, get.
    rewrite (proj2 (lookup_ge_None (monitors (rc w)) i)) by lia.
    exists clone, w. split; [reflexivity |]. intros Hc. split; [exact Hc | apply copied_refl].
  - simpl. unfold bind at 1, get at 1.
    destruct (monitors (rc w) !! i) as [v |] eqn:Hi.
    2:{ exists clone, w. split; [reflexivity |]. intros Hc.
        split; [exact Hc | apply copied_refl]. }
    pose proof (lookup_lt_Some _ _ _ Hi) as Hlt.
    (* the clone in hand, the world once it is there, and the send *)
    set (w1 := match clone with
               | Some _ => w
               | None => with_log (EvClone b :: log w) w
               end).
    set (c := match clone with Some c => c | None => clone_of b end).
    set (r := a_retval (peer w (calls w))).
    set (w2 := with_log (EvSend v c r :: log w1) (with_calls (S (calls w)) w1)).
    match goal with
    | |- exists clone' w', ?lhs = _ /\ _ =>
        assert (Hsend : lhs
          = (if r =? 0 then monitor_loop fuel b (S i) None
             else if negb (r =? EAGAIN)
                  then modify (fun r => set_monitors (drop_monitor i (monitors r)) r);;
                       monitor_loop fuel b i (Some c)
                  else monitor_loop fuel b (S i) (Some c)) w2)
          by (subst c w1 w2 r; destruct clone; reflexivity);
        rewrite Hsend; clear Hsend
    end.
    assert (Hrc1 : rc w1 = rc w) by (subst w1; destruct clone; reflexivity).
    assert (Hrc2 : rc w2 = rc w) by (subst w2; exact Hrc1).
    assert (Hlog2 : log w2 = [EvSend v c r] ++ log w1) by reflexivity.
    assert (Hc1 : clone = None \/ clone = Some (clone_of b) ->
                  c = clone_of b /\ copied b clone (Some c) w w1).
    { intros [-> | ->]; subst c w1; (split; [reflexivity |]).
      - exists [EvClone b]. simpl. split; [reflexivity |].
        split; [repeat constructor |]. split; [reflexivity |]. repeat split; lia.
      - apply copied_refl. }
    clearbody w1 c w2 r.
    assert (Hstep : forall c' : option ofpbuf,
      c = clone_of b ->
      (count is_taken [EvSend v c r] + held c' = 1)%nat ->
      count is_failed [EvSend v c r] = 0%nat ->
      copied b (Some c) c' w1 w2).
    { intros c' -> Ht Hf. exists [EvSend v (clone_of b) r]. rewrite Hlog2, Hrc2, Hrc1.
      split; [reflexivity |].
      split; [eapply monitor_event_send; eauto |].
      split; [reflexivity |]. simpl held. simpl (count is_clone _).
      simpl (count is_delete _). repeat split; lia. }
    destruct (Z.eqb_spec r 0) as [Hr0 | Hr0].
    + destruct (IH b (S i) None w2) as (clone' & w' & Hrun & Hspec).
      { rewrite Hrc2. lia. }
      exists clone', w'. split; [exact Hrun |]. intros Hc.
      destruct (Hc1 Hc) as [Hcc Hcop1]. destruct (Hspec (or_introl eq_refl)) as [Hc' Hcop2].
      split; [exact Hc' |].
      eapply copied_trans; [exact Hcop1 |]. eapply copied_trans; [| exact Hcop2].
      apply Hstep; [exact Hcc | simpl; rewrite Hr0; reflexivity | simpl; rewrite Hr0; reflexivity].
    + destruct (Z.eqb_spec r EAGAIN) as [Hre | Hre]; simpl negb; cbv iota.
      * destruct (IH b (S i) (Some c) w2) as (clone' & w' & Hrun & Hspec).
        { rewrite Hrc2. lia. }
        exists clone', w'. split; [exact Hrun |]. intros Hc.
        destruct (Hc1 Hc) as [Hcc Hcop1].
        destruct (Hspec (or_intror (f_equal Some Hcc))) as [Hc' Hcop2].
        split; [exact Hc' |].
        eapply copied_trans; [exact Hcop1 |]. eapply copied_trans; [| exact Hcop2].
        apply Hstep; [exact Hcc | |]; simpl;
          (replace (r =? 0) with false by (symmetry; now apply Z.eqb_neq));
          rewrite ?Hre; reflexivity.
      * unfold bind at 1, modify at 1.
        set (w3 := with_rc (set_monitors (drop_monitor i (monitors (rc w2))) (rc w2)) w2).
        destruct (drop_monitor_spec i (monitors (rc w)) v Hi) as [Hsub Hlen].
        destruct (IH b i (Some c) w3) as (clone' & w' & Hrun & Hspec).
        { subst w3. cbn [rc with_rc]. fields. rewrite Hrc2. lia. }
        exists clone', w'. split; [exact Hrun |]. intros Hc.
        destruct (Hc1 Hc) as [Hcc Hcop1].
        destruct (Hspec (or_intror (f_equal Some Hcc))) as [Hc' Hcop2].
        split; [exact Hc' |].
        eapply copied_trans; [exact Hcop1 |]. eapply copied_trans; [| exact Hcop2].
        subst c. exists [EvSend v (clone_of b) r]. subst w3.
        cbn [log rc with_rc]. fields. rewrite Hlog2, Hrc2, Hrc1.
        split; [reflexivity |].
        split; [eapply monitor_event_send; eauto |].
        split; [exact Hsub |]. simpl.
        replace (r =? 0) with false by (symmetry; now apply Z.eqb_neq).
        replace (r =? EAGAIN) with false by (symmetry; now apply Z.eqb_neq).
        simpl. repeat split; lia.
Qed.

(** X13: [copy_to_monitor] always returns, after at most one round per
    monitor.  It changes nothing of the rconn but the monitors, and of
    those it only drops some: one for each send that failed with an error
    other than [EAGAIN].  All it does outside the rconn is clone the buffer,
    send clones to monitors and delete a clone; in particular it never
    closes a monitor, not even one it drops.  Every clone it makes is
    either taken by a monitor or deleted before it returns. *)
Theorem copy_to_monitor_total (b : ofpbuf) (w : world) :
  exists w' l,
    copy_to_monitor b w = Ok tt w'
    /\ monitors_only w w'
    /\ log w' = l ++ log w
    /\ Forall (monitor_event (monitors (rc w)) b) l
    /\ (forall v, ~ In (EvClose v) l)
    /\ monitors (rc w') ⊆+ monitors (rc w)
    /\ length (monitors (rc w)) = (length (monitors (rc w')) + count is_failed l)%nat
    /\ count is_clone l = (count is_taken l + count is_delete l)%nat.
Proof.
  destruct (monitor_loop_total (n_monitors (rc w)) b 0 None w) as (clone' & w1 & Hrun & Hspec).
  { unfold n_monitors. lia. }
  destruct (Hspec (or_introl eq_refl)) as [Hc' (l & Hl & Hf & Hs & Hc & Hn & Hd)].
  assert (Hfinal : exists w' l',
            copy_to_monitor b w = Ok tt w' /\ rc w' = rc w1
            /\ log w' = l' ++ log w
            /\ Forall (monitor_event (monitors (rc w)) b) l'
            /\ count is_failed l' = count is_failed l
            /\ count is_clone l' = (count is_taken l' + count is_delete l')%nat).
  { unfold copy_to_monitor, bind, get. rewrite Hrun.
    destruct Hc' as [-> | ->]; simpl ofpbuf_delete; simpl held in Hc.
    - exists w1, l. unfold ret. repeat split; auto. lia.
    - exists (with_log (EvDelete (clone_of b) :: log w1) w1), (EvDelete (clone_of b) :: l).
      unfold emit. split; [reflexivity |]. split; [reflexivity |].
      split; [simpl; now rewrite Hl |].
      split; [constructor; [reflexivity | exact Hf] |].
      simpl. split; lia. }
  destruct Hfinal as (w' & l' & Hrun' & Hrc' & Hl' & Hf' & Hfail & Hbal).
  exists w', l'. split; [exact Hrun' |].
  split; [exact (wp_Ok _ _ _ _ _ (copy_to_monitor_frame b w) Hrun') |].
  split; [exact Hl' |]. split; [exact Hf' |].
  split; [| rewrite Hrc', Hfail; auto].
  intros v Hin. rewrite Forall_forall in Hf'. apply (Hf' (EvClose v)).
  now apply list_elem_of_In.
Qed.

(** ** Disconnecting for good *)

Lemma rconn_disconnect_void (w : world) :
  state (rc w) = S_VOID -> rconn_disconnect w = Ok tt w.
Proof. intros Hs. unfold rconn_disconnect, bind, get. rewrite Hs. reflexivity. Qed.

(** What [rconn_disconnect] makes of an rconn that is not VOID. *)
Definition disconnected (now : Z) (r : rconn) : rconn :=
  state_transition now S_VOID
    (set_backoff_deadline TIME_MIN
       (set_backoff 0 (set_reliable false (set_vconn_name "void" (set_vconn None r))))).

Lemma rconn_disconnect_alive (w : world) :
  state (rc w) <> S_VOID ->
  rconn_disconnect w
  = Ok tt (with_rc (disconnected (clock w) (rc w))
             (with_log (match vconn (rc w) with
                        | Some v => [EvClose v]
                        | None => []
                        end ++ log w) w)).
Proof.
  intros Hs. unfold rconn_disconnect, bind at 1, get at 1.
  replace (state_eqb (state (rc w)) S_VOID) with false
    by (symmetry; apply not_true_is_false; intros H; now apply state_eqb_eq in H).
  simpl negb. cbv iota. unfold disconnected.
  destruct (vconn (rc w)) as [v |] eqn:Hv.
  - reflexivity.
  - replace (set_vconn None (rc w)) with (rc w)
      by (rewrite <- Hv; destruct (rc w); reflexivity).
    unfold bind, ret, modify, time_now. simpl. destruct w; reflexivity.
Qed.

(** X14: [rconn_disconnect] always returns and is final.  The rconn is VOID
    and not alive afterwards, a second [rconn_disconnect] changes nothing,
    and on a VOID rconn the first one changes nothing either.  Otherwise
    the transport, if any, was closed once, the rconn is unreliable and
    named "void", backoff, backoff deadline and cached addresses are reset.
    The send queue and the packet counters are left as they are: nothing is
    flushed.  On an unreliable rconn [disconnect] is this very function. *)
Theorem rconn_disconnect_is_final (w : world) :
  exists w',
    rconn_disconnect w = Ok tt w'
    /\ rconn_disconnect w' = Ok tt w'
    /\ state (rc w') = S_VOID /\ rconn_is_alive (rc w') = false
    /\ txq (rc w') = txq (rc w) /\ counters w' = counters w
    /\ (state (rc w) = S_VOID -> w' = w)
    /\ (state (rc w) <> S_VOID ->
        vconn (rc w') = None /\ reliable (rc w') = false /\ name (rc w') = "void"%string
        /\ backoff (rc w') = 0 /\ backoff_deadline (rc w') = TIME_MIN
        /\ addresses (rc w') = (0, 0, 0)
        /\ log w' = match vconn (rc w) with
                    | Some v => [EvClose v]
                    | None => []
                    end ++ log w)
    /\ (forall error, reliable (rc w) = false -> disconnect error w = Ok tt w').
Proof.
  assert (Hun : forall error, reliable (rc w) = false ->
                  disconnect error w = rconn_disconnect w).
  { intros error Hr. unfold disconnect, bind at 1, get at 1. now rewrite Hr. }
  destruct (state_eqb (state (rc w)) S_VOID) eqn:Hs.
  - apply state_eqb_eq in Hs. exists w.
    pose proof (rconn_disconnect_void w Hs) as Hrun.
    split; [exact Hrun |]. split; [exact Hrun |]. split; [exact Hs |].
    split; [unfold rconn_is_alive; now rewrite Hs |].
    split; [reflexivity |]. split; [reflexivity |]. split; [reflexivity |].
    split; [congruence |]. intros error Hr. now rewrite Hun.
  - assert (Hne : state (rc w) <> S_VOID).
    { intros H. apply state_eqb_eq in H. congruence. }
    pose proof (rconn_disconnect_alive w Hne) as Hrun.
    eexists. split; [exact Hrun |].
    assert (Hst : state (disconnected (clock w) (rc w)) = S_VOID)
      by (unfold disconnected; now fields).
    split; [apply rconn_disconnect_void; exact Hst |].
    split; [exact Hst |].
    split; [unfold rconn_is_alive; cbn [rc with_rc]; now rewrite Hst |].
    split; [unfold disconnected; fields; reflexivity |].
    split; [reflexivity |]. split; [congruence |].
    split; [| intros error Hr; now rewrite Hun].
    intros _. unfold disconnected, addresses. cbn [rc log with_rc with_log]. fields.
    repeat split; reflexivity.
Qed.

(** [c] is one of the two calls that connect an rconn. *)
Definition connects (c : call) : bool :=
  match c with
  | Connect _ | ConnectUnreliably _ _ => true
  | _ => false
  end.

Lemma rconn_send_void (b : ofpbuf) (counter : option nat) (w : world) :
  state (rc w) = S_VOID -> rconn_send b counter w = Ok ENOTCONN w.
Proof.
  intros Hs. unfold rconn_send, bind, get, rconn_is_connected. rewrite Hs. reflexivity.
Qed.

(** X15: a VOID rconn stays VOID until it is connected.  Whatever a client
    calls on it other than [rconn_connect] and [rconn_connect_unreliably]
    leaves it VOID, with the same transport, reliability and send queue,
    and without one more call to the transport; [rconn_run] changes
    nothing at all. *)
Theorem void_until_connected (w w' : world) (c : call) :
  state (rc w) = S_VOID -> connects c = false -> exec c w = Ok tt w' ->
  state (rc w') = S_VOID
  /\ vconn (rc w') = vconn (rc w) /\ reliable (rc w') = reliable (rc w)
  /\ txq (rc w') = txq (rc w) /\ calls w' = calls w
  /\ (forall fuel, c = Run fuel -> w' = w).
Proof.
  intros Hs Hc Hrun.
  assert (Hsame : forall w0 : world, Ok tt w = Ok tt w0 ->
            state (rc w0) = S_VOID
            /\ vconn (rc w0) = vconn (rc w) /\ reliable (rc w0) = reliable (rc w)
            /\ txq (rc w0) = txq (rc w) /\ calls w0 = calls w /\ w0 = w).
  { intros w0 [= <-]. auto 10. }
  assert (Hweak : forall w0 : world,
            (state (rc w0) = S_VOID
             /\ vconn (rc w0) = vconn (rc w) /\ reliable (rc w0) = reliable (rc w)
             /\ txq (rc w0) = txq (rc w) /\ calls w0 = calls w /\ w0 = w) ->
            state (rc w0) = S_VOID
            /\ vconn (rc w0) = vconn (rc w) /\ reliable (rc w0) = reliable (rc w)
            /\ txq (rc w0) = txq (rc w) /\ calls w0 = calls w
            /\ (forall fuel, c = Run fuel -> w0 = w)).
  { intros w0 (? & ? & ? & ? & ? & ?). auto 10. }
  destruct c; try discriminate; simpl exec in Hrun; unfold discard in Hrun.
  - (* Reconnect *)
    apply Hweak, Hsame. rewrite <- Hrun. unfold rconn_reconnect, bind, get.
    rewrite Hs. reflexivity.
  - (* Disconnect *)
    apply Hweak, Hsame. rewrite <- Hrun. symmetry. now apply rconn_disconnect_void.
  - (* Run *)
    apply Hweak, Hsame. rewrite <- Hrun. destruct fuel as [| fuel]; [discriminate |].
    simpl. unfold bind, get. rewrite Hs. simpl. unfold run_VOID, ret. rewrite Hs. reflexivity.
  - (* Recv *)
    apply Hweak, Hsame. rewrite <- Hrun. unfold rconn_recv, bind, get.
    rewrite Hs. reflexivity.
  - (* Send *)
    apply Hweak, Hsame. rewrite <- Hrun. unfold bind. rewrite rconn_send_void by exact Hs.
    reflexivity.
  - (* SendWithLimit *)
    unfold rconn_send_with_limit in Hrun. destruct counter as [k |]; [| discriminate].
    unfold bind at 1 2, counter_load in Hrun.
    destruct (counters w !! k) as [pc |]; [| discriminate].
    assert (Hdel : forall e, e <> 0 ->
      (retval <- (fun w0 => Ok e w0);;
       when (negb (retval =? 0)) (ofpbuf_delete (Some b));; ret retval;; ret tt) w
      = Ok tt (with_log (EvDelete b :: log w) w)).
    { intros e He. unfold bind. replace (e =? 0) with false
        by (symmetry; now apply Z.eqb_neq). reflexivity. }
    assert (Hw' : w' = with_log (EvDelete b :: log w) w).
    { destruct (n pc >=? queue_limit).
      - unfold bind, ret in Hrun. simpl in Hrun. now injection Hrun as <-.
      - unfold bind in Hrun. rewrite rconn_send_void in Hrun by exact Hs.
        simpl in Hrun. now injection Hrun as <-. }
    subst w'. cbn [rc calls with_log]. repeat split; auto; discriminate.
  - (* SetMaxBackoff *)
    injection Hrun as <-. cbn [rc calls with_rc]. unfold rconn_set_max_backoff. cbv zeta.
    fields. rewrite Hs. simpl. fields. repeat split; auto; discriminate.
  - (* SetProbeInterval *)
    injection Hrun as <-. cbn [rc calls with_rc]. unfold rconn_set_probe_interval.
    fields. repeat split; auto; discriminate.
  - (* AddMonitor *)
    unfold rconn_add_monitor, bind, get in Hrun.
    destruct (_ <? _)%nat; injection Hrun as <-; cbn [rc calls with_rc with_log]; fields;
      repeat split; auto; discriminate.
  - (* IsConnectivityQuestionable *)
    injection Hrun as <-. cbn [rc calls with_rc]. fields. repeat split; auto; discriminate.
  - (* CounterCreate *)
    injection Hrun as <-. cbn [rc calls with_counters]. repeat split; auto; discriminate.
  - (* CounterDestroy *)
    unfold rconn_packet_counter_destroy in Hrun. destruct counter as [k |].
    + unfold bind, counter_load in Hrun. destruct (counters w !! k) as [pc |]; [| discriminate].
      destruct (ref_cnt pc >? 0); [| discriminate]. cbv zeta in Hrun.
      unfold counter_store, when, counter_free, ret in Hrun.
      destruct (_ && _); injection Hrun as <-; cbn [rc calls with_counters];
        repeat split; auto; discriminate.
    + apply Hweak, Hsame. exact Hrun.
  - (* Sleep *)
    injection Hrun as <-. cbn [rc calls with_clock]. repeat split; auto; discriminate.
Qed.

Lemma void_until_connected_witness :
  state (rc (after (exec (Run 2)) (boot (peer_always 0) 100 5 8))) = S_VOID.
Proof.
  apply (void_until_connected (boot (peer_always 0) 100 5 8)
           (after (exec (Run 2)) (boot (peer_always 0) 100 5 8)) (Run 2));
    vm_compute; reflexivity.
Defined.

(** ** New rconns *)

(** X16: the two constructors that connect.  [rconn_new_from_vconn] makes
    no call to the transport and returns an unreliable ACTIVE rconn on the
    given transport, with probe interval 60, maximum backoff 8 and sequence
    number 1; it caches no address of the transport (the three cached
    values are 0), and although nothing has been received yet
    [rconn_is_admitted] is true and [rconn_failure_duration] is 0, since
    creation and connection fall in the same second.  [rconn_new] makes one
    connection attempt and returns a reliable rconn: CONNECTING on the
    opened transport with its addresses cached if [vconn_open] returned 0,
    and otherwise waiting in BACKOFF with backoff [min(max_backoff, 1)]. *)
Theorem new_rconns (w : world) (nm : string) (v : vconn_t) (probe max : Z) :
  (exists w',
     rconn_new_from_vconn nm v w = Ok tt w'
     /\ state (rc w') = S_ACTIVE /\ vconn (rc w') = Some v
     /\ reliable (rc w') = false /\ name (rc w') = nm
     /\ probe_interval (rc w') = 60 /\ max_backoff (rc w') = 8
     /\ seqno (rc w') = 1 /\ n_attempted_connections (rc w') = 0
     /\ addresses (rc w') = (0, 0, 0)
     /\ probably_admitted (rc w') = false /\ rconn_is_admitted (rc w') = true
     /\ rconn_failure_duration (clock w') (rc w') = 0
     /\ log w' = log w /\ calls w' = calls w)
  /\ (clock w < TIME_MAX ->
      exists w',
        rconn_new nm probe max w = Ok tt w'
        /\ reliable (rc w') = true /\ name (rc w') = nm
        /\ n_attempted_connections (rc w') = 1 /\ seqno (rc w') = 0
        /\ probe_interval (rc w') = (if decide (probe = 0) then 0 else Z.max 5 probe)
        /\ max_backoff (rc w') = (if decide (max = 0) then 8 else max)
        /\ calls w' = S (calls w)
        /\ (a_retval (peer w (calls w)) = 0 ->
            state (rc w') = S_CONNECTING
            /\ vconn (rc w') = Some (a_vconn (peer w (calls w)))
            /\ addresses (rc w') = vconn_addresses (a_vconn (peer w (calls w)))
            /\ backoff (rc w') = 0
            /\ log w' = EvOpen nm 0 (Some (a_vconn (peer w (calls w)))) :: log w)
        /\ (a_retval (peer w (calls w)) <> 0 ->
            state (rc w') = S_BACKOFF /\ vconn (rc w') = None
            /\ backoff (rc w') = Z.min (max_backoff (rc w')) 1
            /\ backoff_deadline (rc w') = to_time (clock w + backoff (rc w'))
            /\ log w' = EvOpen nm (a_retval (peer w (calls w))) None :: log w)).
Proof.
  split.
  - eexists. split; [reflexivity |]. cbn [rc clock log calls with_rc].
    unfold rconn_failure_duration, rconn_is_admitted, rconn_is_connected, addresses.
    fields. simpl. rewrite Z.geb_leb, Z.leb_refl. repeat split; reflexivity.
  - intros Hnow.
    assert (Hp : (if negb (probe =? 0) then MAX 5 probe else 0)
                 = if decide (probe = 0) then 0 else Z.max 5 probe).
    { destruct (decide (probe = 0)) as [-> | Hne]; [reflexivity |].
      replace (probe =? 0) with false by (symmetry; now apply Z.eqb_neq).
      simpl. apply MAX_max. }
    assert (Hm : (if negb (max =? 0) then max else 8) = if decide (max = 0) then 8 else max).
    { destruct (decide (max = 0)) as [-> | Hne]; [reflexivity |].
      replace (max =? 0) with false by (symmetry; now apply Z.eqb_neq). reflexivity. }
    unfold rconn_new, rconn_create, rconn_set_probe_interval.
    rewrite Hp, Hm. clear Hp Hm.
    generalize (if decide (probe = 0) then 0 else Z.max 5 probe).
    generalize (if decide (max = 0) then 8 else max). intros max' probe'.
    unfold bind at 1, time_now at 1, bind at 1, modify at 1.
    unfold rconn_connect, bind at 1 2.
    rewrite rconn_disconnect_void by reflexivity.
    unfold bind at 1, modify at 1. unfold bind at 1, modify at 1.
    unfold reconnect, vconn_open, bind, modify, ask, emit, get, ret, time_now.
    cbn [rc clock peer calls log with_rc with_calls with_log fst snd].
    destruct (Z.eqb_spec (a_retval (peer w (calls w))) 0) as [Ha | Ha].
    + eexists. split; [reflexivity |].
      cbn [rc clock peer calls log with_rc with_calls with_log]. unfold addresses. fields.
      rewrite Ha.
      repeat split; try reflexivity; try (intros; congruence).
    + unfold disconnect, bind, get, time_now, modify, when, ret.
      cbn [rc clock peer calls log with_rc with_calls with_log]. fields.
      change (state_in S_VOID open_mask) with false. cbv iota.
      cbn [rc clock peer calls log with_rc with_calls with_log]. fields.
      replace (clock w >=? TIME_MAX) with false
        by (symmetry; rewrite Z.geb_leb; apply Z.leb_gt; lia).
      fields.
      change (int_mul 2 0) with (ret (A := Z) 0). unfold ret.
      change (MAX 1 0) with 1.
      cbn [rc clock peer calls log with_rc with_calls with_log]. fields.
      replace (to_time (clock w - clock w) >? 60) with false
        by (rewrite Z.sub_diag; reflexivity).
      eexists. split; [reflexivity |].
      cbn [rc clock peer calls log with_rc with_calls with_log]. fields.
      rewrite MIN_min.
      repeat split; try reflexivity; try (intros; congruence).
Qed.

Lemma new_rconns_witness :
  exists w',
    rconn_new "tcp:10.0.0.2" 3 0 (boot (peer_always 111) 100 0 8) = Ok tt w'
    /\ state (rc w') = S_BACKOFF /\ backoff (rc w') = 1 /\ probe_interval (rc w') = 5.
Proof.
  destruct (new_rconns (boot (peer_always 111) 100 0 8) "tcp:10.0.0.2" sample_vconn 3 0)
    as [_ H].
  destruct H as (w' & Hrun & _ & _ & _ & _ & Hp & Hm & _ & _ & Hfail).
  - vm_compute. reflexivity.
  - destruct Hfail as (Hs & _ & Hb & _); [vm_compute; discriminate |].
    exists w'. split; [exact Hrun |]. split; [exact Hs |].
    split; [rewrite Hb, Hm; reflexivity | rewrite Hp; reflexivity].
Defined.

(** ** Questionable connectivity *)

(** Between [w] and [w'] the flag was not raised, or it was raised now, more
    than 60 seconds after it was raised last. *)
Definition questioned (w w' : world) : Prop :=
  (last_questioned (rc w') = last_questioned (rc w)
   /\ (questionable_connectivity (rc w') = true -> questionable_connectivity (rc w) = true))
  \/ (last_questioned (rc w') = clock w
      /\ (to_time (clock w - last_questioned (rc w)) >? 60) = true).

Lemma update_questioned (now : Z) (r r' : rconn) :
  update now r r' ->
  (last_questioned r' = last_questioned r
   /\ (questionable_connectivity r' = true -> questionable_connectivity r = true))
  \/ (last_questioned r' = now /\ (to_time (now - last_questioned r) >? 60) = true).
Proof.
  intros Hu.
  destruct Hu; try (left; split; [reflexivity | exact id]).
  - left. now rewrite state_transition_last_questioned,
      state_transition_questionable_connectivity.
  - unfold question_connectivity. destruct (to_time _ >? 60) eqn:E.
    + right. split; reflexivity.
    + left. split; [reflexivity | exact id].
  - left. split; [reflexivity | discriminate].
  - left. unfold rconn_set_max_backoff. cbv zeta. case_ifs; split; solve [reflexivity | exact id].
Qed.

Lemma evolves_questioned (w w' : world) : evolves w w' -> questioned w w'.
Proof.
  revert w'. apply (rtc_ind_r (questioned w)).
  - left. split; [reflexivity | exact id].
  - intros w1 w2 Hev Hm IH. pose proof (evolves_clock _ _ Hev) as Hclock.
    destruct Hm as [w1 r' Hu | w1 e | w1 | w1 cs]; try exact IH.
    unfold questioned in *. cbn [rc with_rc].
    destruct (update_questioned _ _ _ Hu) as [[Hl Hq] | [Hl Hq]].
    + rewrite Hl. destruct IH as [[IH1 IH2] | [IH1 IH2]]; [left | right]; auto.
    + rewrite Hclock in Hl, Hq. destruct IH as [[IH1 IH2] | [IH1 IH2]].
      * right. rewrite <- IH1. auto.
      * rewrite IH1, Z.sub_diag in Hq. discriminate.
Qed.

(** Scenario 1, a minute later. *)
Definition w_minute_later : world := after (sleep 61) w_backoff1.

(** Another minute later: the flag went up at time 161 and was not read. *)
Definition w_two_minutes_later : world :=
  after (sleep 61) (after (rconn_run 3) w_minute_later).

Lemma reachable_w_two_minutes_later : reachable w_two_minutes_later.
Proof.
  set (w1 := after (rconn_run 3) w_minute_later).
  apply (reach_call false w1 w_two_minutes_later (Sleep 61));
    [| exact I | vm_compute; reflexivity].
  apply (reach_call false w_minute_later w1 (Run 3)); [| exact I | vm_compute; reflexivity].
  apply (reach_call false w_backoff1 w_minute_later (Sleep 61));
    [| exact I | vm_compute; reflexivity].
  exact reachable_w_backoff1.
Qed.

(** X17: connectivity is questioned at most once a minute, and the flag is
    read once.  [rconn_is_connectivity_questionable] returns the flag and
    clears it.  Whenever a call on the rconn raises the flag, it stamps
    [last_questioned] with the current time, and more than 60 seconds have
    passed since the previous stamp.  The minute runs from the stamp, not
    from the reading: a flag that went up a minute ago and is read only now
    can go up again within the same second. *)
Theorem questionable_at_most_once_a_minute (w : world) :
  rconn_is_connectivity_questionable w
  = Ok (questionable_connectivity (rc w))
       (with_rc (set_questionable_connectivity false (rc w)) w)
  /\ (forall c w',
        exec c w = Ok tt w' ->
        questionable_connectivity (rc w) = false ->
        questionable_connectivity (rc w') = true ->
        last_questioned (rc w') = clock w
        /\ (to_time (clock w - last_questioned (rc w)) >? 60) = true
        /\ (time_ok (clock w - last_questioned (rc w)) ->
            60 < clock w - last_questioned (rc w)))
  /\ (exists w1 w2 w3,
        reachable w1
        /\ rconn_is_connectivity_questionable w1 = Ok true w2
        /\ questionable_connectivity (rc w2) = false
        /\ rconn_run 3 w2 = Ok tt w3
        /\ clock w3 = clock w1
        /\ questionable_connectivity (rc w3) = true).
Proof.
  split; [reflexivity |]. split.
  - intros c w' Hrun Hoff Hon.
    destruct (classic_sleep c) as [[seconds ->] | Hns].
    + simpl in Hrun. injection Hrun as <-. simpl in Hon. congruence.
    + pose proof (wp_Ok _ _ _ _ _ (exec_evolves c w Hns) Hrun) as Hev.
      destruct (evolves_questioned _ _ Hev) as [[_ H] | [H1 H2]].
      * specialize (H Hon). congruence.
      * split; [exact H1 |]. split; [exact H2 |].
        intros Hok. rewrite (to_time_exact _ Hok) in H2. now apply Z.gtb_lt in H2.
  - exists w_two_minutes_later.
    exists (after rconn_is_connectivity_questionable w_two_minutes_later).
    exists (after (rconn_run 3)
              (after rconn_is_connectivity_questionable w_two_minutes_later)).
    split; [exact reachable_w_two_minutes_later |].
    do 4 (split; [vm_compute; reflexivity |]). vm_compute. reflexivity.
Qed.

Lemma questionable_at_most_once_a_minute_witness :
  last_questioned (rc (after (exec (Run 3)) w_minute_later)) = clock w_minute_later.
Proof.
  destruct (questionable_at_most_once_a_minute w_minute_later) as (_ & H & _).
  apply (H (Run 3) (after (exec (Run 3)) w_minute_later)); vm_compute; reflexivity.
Defined.

(** ** Timeouts *)

(** The time at which the state of [r] times out, if it does. *)
Definition deadline (r : rconn) : option Z :=
  match state r with
  | S_VOID => None
  | S_BACKOFF => Some (state_entered r + backoff r)
  | S_CONNECTING => Some (state_entered r + Z.max 1 (backoff r))
  | S_ACTIVE =>
      if decide (probe_interval r = 0) then None
      else Some (Z.max (last_received r) (state_entered r) + probe_interval r)
  | S_IDLE => Some (state_entered r + probe_interval r)
  end.

Lemma sat_add_exact (x y : Z) : 0 <= x -> 0 <= y -> x + y <= UINT_MAX -> sat_add x y = x + y.
Proof.
  unfold UINT_MAX. intros Hx Hy Hs. unfold sat_add.
  rewrite (to_uint_exact (x + y)) by (unfold uint_ok, UINT_MAX; lia).
  destruct (Z.geb_spec (x + y) x); lia.
Qed.

(** X18: the timeouts are the intended times.  With clock, timestamps and
    the deadline itself within [unsigned int] and backoff and probe interval
    not negative, [timed_out] holds exactly from these times on: in BACKOFF,
    the entry to the state plus the backoff; in CONNECTING, the entry plus
    the larger of 1 and the backoff; in ACTIVE with probing on, the later of
    the last message and the entry to the state, plus the probe interval;
    in IDLE, the entry plus the probe interval (at once if that is 0).
    VOID, and ACTIVE with probing off, never time out. *)
Theorem timeouts_are_exact (now : Z) (r : rconn) :
  0 <= now < UINT_MAX ->
  0 <= state_entered r -> 0 <= last_received r <= UINT_MAX ->
  0 <= backoff r -> 0 <= probe_interval r ->
  match deadline r with Some d => d <= UINT_MAX | None => state_entered r <= UINT_MAX end ->
  timed_out now r = match deadline r with
                    | Some d => now >=? d
                    | None => false
                    end.
Proof.
  unfold UINT_MAX. intros Hnow Hse Hlr Hb Hp Hd. unfold timed_out, timeout, deadline in *.
  assert (Hu : forall z, 0 <= z <= 2 ^ 32 - 1 -> to_uint z = z)
    by (intros z Hz; apply to_uint_exact; unfold uint_ok, UINT_MAX; lia).
  assert (Hnever : state_entered r <= 2 ^ 32 - 1 ->
            (now >=? sat_add (to_uint (state_entered r)) UINT_MAX) = false).
  { intros H. rewrite sat_add_max by apply to_uint_range.
    unfold UINT_MAX. destruct (Z.geb_spec now (2 ^ 32 - 1)); [lia | reflexivity]. }
  destruct (state r).
  - unfold timeout_VOID. auto.
  - unfold timeout_BACKOFF. rewrite !Hu by lia. rewrite sat_add_exact by (unfold UINT_MAX; lia).
    reflexivity.
  - unfold timeout_CONNECTING. rewrite MAX_max, !Hu by lia.
    rewrite sat_add_exact by (unfold UINT_MAX; lia). reflexivity.
  - unfold timeout_ACTIVE. destruct (decide (probe_interval r = 0)) as [H0 | H0].
    + rewrite H0. simpl negb. cbv iota. auto.
    + replace (probe_interval r =? 0) with false by (symmetry; now apply Z.eqb_neq).
      simpl negb. cbv iota zeta. rewrite MAX_max.
      rewrite (Hu (state_entered r)), (Hu (Z.max _ _)), (Hu (probe_interval r)) by lia.
      rewrite (Hu (Z.max _ _ + _)) by lia.
      rewrite to_time_exact by (unfold time_ok, TIME_MIN, TIME_MAX; lia).
      rewrite Hu by lia. rewrite sat_add_exact by (unfold UINT_MAX; lia).
      f_equal. lia.
  - unfold timeout_IDLE. rewrite !Hu by lia. rewrite sat_add_exact by (unfold UINT_MAX; lia).
    reflexivity.
Qed.

Lemma timeouts_are_exact_witness :
  timed_out 104 (rc w_active) = false /\ timed_out 105 (rc w_active) = true.
Proof.
  split.
  - apply (timeouts_are_exact 104 (rc w_active));
      vm_compute; repeat split; (discriminate || reflexivity).
  - apply (timeouts_are_exact 105 (rc w_active));
      vm_compute; repeat split; (discriminate || reflexivity).
Defined.

(** ** The rounds of rconn_run *)

Definition out_of_fuel (f : fault) : bool :=
  match f with
  | OutOfFuel => true
  | _ => false
  end.

Lemma counter_dec_opt_fuelled (counter : option nat) :
  never out_of_fuel (counter_dec_opt counter).
Proof.
  destruct counter; simpl; [unfold rconn_packet_counter_dec |]; never_auto.
Qed.

Lemma vconn_send_fuelled (vc : option vconn_t) (b : ofpbuf) :
  never out_of_fuel (vconn_send vc b).
Proof. unfold vconn_send. never_auto. Qed.

Lemma vconn_close_fuelled (vc : option vconn_t) : never out_of_fuel (vconn_close vc).
Proof. unfold vconn_close. never_auto. Qed.

Lemma flush_loop_fuelled (fuel : nat) :
  forall w, (length (txq (rc w)) <= fuel)%nat -> avoids out_of_fuel (flush_loop fuel) w.
Proof.
  induction fuel as [| fuel IH]; intros w Hlen; simpl flush_loop; avoids_run;
    (destruct (txq (rc w)) as [| b rest] eqn:Hq; [exact I |]).
  - simpl in Hlen. lia.
  - avoids_run.
    eapply avoids_call; [apply counter_dec_opt_fuelled | apply counter_dec_opt_core |].
    intros [] w2 Hrc. simpl ofpbuf_delete. avoids_run.
    apply IH. cbn [rc with_log]. rewrite Hrc. cbn [rc with_rc]. fields.
    simpl in Hlen. lia.
Qed.

Lemma flush_queue_fuelled : never out_of_fuel flush_queue.
Proof.
  intros w. unfold flush_queue. avoids_run. destruct (txq_n (rc w) =? 0); [exact I |].
  apply avoids_then; [apply flush_loop_fuelled; lia | intros ?; never_leaf].
Qed.

Lemma rconn_disconnect_fuelled : never out_of_fuel rconn_disconnect.
Proof. unfold rconn_disconnect. never_auto; apply vconn_close_fuelled. Qed.

Lemma disconnect_fuelled (error : Z) : never out_of_fuel (disconnect error).
Proof.
  unfold disconnect, int_mul. never_auto;
    auto using vconn_close_fuelled, flush_queue_fuelled, rconn_disconnect_fuelled.
Qed.

Lemma try_send_fuelled : never out_of_fuel try_send.
Proof.
  unfold try_send. never_auto;
    auto using vconn_send_fuelled, disconnect_fuelled, counter_dec_opt_fuelled.
Qed.

(** A send that went through took one buffer off the queue and left the
    state alone. *)
Lemma try_send_pops (w : world) :
  wp try_send (fun e w' =>
    e = 0 -> state (rc w') = state (rc w)
             /\ S (length (txq (rc w'))) = length (txq (rc w))) w.
Proof.
  unfold try_send. wp_run.
  destruct (txq (rc w)) as [| head next]; wp_run.
  unfold vconn_send. destruct (vconn (rc w)) as [v |] eqn:Hv; wp_run.
  destruct (Z.eqb_spec (a_retval (peer w (calls w))) 0) as [Hz | Hnz]; simpl negb; cbv iota.
  - wp_run. eapply wp_call; [apply counter_dec_opt_core |].
    intros [] w1 Hrc. wp_run. intros _. rewrite Hrc. fields. auto.
  - eapply wp_call with (R := fun _ _ => True);
      [unfold wp; destruct (when _ _ _); exact I |].
    intros [] w1 _. wp_run. congruence.
Qed.

Lemma tx_loop_fuelled (fuel : nat) :
  forall w, (length (txq (rc w)) <= fuel)%nat -> avoids out_of_fuel (tx_loop fuel) w.
Proof.
  induction fuel as [| fuel IH]; intros w Hlen; simpl tx_loop; avoids_run;
    unfold txq_n;
    (destruct (Z.gtb_spec (Z.of_nat (length (txq (rc w)))) 0) as [Hpos | _]; [| exact I]).
  - lia.
  - eapply avoids_call; [apply try_send_fuelled | apply try_send_pops |].
    intros e w1 H1. cbv beta in H1.
    destruct (Z.eqb_spec e 0) as [-> | _]; simpl negb; cbv iota; [| exact I].
    apply IH. destruct (H1 eq_refl) as [_ H]. lia.
Qed.

Lemma do_tx_work_fuelled : never out_of_fuel do_tx_work.
Proof.
  intros w. unfold do_tx_work. avoids_run. destruct (txq_n (rc w) =? 0); [exact I |].
  apply avoids_then; [apply tx_loop_fuelled; lia |].
  intros []. never_auto.
Qed.

Lemma copy_to_monitor_fuelled (b : ofpbuf) : never out_of_fuel (copy_to_monitor b).
Proof.
  intros w. unfold copy_to_monitor. avoids_run.
  destruct (monitor_loop_total (n_monitors (rc w)) b 0 None w) as (clone & w1 & Hrun & _).
  { unfold n_monitors. lia. }
  unfold avoids, bind. rewrite Hrun. now destruct clone.
Qed.

Lemma rconn_send_fuelled (b : ofpbuf) (counter : option nat) :
  never out_of_fuel (rconn_send b counter).
Proof.
  unfold rconn_send. never_auto;
    auto using copy_to_monitor_fuelled, try_send_fuelled.
  unfold rconn_packet_counter_inc. never_auto.
Qed.

Lemma reconnect_fuelled : never out_of_fuel reconnect.
Proof.
  unfold reconnect, vconn_open. never_auto. apply disconnect_fuelled.
Qed.

Lemma run_state_fuelled (s : rstate) : never out_of_fuel (run_state s).
Proof.
  destruct s; simpl run_state;
    unfold run_VOID, run_BACKOFF, run_CONNECTING, run_ACTIVE, run_IDLE, vconn_connect;
    never_auto;
    auto using reconnect_fuelled, disconnect_fuelled, rconn_send_fuelled, do_tx_work_fuelled.
Qed.

(** The clock is within [unsigned int], short of its maximum, and the maximum
    backoff is one that [rconn_create] or [rconn_set_max_backoff] can leave
    behind. *)
Definition calm (w : world) : Prop :=
  0 <= clock w < UINT_MAX
  /\ (1 <= max_backoff (rc w) \/ INT_MIN <= max_backoff (rc w) < 0).

(** [rconn_run] has nothing to do: the rconn is VOID, or waits in BACKOFF. *)
Definition rested (w : world) : Prop :=
  state (rc w) = S_VOID
  \/ (state (rc w) = S_BACKOFF /\ timed_out (clock w) (rc w) = false).

(** The rounds [rconn_run] can need from a state. *)
Definition rounds (s : rstate) : nat :=
  match s with
  | S_VOID => 1
  | S_IDLE => 2
  | S_ACTIVE => 3
  | S_CONNECTING => 4
  | S_BACKOFF => 5
  end.

Lemma update_max_backoff_ok (now : Z) (r r' : rconn) :
  update now r r' ->
  1 <= max_backoff r \/ INT_MIN <= max_backoff r < 0 ->
  1 <= max_backoff r' \/ INT_MIN <= max_backoff r' < 0.
Proof.
  intros Hu. by_update Hu; auto; intros _; left; rewrite MAX_max; lia.
Qed.

Lemma calm_evolves (w w' : world) : evolves w w' -> calm w -> calm w'.
Proof.
  intros Hev [Hc Hm]. split; [now rewrite (evolves_clock _ _ Hev) |].
  revert Hm. apply (evolves_rconn_invariant
    (fun r => 1 <= max_backoff r \/ INT_MIN <= max_backoff r < 0)
    update_max_backoff_ok w w' Hev).
Qed.

Lemma sat_add_gt (now t : Z) :
  0 <= now < UINT_MAX -> 1 <= t <= UINT_MAX -> now < sat_add now t.
Proof.
  unfold sat_add, to_uint, UINT_MAX. intros Hn Ht.
  destruct (Z_lt_le_dec (now + t) (2 ^ 32)) as [Hs | Hs].
  - rewrite Z.mod_small by lia. destruct (Z.geb_spec (now + t) now); lia.
  - replace ((now + t) mod 2 ^ 32) with (now + t - 2 ^ 32)
      by (apply Z.mod_unique_pos with (q := 1); lia).
    destruct (Z.geb_spec (now + t - 2 ^ 32) now); lia.
Qed.

Lemma to_uint_nonzero (z : Z) : INT_MIN <= z <= INT_MAX -> z <> 0 -> 1 <= to_uint z <= UINT_MAX.
Proof.
  unfold INT_MIN, INT_MAX, UINT_MAX, to_uint. intros Hz Hne.
  destruct (Z_lt_le_dec z 0) as [Hneg | Hpos].
  - replace (z mod 2 ^ 32) with (z + 2 ^ 32)
      by (apply Z.mod_unique_pos with (q := -1); lia).
    lia.
  - rewrite Z.mod_small by lia. lia.
Qed.

Lemma backoff_update_state_entered now r : state_entered (backoff_update now r) = now.
Proof.
  unfold backoff_update. cbv zeta.
  destruct (to_time _ >? 60);
    rewrite ?question_connectivity_state_entered; apply state_transition_state_entered.
Qed.

(** An rconn that has just gone to BACKOFF waits at least a second. *)
Lemma backoff_update_rests (w : world) (r : rconn) :
  0 <= clock w < UINT_MAX ->
  1 <= max_backoff r \/ INT_MIN <= max_backoff r < 0 ->
  doubling_defined (clock w) r ->
  rested (with_rc (backoff_update (clock w) r) w).
Proof.
  intros Hc Hm Hdef. right. cbn [rc clock with_rc]. split; [apply backoff_update_state |].
  unfold timed_out, timeout. rewrite backoff_update_state, backoff_update_state_entered.
  unfold timeout_BACKOFF. rewrite backoff_update_backoff, MIN_min, MAX_max.
  rewrite (to_uint_exact (clock w)) by (unfold uint_ok; lia).
  assert (Ht : 1 <= to_uint (if clock w >=? backoff_deadline r then 1
                             else Z.min (max_backoff r) (Z.max 1 (2 * backoff r)))
               <= UINT_MAX).
  { apply to_uint_nonzero; destruct (Z.geb_spec (clock w) (backoff_deadline r));
      destruct Hdef as [Hdef | Hdef]; unfold int_ok, INT_MIN, INT_MAX in *; lia. }
  pose proof (sat_add_gt _ _ Hc Ht) as Hgt.
  destruct (Z.geb_spec (clock w) (sat_add (clock w) (to_uint
    (if clock w >=? backoff_deadline r then 1
     else Z.min (max_backoff r) (Z.max 1 (2 * backoff r)))))); [lia | reflexivity].
Qed.

Lemma rconn_disconnect_rests (w : world) :
  wp rconn_disconnect (fun _ w' => rested w') w.
Proof.
  unfold rconn_disconnect. wp_run.
  destruct (state_eqb (state (rc w)) S_VOID) eqn:Hs; simpl negb; cbv iota.
  - wp_run. left. now apply state_eqb_eq.
  - destruct (vconn (rc w)); simpl vconn_close; wp_run; left; fields; reflexivity.
Qed.

Lemma disconnect_rests (error : Z) (w : world) :
  calm w -> wp (disconnect error) (fun _ w' => rested w' /\ calm w') w.
Proof.
  intros Hcalm. apply wp_conj;
    [| eapply wp_mono; [apply disconnect_evolves | intros ? w' H; exact (calm_evolves _ _ H Hcalm)]].
  destruct Hcalm as [Hc Hm]. unfold disconnect. wp_run.
  destruct (reliable (rc w)); [| apply rconn_disconnect_rests].
  wp_run.
  eapply wp_call with
    (R := fun _ w1 => clock w1 = clock w /\ max_backoff (rc w1) = max_backoff (rc w)).
  { destruct (state_in (state (rc w)) open_mask); wp_run; [| auto].
    eapply wp_call with (R := fun _ w1 => clock w1 = clock w /\ rc w1 = rc w).
    { destruct (vconn (rc w)); simpl vconn_close; wp_run; auto. }
    intros [] w1 [Hck Hrc]. wp_run.
    eapply wp_mono; [apply wp_conj; [apply flush_queue_evolves | apply flush_queue_rc] |].
    intros ? w2 [Hev [q Hq]]. cbv beta in *.
    split; [rewrite (evolves_clock _ _ Hev); exact Hck |].
    rewrite Hq. cbn [rc with_rc]. fields. now rewrite Hrc. }
  intros [] w1 [Hck Hmb]. rewrite <- Hck. wp_run. apply wp_next_backoff_defined.
  intros Hdef. apply wp_disconnect_tail.
  apply backoff_update_rests; [now rewrite Hck | now rewrite Hmb | exact Hdef].
Qed.

(** What a step can do to the state: leave it, or bring the rconn to rest. *)
Definition stays (w w' : world) : Prop :=
  (state (rc w') = state (rc w) \/ rested w') /\ calm w'.

Lemma stays_refl (w : world) : calm w -> stays w w.
Proof. intros H. split; auto. Qed.

Lemma try_send_stays (w : world) : calm w -> wp try_send (fun _ w' => stays w w') w.
Proof.
  intros Hcalm. apply wp_conj;
    [| eapply wp_mono; [apply try_send_evolves | intros ? w' H; exact (calm_evolves _ _ H Hcalm)]].
  unfold try_send. wp_run.
  destruct (txq (rc w)) as [| head next]; wp_run.
  unfold vconn_send. destruct (vconn (rc w)) as [v |] eqn:Hv; wp_run.
  destruct (negb (_ =? 0)).
  - destruct (negb (_ =? EAGAIN)); wp_run; [| left; reflexivity].
    eapply wp_call; [apply disconnect_rests; exact Hcalm |].
    intros [] w1 [H1 _]. wp_run. right. exact H1.
  - wp_run. eapply wp_call; [apply counter_dec_opt_core |].
    intros [] w1 Hrc. wp_run. left. rewrite Hrc. fields. reflexivity.
Qed.

Lemma stays_trans (w1 w2 w3 : world) :
  state (rc w2) = state (rc w1) -> stays w2 w3 -> stays w1 w3.
Proof. intros H [[H1 | H1] H2]; split; auto. left. congruence. Qed.

Lemma tx_loop_stays (fuel : nat) :
  forall w, calm w -> wp (tx_loop fuel) (fun _ w' => stays w w') w.
Proof.
  induction fuel as [| fuel IH]; intros w Hcalm; simpl tx_loop; wp_run;
    (destruct (txq_n (rc w) >? 0); wp_run; try (now apply stays_refl)).
  eapply wp_call; [apply wp_conj; [apply try_send_stays; exact Hcalm | apply try_send_pops] |].
  intros e w1 [H1 H2]. cbv beta in *.
  destruct (Z.eqb_spec e 0) as [-> | _]; simpl negb; cbv iota; wp_run; [| exact H1].
  destruct (H2 eq_refl) as [Hs _]. destruct H1 as [_ Hc1].
  eapply wp_mono; [apply IH; exact Hc1 |]. intros ? w2 H. eapply stays_trans; eauto.
Qed.

Lemma do_tx_work_stays (w : world) : calm w -> wp do_tx_work (fun _ w' => stays w w') w.
Proof.
  intros Hcalm. unfold do_tx_work. wp_run.
  destruct (txq_n (rc w) =? 0); wp_run; [now apply stays_refl |].
  eapply wp_call; [apply tx_loop_stays; exact Hcalm |].
  intros [] w1 H1. wp_run. destruct (txq_n (rc w1) =? 0); wp_run; exact H1.
Qed.

Lemma rconn_send_stays (b : ofpbuf) (counter : option nat) (w : world) :
  calm w -> wp (rconn_send b counter) (fun _ w' => stays w w') w.
Proof.
  intros Hcalm. apply wp_conj;
    [| eapply wp_mono; [apply rconn_send_evolves | intros ? w' H; exact (calm_evolves _ _ H Hcalm)]].
  unfold rconn_send. wp_run.
  destruct (rconn_is_connected (rc w)); wp_run; [| left; reflexivity].
  eapply wp_call;
    [apply wp_conj; [apply copy_to_monitor_core | apply copy_to_monitor_evolves] |].
  intros [] w1 [Hcore Hev]. cbv beta zeta in *.
  assert (Hs1 : state (rc w1) = state (rc w)).
  { unfold same_core, core in Hcore. now injection Hcore. }
  pose proof (calm_evolves _ _ Hev Hcalm) as Hc1.
  assert (Hpush : forall w2, rc w2 = rc w1 -> clock w2 = clock w1 ->
    wp (modify (fun r => set_txq (txq r ++ [{| data := data b; private_p := counter |}]) r);;
        r' <- get;;
        when (txq_n r' =? 1) (_ <- try_send;; ret tt);;
        ret 0)
       (fun _ w' => state (rc w') = state (rc w) \/ rested w') w2).
  { intros w2 Hrc Hck. wp_run. rewrite Hrc.
    destruct (txq_n _ =? 1); wp_run; [| left; fields; exact Hs1].
    eapply wp_call; [apply try_send_stays |].
    - destruct Hc1 as [? ?]. split; cbn [rc clock with_rc]; fields; [now rewrite Hck | assumption].
    - intros e w3 [[H | H] _]; wp_run; [left | right; exact H].
      rewrite H. cbn [rc with_rc]. fields. exact Hs1. }
  destruct counter as [c |].
  - unfold rconn_packet_counter_inc. apply wp_bind_assoc.
    apply wp_counter_load_bind. intros pc Hpc. wp_step. apply Hpush; reflexivity.
  - wp_step. apply Hpush; reflexivity.
Qed.

Lemma reconnect_stays (w : world) :
  calm w ->
  wp reconnect (fun _ w' => (state (rc w') = S_CONNECTING \/ rested w') /\ calm w') w.
Proof.
  intros Hcalm. apply wp_conj;
    [| eapply wp_mono; [apply reconnect_evolves | intros ? w' H; exact (calm_evolves _ _ H Hcalm)]].
  unfold reconnect, vconn_open. wp_run.
  destruct (a_retval (peer w (calls w)) =? 0); wp_run; [left; fields; reflexivity |].
  eapply wp_call; [apply disconnect_rests |].
  - destruct Hcalm as [? ?]. split; cbn [rc clock with_rc with_log with_calls]; fields; assumption.
  - intros [] w1 [H1 _]. wp_run. right. exact H1.
Qed.

(** One round of [rconn_run]. *)
Lemma run_state_stays (w : world) :
  calm w ->
  wp (run_state (state (rc w))) (fun _ w' =>
    (state (rc w') = state (rc w) \/ rested w'
     \/ (rounds (state (rc w')) < rounds (state (rc w)))%nat)
    /\ calm w') w.
Proof.
  intros Hcalm. apply wp_conj;
    [| eapply wp_mono; [apply run_state_evolves | intros ? w' H; exact (calm_evolves _ _ H Hcalm)]].
  assert (Hweak : forall w0 w', stays w0 w' -> state (rc w0) = state (rc w) ->
            state (rc w') = state (rc w) \/ rested w'
            \/ (rounds (state (rc w')) < rounds (state (rc w)))%nat).
  { intros w0 w' [[H | H] _] H0; [left; congruence | right; left; exact H]. }
  destruct (state (rc w)) eqn:Hst; simpl run_state.
  - unfold run_VOID. wp_run. left. exact Hst.
  - unfold run_BACKOFF. wp_run. destruct (timed_out _ _); wp_run; [| left; exact Hst].
    eapply wp_call; [apply reconnect_stays; exact Hcalm |].
    intros e w1 [[H | H] _]; wp_run; [right; right | right; left; exact H].
    rewrite H. simpl. lia.
  - unfold run_CONNECTING, vconn_connect. wp_run.
    destruct (vconn (rc w)) as [v |] eqn:Hvc; wp_run.
    assert (Hc1 : calm (with_log (EvConnect v (a_retval (peer w (calls w))) :: log w)
                          (with_calls (S (calls w)) w))) by exact Hcalm.
    destruct (_ =? 0); wp_run.
    + right. right. fields. simpl. lia.
    + destruct (negb _).
      * eapply wp_mono; [apply disconnect_rests; exact Hc1 |].
        intros ? w1 [H _]. right. left. exact H.
      * wp_run. destruct (timed_out _ _); wp_run; [| left; exact Hst].
        eapply wp_mono; [apply disconnect_rests |].
        -- destruct Hcalm as [? ?]. split; cbn [rc clock with_rc with_log with_calls];
             fields; assumption.
        -- intros ? w1 [H _]. right. left. exact H.
  - unfold run_ACTIVE. wp_run. destruct (timed_out _ _); wp_run.
    + eapply wp_call; [apply rconn_send_stays |].
      * destruct Hcalm as [? ?]. split; cbn [rc clock with_rc]; fields; assumption.
      * intros e w1 [[H | H] _]; wp_run; [right; right | right; left; exact H].
        rewrite H. cbn [rc with_rc]. fields. simpl. lia.
    + eapply wp_mono; [apply do_tx_work_stays; exact Hcalm |].
      intros ? w1 H. exact (Hweak w w1 H Hst).
  - unfold run_IDLE. wp_run. destruct (timed_out _ _); wp_run.
    + eapply wp_mono; [apply disconnect_rests |].
      * destruct Hcalm as [? ?]. split; cbn [rc clock with_rc]; fields; assumption.
      * intros ? w1 [H _]. right. left. exact H.
    + eapply wp_mono; [apply do_tx_work_stays; exact Hcalm |].
      intros ? w1 H. exact (Hweak w w1 H Hst).
Qed.

(** [k] rounds are enough for [rconn_run] from [w]: more fuel makes no
    difference, and the rounds do not run out. *)
Definition settled (k : nat) (w : world) : Prop :=
  forall fuel, (k <= fuel)%nat ->
    rconn_run fuel w = rconn_run k w /\ rconn_run k w <> Crash OutOfFuel.

Lemma settled_mono (k k' : nat) (w : world) : (k <= k')%nat -> settled k w -> settled k' w.
Proof.
  intros Hle H fuel Hf. destruct (H fuel ltac:(lia)) as [H1 H2].
  destruct (H k' Hle) as [H3 _]. split; congruence.
Qed.

Lemma rconn_run_round (fuel : nat) (w : world) :
  rconn_run (S fuel) w =
  match run_state (state (rc w)) w with
  | Ok _ w' =>
      if state_eqb (state (rc w')) (state (rc w)) then Ok tt w' else rconn_run fuel w'
  | Crash f => Crash f
  end.
Proof.
  simpl. unfold bind, get.
  destruct (run_state (state (rc w)) w) as [[] w' | f]; [| reflexivity].
  destruct (state_eqb (state (rc w')) (state (rc w))); reflexivity.
Qed.

Lemma rested_settled (w : world) : rested w -> settled 1 w.
Proof.
  intros Hr.
  assert (Hrun : run_state (state (rc w)) w = Ok tt w).
  { destruct Hr as [Hs | [Hs Ht]]; rewrite Hs; [reflexivity |].
    simpl. unfold run_BACKOFF, bind, time_now, get. now rewrite Ht. }
  assert (H1 : forall fuel, rconn_run (S fuel) w = Ok tt w).
  { intros fuel. rewrite rconn_run_round, Hrun.
    unfold state_eqb. now rewrite bool_decide_eq_true_2. }
  intros fuel Hf. destruct fuel as [| fuel]; [lia |]. rewrite !H1. split; [reflexivity | discriminate].
Qed.

Lemma settled_step (k : nat) (w : world) :
  avoids out_of_fuel (run_state (state (rc w))) w ->
  wp (run_state (state (rc w))) (fun _ w' =>
    state (rc w') = state (rc w) \/ settled k w') w ->
  settled (S k) w.
Proof.
  intros Hf Hwp fuel Hle. destruct fuel as [| fuel]; [lia |].
  rewrite !rconn_run_round. unfold avoids in Hf. unfold wp in Hwp.
  destruct (run_state (state (rc w)) w) as [[] w' | flt].
  - destruct (state_eqb (state (rc w')) (state (rc w))) eqn:E.
    + split; [reflexivity | discriminate].
    + destruct Hwp as [Hs | Hk]; [apply state_eqb_eq in Hs; congruence |].
      apply Hk. lia.
  - split; [reflexivity |]. intros [= ->]. discriminate.
Qed.

Lemma rested_dec (w : world) : {rested w} + {~ rested w}.
Proof.
  unfold rested. destruct (state (rc w)) eqn:Hs;
    try (right; intros [H | [H _]]; discriminate).
  - left. left. reflexivity.
  - destruct (timed_out (clock w) (rc w)).
    + right. intros [H | [_ H]]; discriminate.
    + left. right. split; reflexivity.
Qed.

Lemma rounds_settled (k : nat) :
  forall w, (rounds (state (rc w)) <= k)%nat -> calm w -> settled k w.
Proof.
  induction k as [| k IH]; intros w Hr Hcalm.
  - destruct (state (rc w)); simpl in Hr; lia.
  - destruct (rested_dec w) as [Hrest | Hn].
    { eapply settled_mono; [| apply rested_settled; exact Hrest]. lia. }
    assert (Hk : (1 <= k)%nat).
    { destruct (state (rc w)) eqn:Hs; simpl in Hr; try lia.
      exfalso. apply Hn. left. exact Hs. }
    apply settled_step; [apply run_state_fuelled |].
    eapply wp_mono; [apply run_state_stays; exact Hcalm |].
    intros ? w' [[Hs | [Hs | Hs]] Hc']; [left; exact Hs | right | right].
    + eapply settled_mono; [exact Hk | apply rested_settled; exact Hs].
    + apply IH; [lia | exact Hc'].
Qed.

Lemma reachable_max_backoff (w : world) :
  reachable w -> 1 <= max_backoff (rc w) \/ INT_MIN <= max_backoff (rc w) < 0.
Proof.
  revert w. apply (reachable_invariant
    (fun w => 1 <= max_backoff (rc w) \/ INT_MIN <= max_backoff (rc w) < 0)).
  - intros p now pi mb (_ & _ & Hm & _). unfold boot, rconn_create, rconn_set_probe_interval.
    simpl. unfold int_ok, INT_MIN, INT_MAX in *.
    destruct (Z.eqb_spec mb 0); simpl; lia.
  - intros w w' Hm. destruct Hm as [w r' Hu | w e | w | w cs]; simpl; auto.
    exact (update_max_backoff_ok _ _ _ Hu).
  - auto.
Qed.

(** A reliable connection whose first attempt fails and whose second one
    succeeds at once, when the backoff of one second has passed. *)
Definition w_retry : world :=
  after (sleep 2)
    (after (rconn_connect "tcp:10.0.0.2")
       (boot (peer_script [111; 0; 0; 0] EAGAIN) 100 5 8)).

Lemma reachable_w_retry : reachable w_retry.
Proof.
  apply (reach_call false
           (after (rconn_connect "tcp:10.0.0.2")
              (boot (peer_script [111; 0; 0; 0] EAGAIN) 100 5 8))
           w_retry (Sleep 2)); [| exact I | vm_compute; reflexivity].
  apply (reach_call false (boot (peer_script [111; 0; 0; 0] EAGAIN) 100 5 8) _
           (Connect "tcp:10.0.0.2")); [| exact I | vm_compute; reflexivity].
  apply reach_create. in_range.
Qed.

(** X19: the loop of [rconn_run] ends.  From every reachable world whose
    clock is within [unsigned int], five rounds of the loop are enough: with
    any larger number of rounds the call gives the very same outcome, and it
    does not run out of rounds.  Two rounds are not always enough: from
    BACKOFF the machine may go on to CONNECTING and ACTIVE in one call. *)
Theorem rconn_run_five_rounds_suffice (w : world) :
  reachable w -> 0 <= clock w < UINT_MAX ->
  (forall fuel, (5 <= fuel)%nat ->
     rconn_run fuel w = rconn_run 5 w /\ rconn_run 5 w <> Crash OutOfFuel)
  /\ (exists w0, reachable w0 /\ 0 <= clock w0 < UINT_MAX
                 /\ rconn_run 2 w0 = Crash OutOfFuel).
Proof.
  intros Hreach Hclock. split.
  - apply rounds_settled; [destruct (state (rc w)); simpl; lia |].
    split; [exact Hclock | now apply reachable_max_backoff].
  - exists w_retry. split; [exact reachable_w_retry |].
    split; [vm_compute; split; [discriminate | reflexivity] | vm_compute; reflexivity].
Qed.

Lemma rconn_run_five_rounds_suffice_witness :
  rconn_run 7 w_retry = rconn_run 5 w_retry /\ rconn_run 5 w_retry <> Crash OutOfFuel.
Proof.
  assert (Hc : 0 <= clock w_retry < UINT_MAX)
    by (vm_compute; split; [discriminate | reflexivity]).
  exact (proj1 (rconn_run_five_rounds_suffice w_retry reachable_w_retry Hc) 7%nat
           ltac:(lia)).
Defined.
